(** * CineMap: the movie-collection manager, checked against its specification

    A shallow embedding of the three source files of the application:
    - [filmoteca.js]: persistence in [localStorage], the functional CRUD
      operations and the two filters (module [Filmoteca] below);
    - [api.js]: the TMDB catalog client (modules [API] and [Search]);
    - [ui.js]: the rendering helpers and the add handler (module [UI]), the
      page and its other handlers (module [Page]).

    The JavaScript platform itself (values, objects, strict equality,
    truthiness, [JSON.stringify]/[JSON.parse], [localStorage], [fetch]) is
    modelled in the modules [JS], [Json] and [Browser]. *)

From Stdlib Require Import ZArith NArith Ascii String List Lia Bool.
From stdpp Require Import base option list gmap strings.

Set Warnings "-register-all".
Open Scope string_scope.
Open Scope list_scope.

(** ** JavaScript values *)

Module JS.

(** A JavaScript number restricted to the finite decimal fractions
    [mant * 10 ^ (- scale)]: every number a JSON text can denote.  [NaN] and
    the infinities have no representation, and arithmetic on the model is
    exact: the binary rounding of the platform's doubles is not part of the
    model.  A number is in canonical form when the mantissa carries no
    trailing zero that the scale could absorb ([normalize] below). *)
Record number := Num { mant : Z; scale : nat }.

Inductive value :=
  | VUndef
  | VNull
  | VBool (b : bool)
  | VNum (n : number)
  | VStr (s : string)
  | VArr (l : list value)
  | VObj (o : list (string * value)).

(** A plain object: its own enumerable properties in insertion order. *)
Definition object := list (string * value).

Definition int (z : Z) : value := VNum (Num z 0).

(** Exceptions. *)
Inductive error :=
  | TypeError
  | SyntaxError
  | NetworkError
  | HttpError (status : Z).

Inductive outcome (A : Type) :=
  | Ok (a : A)
  | Throw (e : error).
Arguments Ok {A} a.
Arguments Throw {A} e.

(** Numeric equality, as [===] decides it on two numbers. *)
Definition num_eqb (a b : number) : bool :=
  (mant a * 10 ^ Z.of_nat (scale b) =? mant b * 10 ^ Z.of_nat (scale a))%Z.

Fixpoint normalize (m : Z) (e : nat) : number :=
  match e with
  | O => Num m 0
  | S e' => if (m mod 10 =? 0)%Z then normalize (m / 10) e' else Num m e
  end.

(** [a === b].  Objects and arrays compare by identity; the second operand is
    always a freshly computed primitive in this program ([Number(..)] of a
    form field, a number literal in generated markup, a string literal), so a
    comparison that involves an object or an array is [false]. *)
Definition strict_eq (a b : value) : bool :=
  match a, b with
  | VUndef, VUndef => true
  | VNull, VNull => true
  | VBool x, VBool y => Bool.eqb x y
  | VNum x, VNum y => num_eqb x y
  | VStr x, VStr y => String.eqb x y
  | _, _ => false
  end.

(** [ToBoolean]. *)
Definition truthy (v : value) : bool :=
  match v with
  | VUndef | VNull => false
  | VBool b => b
  | VNum n => negb (mant n =? 0)%Z
  | VStr s => negb (String.eqb s "")
  | VArr _ | VObj _ => true
  end.

(** [a || b] on values. *)
Definition or_else (a b : value) : value := if truthy a then a else b.

(** *** Decimal digits *)

Definition digit_char (d : N) : ascii := ascii_of_N (48 + d).

Fixpoint digits_fuel (fuel : nat) (n : N) (acc : list N) : list N :=
  match fuel with
  | O => n :: acc
  | S f => if (n <? 10)%N then n :: acc
           else digits_fuel f (n / 10)%N ((n mod 10)%N :: acc)
  end.

Definition digits_of_N (n : N) : list N := digits_fuel (N.size_nat n) n [].

Definition digits_value (ds : list N) : N :=
  fold_left (fun acc d => (acc * 10 + d)%N) ds 0%N.

Definition pad_zeros (k : nat) (ds : list N) : list N :=
  repeat 0%N (k - length ds) ++ ds.

Fixpoint strip_zeros_end (ds : list N) : list N :=
  match ds with
  | [] => []
  | d :: r =>
      match strip_zeros_end r with
      | [] => if (d =? 0)%N then [] else [d]
      | r' => d :: r'
      end
  end.

Definition chars (ds : list N) : list ascii := map digit_char ds.

(** Positional notation: the digits of the mantissa with the decimal point
    [scale] places from the right. *)
Definition positional (ds : list N) (e : nat) : list ascii :=
  let ds' := pad_zeros (S e) ds in
  let k := (length ds' - e)%nat in
  chars (firstn k ds') ++
  match e with
  | O => []
  | S _ => "."%char :: chars (skipn k ds')
  end.

(** Exponent notation, used by the platform outside [1e-6, 1e21). *)
Definition exponential (ds : list N) (e : nat) : list ascii :=
  let s := match strip_zeros_end ds with [] => [0%N] | s => s end in
  let x := (Z.of_nat (length ds) - Z.of_nat e - 1)%Z in
  chars (firstn 1 s) ++
  match skipn 1 s with
  | [] => []
  | r => "."%char :: chars r
  end ++
  "e"%char :: (if (x <? 0)%Z then "-"%char else "+"%char) ::
  chars (digits_of_N (Z.abs_N x)).

(** [Number::toString] in radix 10. *)
Definition number_chars (n : number) : list ascii :=
  let n' := normalize (mant n) (scale n) in
  let ds := digits_of_N (Z.abs_N (mant n')) in
  let p := (Z.of_nat (length ds) - Z.of_nat (scale n'))%Z in
  (if (mant n' <? 0)%Z then ["-"%char] else []) ++
  (if ((mant n' =? 0) || ((-6 <? p) && (p <=? 21)))%Z
   then positional ds (scale n')
   else exponential ds (scale n')).

Definition number_to_string (n : number) : string :=
  string_of_list_ascii (number_chars n).

(** [Array.prototype.join]. *)
Fixpoint join (sep : string) (l : list string) : string :=
  match l with
  | [] => ""
  | [s] => s
  | s :: r => s +:+ sep +:+ join sep r
  end.

(** [ToString], as template literals and [join] apply it. *)
Fixpoint to_string (v : value) : string :=
  match v with
  | VUndef => "undefined"
  | VNull => "null"
  | VBool true => "true"
  | VBool false => "false"
  | VNum n => number_to_string n
  | VStr s => s
  | VArr l =>
      join "," (map (fun e => match e with
                              | VUndef | VNull => ""
                              | _ => to_string e
                              end) l)
  | VObj _ => "[object Object]"
  end.

(** *** Objects *)

Fixpoint obj_get (k : string) (o : object) : value :=
  match o with
  | [] => VUndef
  | (k', v) :: r => if String.eqb k k' then v else obj_get k r
  end.

(** Assignment [o[k] = v]: an existing property keeps its position. *)
Fixpoint obj_set (k : string) (v : value) (o : object) : object :=
  match o with
  | [] => [(k, v)]
  | (k', v') :: r =>
      if String.eqb k k' then (k, v) :: r else (k', v') :: obj_set k v r
  end.

(** The object literal [{ ...a, ...b }]: the properties of [a] with those of
    [b] laid over them. *)
Definition spread (a b : object) : object :=
  fold_left (fun acc kv => obj_set kv.1 kv.2 acc) b a.

(** Property read [v.k] for the property names this program uses; none of
    them is inherited from a prototype, so a primitive, array or object
    without the property gives [undefined], while [null] and [undefined]
    have no properties at all. *)
Definition get_prop (v : value) (k : string) : outcome value :=
  match v with
  | VUndef | VNull => Throw TypeError
  | VObj o => Ok (obj_get k o)
  | _ => Ok VUndef
  end.

(** The entries of a list that are present. *)
Fixpoint somes {A} (l : list (option A)) : list A :=
  match l with
  | [] => []
  | Some a :: r => a :: somes r
  | None :: r => somes r
  end.

(** *** Strings *)

Fixpoint starts_with (s p : string) {struct p} : bool :=
  match p, s with
  | EmptyString, _ => true
  | String c p', String d s' => Ascii.eqb c d && starts_with s' p'
  | String _ _, EmptyString => false
  end.

(** [String.prototype.includes]. *)
Fixpoint includes (s p : string) : bool :=
  starts_with s p ||
  match s with
  | EmptyString => false
  | String _ s' => includes s' p
  end.

End JS.

Import JS.

(** ** JSON text: [JSON.stringify] and [JSON.parse] *)

Module Json.

Definition dquote : ascii := "034"%char.
Definition backslash : ascii := "\"%char.

Definition hex_char (d : N) : ascii :=
  if (d <? 10)%N then ascii_of_N (48 + d) else ascii_of_N (87 + d).

(** [QuoteJSONString], one character at a time. *)
Definition quote_char (c : ascii) : list ascii :=
  let n := N_of_ascii c in
  if Ascii.eqb c dquote then [backslash; dquote]
  else if Ascii.eqb c backslash then [backslash; backslash]
  else if (n =? 8)%N then [backslash; "b"%char]
  else if (n =? 12)%N then [backslash; "f"%char]
  else if (n =? 10)%N then [backslash; "n"%char]
  else if (n =? 13)%N then [backslash; "r"%char]
  else if (n =? 9)%N then [backslash; "t"%char]
  else if (n <? 32)%N then
    [backslash; "u"%char; "0"%char; "0"%char; hex_char (n / 16); hex_char (n mod 16)]
  else [c].

Definition quote (s : string) : list ascii :=
  dquote :: flat_map quote_char (list_ascii_of_string s) ++ [dquote].

Fixpoint commas (l : list (list ascii)) : list ascii :=
  match l with
  | [] => []
  | [x] => x
  | x :: r => x ++ ","%char :: commas r
  end.

(** [SerializeJSONProperty]: inside an array [undefined] is written as
    [null]; a property whose value is [undefined] is left out. *)
Fixpoint ser (v : value) : list ascii :=
  match v with
  | VUndef | VNull => list_ascii_of_string "null"
  | VBool true => list_ascii_of_string "true"
  | VBool false => list_ascii_of_string "false"
  | VNum n => number_chars n
  | VStr s => quote s
  | VArr l => "["%char :: commas (map ser l) ++ ["]"%char]
  | VObj o =>
      "{"%char ::
      commas (somes (map (fun kv =>
                match snd kv with
                | VUndef => None
                | _ => Some (quote (fst kv) ++ ":"%char :: ser (snd kv))
                end) o)) ++ ["}"%char]
  end.

(** [JSON.stringify(v)]; the result is [undefined] for [undefined]. *)
Definition stringify (v : value) : value :=
  match v with
  | VUndef => VUndef
  | _ => VStr (string_of_list_ascii (ser v))
  end.

(** *** The parser *)

Definition is_ws (c : ascii) : bool :=
  let n := N_of_ascii c in
  (n =? 32)%N || (n =? 9)%N || (n =? 10)%N || (n =? 13)%N.

Fixpoint skip_ws (s : list ascii) : list ascii :=
  match s with
  | c :: r => if is_ws c then skip_ws r else s
  | [] => []
  end.

Definition is_digit (c : ascii) : bool :=
  let n := N_of_ascii c in (48 <=? n)%N && (n <=? 57)%N.

Definition digit_val (c : ascii) : N := (N_of_ascii c - 48)%N.

Fixpoint span_digits (s : list ascii) : list N * list ascii :=
  match s with
  | c :: r =>
      if is_digit c then
        let '(ds, rest) := span_digits r in (digit_val c :: ds, rest)
      else ([], s)
  | [] => ([], [])
  end.

Definition parse_int_part (s : list ascii) : option (list N * list ascii) :=
  match s with
  | c :: r =>
      if is_digit c then
        if Ascii.eqb c "0" then Some ([0%N], r) else Some (span_digits s)
      else None
  | [] => None
  end.

Definition parse_frac (s : list ascii) : option (list N * list ascii) :=
  match s with
  | c :: r =>
      if Ascii.eqb c "." then
        match span_digits r with
        | ([], _) => None
        | (ds, rest) => Some (ds, rest)
        end
      else Some ([], s)
  | [] => Some ([], [])
  end.

Definition parse_exp (s : list ascii) : option (Z * list ascii) :=
  match s with
  | c :: r =>
      if Ascii.eqb c "e" || Ascii.eqb c "E" then
        let '(sg, r1) :=
          match r with
          | d :: r' =>
              if Ascii.eqb d "+" then (1%Z, r')
              else if Ascii.eqb d "-" then ((-1)%Z, r')
              else (1%Z, r)
          | [] => (1%Z, r)
          end in
        match span_digits r1 with
        | ([], _) => None
        | (ds, rest) => Some ((sg * Z.of_N (digits_value ds))%Z, rest)
        end
      else Some (0%Z, s)
  | [] => Some (0%Z, [])
  end.

(** The number [± (ip.fp) * 10 ^ x], in canonical form. *)
Definition make_number (neg : bool) (ip fp : list N) (x : Z) : number :=
  let a := Z.of_N (digits_value (ip ++ fp)) in
  let m := if neg then (- a)%Z else a in
  let e := (Z.of_nat (length fp) - x)%Z in
  if (e <? 0)%Z then Num (m * 10 ^ (- e)) 0 else normalize m (Z.to_nat e).

Definition parse_magnitude (neg : bool) (s : list ascii)
  : option (number * list ascii) :=
  match parse_int_part s with
  | None => None
  | Some (ip, s2) =>
      match parse_frac s2 with
      | None => None
      | Some (fp, s3) =>
          match parse_exp s3 with
          | None => None
          | Some (x, s4) => Some (make_number neg ip fp x, s4)
          end
      end
  end.

Definition parse_number (s : list ascii) : option (number * list ascii) :=
  match s with
  | c :: r => if Ascii.eqb c "-" then parse_magnitude true r
              else parse_magnitude false s
  | [] => None
  end.

Definition hex_val (c : ascii) : option N :=
  let n := N_of_ascii c in
  if (48 <=? n)%N && (n <=? 57)%N then Some (n - 48)%N
  else if (97 <=? n)%N && (n <=? 102)%N then Some (n - 87)%N
  else if (65 <=? n)%N && (n <=? 70)%N then Some (n - 55)%N
  else None.

Definition hex4 (a b c d : ascii) : option N :=
  match hex_val a, hex_val b, hex_val c, hex_val d with
  | Some x, Some y, Some z, Some w => Some (((x * 16 + y) * 16 + z) * 16 + w)%N
  | _, _, _, _ => None
  end.

(** The UTF-8 bytes of a code point (strings are kept as UTF-8 bytes). *)
Definition utf8 (cp : N) : list ascii :=
  if (cp <? 128)%N then [ascii_of_N cp]
  else if (cp <? 2048)%N then
    [ascii_of_N (192 + cp / 64); ascii_of_N (128 + cp mod 64)]
  else if (cp <? 65536)%N then
    [ascii_of_N (224 + cp / 4096); ascii_of_N (128 + (cp / 64) mod 64);
     ascii_of_N (128 + cp mod 64)]
  else
    [ascii_of_N (240 + cp / 262144); ascii_of_N (128 + (cp / 4096) mod 64);
     ascii_of_N (128 + (cp / 64) mod 64); ascii_of_N (128 + cp mod 64)].

Definition simple_escape (c : ascii) : option ascii :=
  if Ascii.eqb c dquote then Some dquote
  else if Ascii.eqb c backslash then Some backslash
  else if Ascii.eqb c "/" then Some "/"%char
  else if Ascii.eqb c "b" then Some (ascii_of_N 8)
  else if Ascii.eqb c "f" then Some (ascii_of_N 12)
  else if Ascii.eqb c "n" then Some (ascii_of_N 10)
  else if Ascii.eqb c "r" then Some (ascii_of_N 13)
  else if Ascii.eqb c "t" then Some (ascii_of_N 9)
  else None.

Definition is_high (cu : N) : bool := (55296 <=? cu)%N && (cu <=? 56319)%N.
Definition is_low (cu : N) : bool := (56320 <=? cu)%N && (cu <=? 57343)%N.

Definition cons_to {A B} (pre : list A) (r : option (list A * B))
  : option (list A * B) :=
  match r with
  | Some (t, rest) => Some (pre ++ t, rest)
  | None => None
  end.

(** The characters of a string literal after its opening quote. *)
Fixpoint parse_string_body (s : list ascii) : option (list ascii * list ascii) :=
  match s with
  | [] => None
  | c :: r =>
      if Ascii.eqb c dquote then Some ([], r)
      else if Ascii.eqb c backslash then
        match r with
        | [] => None
        | e :: r1 =>
            match simple_escape e with
            | Some d => cons_to [d] (parse_string_body r1)
            | None =>
                if Ascii.eqb e "u" then
                  match r1 with
                  | h1 :: h2 :: h3 :: h4 :: r2 =>
                      match hex4 h1 h2 h3 h4 with
                      | None => None
                      | Some cu =>
                          if is_high cu then
                            match r2 with
                            | b :: u :: l1 :: l2 :: l3 :: l4 :: r3 =>
                                match hex4 l1 l2 l3 l4 with
                                | Some lo =>
                                    if Ascii.eqb b backslash && Ascii.eqb u "u"
                                       && is_low lo
                                    then cons_to
                                           (utf8 (65536 + (cu - 55296) * 1024
                                                  + (lo - 56320))%N)
                                           (parse_string_body r3)
                                    else cons_to (utf8 cu) (parse_string_body r2)
                                | None => cons_to (utf8 cu) (parse_string_body r2)
                                end
                            | _ => cons_to (utf8 cu) (parse_string_body r2)
                            end
                          else cons_to (utf8 cu) (parse_string_body r2)
                      end
                  | _ => None
                  end
                else None
            end
        end
      else if (N_of_ascii c <? 32)%N then None
      else cons_to [c] (parse_string_body r)
  end.

Fixpoint expect (w : list ascii) (s : list ascii) : option (list ascii) :=
  match w, s with
  | [], _ => Some s
  | c :: w', d :: s' => if Ascii.eqb c d then expect w' s' else None
  | _ :: _, [] => None
  end.

(** Entries of an object literal, a repeated name overwriting in place. *)
Definition obj_of_entries (l : list (string * value)) : object :=
  fold_left (fun acc kv => obj_set kv.1 kv.2 acc) l [].

(** The elements of an array after the first has been found to be there:
    values separated by commas, up to the closing bracket.  [value] parses
    one value; [k] bounds the number of elements. *)
Definition parse_elements (value : list ascii -> option (value * list ascii))
  : nat -> list ascii -> option (list JS.value * list ascii) :=
  fix elements (k : nat) (s : list ascii) :=
    match k with
    | O => None
    | S k' =>
        match value s with
        | None => None
        | Some (v, r1) =>
            match skip_ws r1 with
            | d :: r2 =>
                if Ascii.eqb d "," then
                  match elements k' r2 with
                  | Some (l, rest) => Some (v :: l, rest)
                  | None => None
                  end
                else if Ascii.eqb d "]" then Some ([v], r2)
                else None
            | [] => None
            end
        end
    end.

(** The members of an object: [name : value] pairs separated by commas, up
    to the closing brace. *)
Definition parse_members (value : list ascii -> option (value * list ascii))
  : nat -> list ascii -> option (list (string * JS.value) * list ascii) :=
  fix members (k : nat) (s : list ascii) :=
    match k with
    | O => None
    | S k' =>
        match skip_ws s with
        | q :: s1 =>
            if Ascii.eqb q dquote then
              match parse_string_body s1 with
              | None => None
              | Some (key, s2) =>
                  match skip_ws s2 with
                  | col :: s3 =>
                      if Ascii.eqb col ":" then
                        match value s3 with
                        | None => None
                        | Some (v, r1) =>
                            let kv := (string_of_list_ascii key, v) in
                            match skip_ws r1 with
                            | d :: r2 =>
                                if Ascii.eqb d "," then
                                  match members k' r2 with
                                  | Some (l, rest) => Some (kv :: l, rest)
                                  | None => None
                                  end
                                else if Ascii.eqb d "}" then Some ([kv], r2)
                                else None
                            | [] => None
                            end
                        end
                      else None
                  | [] => None
                  end
              end
            else None
        | [] => None
        end
    end.

(** Recursive descent; [fuel] bounds the nesting depth and the number of
    elements of one array or object. *)
Fixpoint parse_value (fuel : nat) (s : list ascii) : option (value * list ascii) :=
  match fuel with
  | O => None
  | S f =>
      match skip_ws s with
      | [] => None
      | c :: r =>
          if Ascii.eqb c dquote then
            match parse_string_body r with
            | Some (t, rest) => Some (VStr (string_of_list_ascii t), rest)
            | None => None
            end
          else if Ascii.eqb c "[" then
            match skip_ws r with
            | d :: rest =>
                if Ascii.eqb d "]" then Some (VArr [], rest)
                else
                  match parse_elements (parse_value f) f r with
                  | Some (l, rest) => Some (VArr l, rest)
                  | None => None
                  end
            | [] => None
            end
          else if Ascii.eqb c "{" then
            match skip_ws r with
            | d :: rest =>
                if Ascii.eqb d "}" then Some (VObj [], rest)
                else
                  match parse_members (parse_value f) f r with
                  | Some (l, rest) => Some (VObj (obj_of_entries l), rest)
                  | None => None
                  end
            | [] => None
            end
          else if Ascii.eqb c "t" then
            match expect (list_ascii_of_string "rue") r with
            | Some rest => Some (VBool true, rest)
            | None => None
            end
          else if Ascii.eqb c "f" then
            match expect (list_ascii_of_string "alse") r with
            | Some rest => Some (VBool false, rest)
            | None => None
            end
          else if Ascii.eqb c "n" then
            match expect (list_ascii_of_string "ull") r with
            | Some rest => Some (VNull, rest)
            | None => None
            end
          else
            match parse_number (c :: r) with
            | Some (n, rest) => Some (VNum n, rest)
            | None => None
            end
      end
  end.

(** [JSON.parse(text)]: one value, then nothing but white space; anything
    else is a [SyntaxError]. *)
Definition parse (text : string) : outcome value :=
  let s := list_ascii_of_string text in
  match parse_value (S (length s)) s with
  | Some (v, rest) =>
      match skip_ws rest with
      | [] => Ok v
      | _ :: _ => Throw SyntaxError
      end
  | None => Throw SyntaxError
  end.

End Json.

(** ** The browser: [localStorage], [fetch], [console], [alert] *)

Module Browser.

(** What [fetch] settles to: a transport failure rejects the promise; any
    HTTP answer, whatever its status, resolves it. *)
Record response := { ok : bool; status : Z; body : string }.

Inductive fetch_result :=
  | Rejected
  | Responded (r : response).

(** The part of the browser the program acts on.  [requests] lists the URLs
    passed to [fetch]; promises that run concurrently are run one after the
    other, so the order of [requests] across such promises carries no
    meaning. *)
Record world := {
  storage : gmap string string;
  requests : list string;
  console : list string;
  alerts : list string
}.

Definition io (A : Type) : Type := world -> outcome A * world.

Definition ret {A} (a : A) : io A := fun w => (Ok a, w).

Definition throw {A} (e : error) : io A := fun w => (Throw e, w).

Definition bind {A B} (m : io A) (k : A -> io B) : io B :=
  fun w =>
    match m w with
    | (Ok a, w') => k a w'
    | (Throw e, w') => (Throw e, w')
    end.

(** [try { m } catch (error) { h }]. *)
Definition try_catch {A} (m : io A) (h : error -> io A) : io A :=
  fun w =>
    match m w with
    | (Ok a, w') => (Ok a, w')
    | (Throw e, w') => h e w'
    end.

Definition lift {A} (o : outcome A) : io A := fun w => (o, w).

Notation "x <- m ;; k" := (bind m (fun x => k))
  (at level 62, m at next level, right associativity).
Notation "m ;;; k" := (bind m (fun _ => k))
  (at level 62, right associativity).

(** [Promise.all]: every promise runs to its end, and the first rejection, if
    any, is the result. *)
Fixpoint promise_all {A} (l : list (io A)) : io (list A) :=
  match l with
  | [] => ret []
  | m :: r =>
      fun w =>
        let '(a, w1) := m w in
        let '(rs, w2) := promise_all r w1 in
        (match a, rs with
         | Ok x, Ok xs => Ok (x :: xs)
         | Throw e, _ => Throw e
         | Ok _, Throw e => Throw e
         end, w2)
  end.

Definition getItem (k : string) : io value :=
  fun w => (Ok (match storage w !! k with
                | Some s => VStr s
                | None => VNull
                end), w).

(** [localStorage.setItem]; the quota of the storage is not part of the
    model, so the call always succeeds. *)
Definition setItem (k : string) (v : value) : io unit :=
  fun w => (Ok tt, {| storage := <[k := to_string v]> (storage w);
                      requests := requests w;
                      console := console w;
                      alerts := alerts w |}).

Definition removeItem (k : string) : io unit :=
  fun w => (Ok tt, {| storage := delete k (storage w);
                      requests := requests w;
                      console := console w;
                      alerts := alerts w |}).

Definition console_log (msg : string) : io unit :=
  fun w => (Ok tt, {| storage := storage w;
                      requests := requests w;
                      console := console w ++ [msg];
                      alerts := alerts w |}).

Definition console_error (msg : string) : io unit := console_log msg.

Definition alert (msg : string) : io unit :=
  fun w => (Ok tt, {| storage := storage w;
                      requests := requests w;
                      console := console w;
                      alerts := alerts w ++ [msg] |}).

(** [fetch(url, { headers })] against the network [net]; the request headers
    (the bearer credential) play no part in the model. *)
Definition fetch (net : string -> fetch_result) (url : string) : io response :=
  fun w =>
    let w' := {| storage := storage w;
                 requests := requests w ++ [url];
                 console := console w;
                 alerts := alerts w |} in
    match net url with
    | Rejected => (Throw NetworkError, w')
    | Responded r => (Ok r, w')
    end.

(** [response.json()]. *)
Definition json (r : response) : io value := lift (Json.parse (body r)).

End Browser.

Import Browser.

(** The array of movie objects as a value. *)
Definition movies_value (movies : list object) : value := VArr (map VObj movies).

(** ** filmoteca.js *)

Module Filmoteca.

Definition STORAGE_KEY : string := "filmoteca::movies".

Definition loadMovies : io value :=
  data <- getItem STORAGE_KEY ;;
  if truthy data then lift (Json.parse (to_string data)) else ret (VArr []).

Definition saveMovies (movies : value) : io unit :=
  setItem STORAGE_KEY (Json.stringify movies).

Definition clearMovies : io unit :=
  removeItem STORAGE_KEY ;;;
  console_log "Filmoteca limpa.".

Definition DEFAULT_MOVIE_IDS : list value :=
  map int [129; 124; 122; 121; 120; 13; 155; 497; 680; 275]%Z.

(** [crew.find(person => person.job === "Director")] on the elements of an
    array. *)
Fixpoint find_director (crew : list value) : outcome value :=
  match crew with
  | [] => Ok VUndef
  | person :: r =>
      match get_prop person "job" with
      | Throw e => Throw e
      | Ok job => if strict_eq job (VStr "Director") then Ok person
                  else find_director r
      end
  end.

(** [v.find(..)] on any value: only an array has the method. *)
Definition crew_find (crew : value) : outcome value :=
  match crew with
  | VArr l => find_director l
  | _ => Throw TypeError
  end.

(** [genres.map(g => g.name)] on the elements of an array. *)
Fixpoint genre_names (gs : list value) : outcome (list value) :=
  match gs with
  | [] => Ok []
  | g :: r =>
      match get_prop g "name" with
      | Throw e => Throw e
      | Ok n =>
          match genre_names r with
          | Throw e => Throw e
          | Ok ns => Ok (n :: ns)
          end
      end
  end.

(** [genres.map(g => g.name).join(', ')]. *)
Definition join_genres (genres : value) : outcome value :=
  match genres with
  | VArr l =>
      match genre_names l with
      | Throw e => Throw e
      | Ok ns => Ok (VStr (join ", " (map (fun e => match e with
                                                     | VUndef | VNull => ""
                                                     | _ => to_string e
                                                     end) ns)))
      end
  | _ => Throw TypeError
  end.

Section Catalog.

(** The network, and [new Date(d).getFullYear()], which depends on the time
    zone of the browser. *)
Context (net : string -> fetch_result) (getFullYear : value -> value).

Definition details_url (movieId : value) : string :=
  "https://api.themoviedb.org/3/movie/" +:+ to_string movieId +:+ "?language=pt-BR".

Definition credits_url (movieId : value) : string :=
  "https://api.themoviedb.org/3/movie/" +:+ to_string movieId
  +:+ "/credits?language=pt-BR".

(** The duplicate of [API.fetchCompleteMovieData] kept in this file: the
    credits are requested after the details have arrived, and every failure
    inside the [try] block ends in [null] (here [None]). *)
Definition fetchCompleteMovieData (movieId : value) : io (option object) :=
  try_catch
    (response <- fetch net (details_url movieId) ;;
     (if ok response then ret tt else throw (HttpError (status response))) ;;;
     details <- json response ;;
     creditsResponse <- fetch net (credits_url movieId) ;;
     credits <- json creditsResponse ;;
     crew <- lift (get_prop credits "crew") ;;
     director <-
       (if truthy crew then
          found <- lift (crew_find crew) ;;
          name <- (match found with
                   | VUndef | VNull => ret VUndef
                   | _ => lift (get_prop found "name")
                   end) ;;
          ret (or_else name (VStr "Diretor não informado"))
        else ret (VStr "Diretor não informado")) ;;
     id <- lift (get_prop details "id") ;;
     title <- lift (get_prop details "title") ;;
     release_date <- lift (get_prop details "release_date") ;;
     overview <- lift (get_prop details "overview") ;;
     poster_path <- lift (get_prop details "poster_path") ;;
     genres <- lift (get_prop details "genres") ;;
     genres' <- (if truthy genres then lift (join_genres genres) else ret (VStr "")) ;;
     runtime <- lift (get_prop details "runtime") ;;
     vote_average <- lift (get_prop details "vote_average") ;;
     ret (Some
       [("id", id);
        ("title", title);
        ("director", director);
        ("year", if truthy release_date then getFullYear release_date else VNull);
        ("overview", or_else overview (VStr "Sinopse não disponível"));
        ("posterUrl", if truthy poster_path
                      then VStr ("https://image.tmdb.org/t/p/w500" +:+ to_string poster_path)
                      else VNull);
        ("genres", genres');
        ("runtime", runtime);
        ("voteAverage", vote_average)]))
    (fun error =>
       console_error ("Erro ao buscar filme " +:+ to_string movieId +:+ ":") ;;;
       ret None).

(** [Promise.all] over the per-id fetches, each with its own [.catch], then
    the filter [movie !== null]. *)
Definition resetMovies : io (list object) :=
  try_catch
    (moviesArray <-
       promise_all
         (map (fun id =>
                 try_catch (fetchCompleteMovieData id)
                   (fun error =>
                      console_error ("Erro ao buscar filme " +:+ to_string id +:+ ":") ;;;
                      ret None))
            DEFAULT_MOVIE_IDS) ;;
     let successfulMovies := somes moviesArray in
     saveMovies (movies_value successfulMovies) ;;;
     console_log "Filmes iniciais salvos." ;;;
     ret successfulMovies)
    (fun error =>
       console_error "Erro ao buscar filmes padrão:" ;;;
       ret []).

End Catalog.

(** *** CRUD *)

Definition addMovie (movies : list object) (newMovie : object) : list object :=
  movies ++ [newMovie].

Definition updateMovie (movies : list object) (id : value) (updates : object)
  : list object :=
  map (fun movie =>
         if strict_eq (obj_get "id" movie) id then spread movie updates
         else movie) movies.

Definition deleteMovie (movies : list object) (id : value) : list object :=
  List.filter (fun movie => negb (strict_eq (obj_get "id" movie) id)) movies.

Definition movieExists (movies : list object) (tmdbId : value) : bool :=
  existsb (fun movie => strict_eq (obj_get "id" movie) tmdbId) movies.

Definition rateMovie (movies : list object) (id : value) (rating : value)
  : list object :=
  updateMovie movies id [("rating", rating)].

(** *** Listing *)

Definition listMoviesByDirector (movies : list object) (directorName : string)
  : list object :=
  List.filter
    (fun movie => strict_eq (obj_get "director" movie) (VStr directorName))
    movies.

(** [movie.genres && movie.genres.includes(genreName)], as the filter reads
    it: a falsy [genres] rejects the movie before [includes] is called; on a
    string [includes] searches for a substring, on an array for an element,
    and no other value has the method. *)
Definition genre_matches (genreName : string) (movie : object) : outcome bool :=
  let genres := obj_get "genres" movie in
  if truthy genres then
    match genres with
    | VStr s => Ok (includes s genreName)
    | VArr l => Ok (existsb (fun e => strict_eq e (VStr genreName)) l)
    | _ => Throw TypeError
    end
  else Ok false.

Fixpoint listMoviesByGenre (movies : list object) (genreName : string)
  : outcome (list object) :=
  match movies with
  | [] => Ok []
  | movie :: r =>
      match genre_matches genreName movie with
      | Throw e => Throw e
      | Ok keep =>
          match listMoviesByGenre r genreName with
          | Throw e => Throw e
          | Ok l => Ok (if keep then movie :: l else l)
          end
      end
  end.

End Filmoteca.

(** ** api.js: the catalog client *)

Module API.

Definition dq : string := String Json.dquote "".

Definition baseUrl : string := "https://api.themoviedb.org/3".
Definition imageBaseUrl : string := "https://image.tmdb.org/t/p/w500".

Definition extractDirectorFromCredits (credits : value) : outcome value :=
  if negb (truthy credits) then Ok (VStr "Diretor não informado")
  else
    match get_prop credits "crew" with
    | Throw e => Throw e
    | Ok crew =>
        if negb (truthy crew) then Ok (VStr "Diretor não informado")
        else
          match Filmoteca.crew_find crew with
          | Throw e => Throw e
          | Ok director =>
              if truthy director then get_prop director "name"
              else Ok (VStr "Diretor não informado")
          end
    end.

Definition createImageUrl (path : value) : value :=
  if truthy path then VStr (imageBaseUrl +:+ to_string path) else VNull.

Section Catalog.

Context (net : string -> fetch_result) (getFullYear : value -> value).

Definition getMovieDetailsFromTMDB (movieId : value) : io value :=
  try_catch
    (let url := baseUrl +:+ "/movie/" +:+ to_string movieId +:+ "?language=pt-BR" in
     response <- fetch net url ;;
     (if ok response then ret tt else throw (HttpError (status response))) ;;;
     json response)
    (fun error =>
       console_error "Erro ao buscar detalhes do filme:" ;;;
       ret VNull).

Definition getMovieCreditsFromTMDB (movieId : value) : io value :=
  try_catch
    (let url := baseUrl +:+ "/movie/" +:+ to_string movieId
                +:+ "/credits?language=pt-BR" in
     response <- fetch net url ;;
     (if ok response then ret tt else throw (HttpError (status response))) ;;;
     json response)
    (fun error =>
       console_error "Erro ao buscar créditos do filme:" ;;;
       ret VNull).

(** Both requests are started before either is awaited ([Promise.all]);
    [None] stands for [null]. *)
Definition fetchCompleteMovieData (movieId : value) : io (option object) :=
  try_catch
    (both <- promise_all [getMovieDetailsFromTMDB movieId;
                          getMovieCreditsFromTMDB movieId] ;;
     let details := nth 0 both VUndef in
     let credits := nth 1 both VUndef in
     if negb (truthy details) then ret None
     else
       director <- lift (extractDirectorFromCredits credits) ;;
       id <- lift (get_prop details "id") ;;
       title <- lift (get_prop details "title") ;;
       original_title <- lift (get_prop details "original_title") ;;
       release_date <- lift (get_prop details "release_date") ;;
       overview <- lift (get_prop details "overview") ;;
       poster_path <- lift (get_prop details "poster_path") ;;
       backdrop_path <- lift (get_prop details "backdrop_path") ;;
       genres <- lift (get_prop details "genres") ;;
       genres' <- (if truthy genres then lift (Filmoteca.join_genres genres)
                   else ret (VStr "")) ;;
       runtime <- lift (get_prop details "runtime") ;;
       vote_average <- lift (get_prop details "vote_average") ;;
       popularity <- lift (get_prop details "popularity") ;;
       ret (Some
         [("id", id);
          ("title", title);
          ("originalTitle", original_title);
          ("director", director);
          ("year", if truthy release_date then getFullYear release_date else VNull);
          ("overview", or_else overview (VStr "Sinopse não disponível"));
          ("posterPath", poster_path);
          ("backdropPath", backdrop_path);
          ("posterUrl", createImageUrl poster_path);
          ("backdropUrl", createImageUrl backdrop_path);
          ("genres", genres');
          ("runtime", runtime);
          ("voteAverage", vote_average);
          ("popularity", popularity);
          ("tmdbData", details)]))
    (fun error =>
       console_error "Erro ao buscar dados completos do filme:" ;;;
       ret None).

Definition addMovieFromTMDB (movieId : value) (movies : list object)
  : io (list object) :=
  try_catch
    (if Filmoteca.movieExists movies movieId then
       alert "Este filme já está na sua coleção!" ;;;
       ret movies
     else
       movieData <- fetchCompleteMovieData movieId ;;
       match movieData with
       | None =>
           alert "Erro ao obter dados do filme." ;;;
           ret movies
       | Some movieData =>
           let updatedMovies := Filmoteca.addMovie movies movieData in
           Filmoteca.saveMovies (movies_value updatedMovies) ;;;
           alert ("Filme " +:+ dq
    +:+ to_string (obj_get "title" movieData)
    +:+ dq +:+ " adicionado com sucesso!") ;;;
           ret updatedMovies
       end)
    (fun error =>
       alert "Erro ao adicionar filme." ;;;
       console_error "Erro:" ;;;
       ret movies).

End Catalog.

End API.

(** ** ui.js: rendering and the add handler *)

Module UI.

Definition dq : string := API.dq.

(** [Math.floor] of a number. *)
Definition floor (n : number) : Z := (mant n / 10 ^ Z.of_nat (scale n))%Z.

(** [Math.round((rating - ratingFloor) * 100)]; [Math.round] sends a half
    upwards. *)
Definition fill_percentage (n : number) : Z :=
  let p := (10 ^ Z.of_nat (scale n))%Z in
  ((2 * 100 * (mant n mod p) + p) / (2 * p))%Z.

(** [StringToNumber], for the empty string and for the strings that have the
    form of a JSON number; [None] stands for [NaN], which is also the answer
    here for the other forms the platform reads as numbers (surrounding white
    space, a leading [+], a bare point, leading zeros, hexadecimal). *)
Definition string_to_number (s : string) : option number :=
  match s with
  | EmptyString => Some (Num 0 0)
  | _ =>
      match Json.parse_number (list_ascii_of_string s) with
      | Some (n, []) => Some n
      | _ => None
      end
  end.

(** [ToNumber] of the value handed to [createStarsHTML]; an array or an
    object is first turned into a string. *)
Definition to_number (v : value) : option number :=
  match v with
  | VNum n => Some n
  | VBool true => Some (Num 1 0)
  | VBool false | VNull => Some (Num 0 0)
  | VUndef => None
  | VStr s => string_to_number s
  | VArr _ | VObj _ => string_to_number (to_string v)
  end.

(** The three shapes of a star: filled, filled up to a percentage, empty. *)
Definition filled_star (current : Z) : string :=
  "<span class=" +:+ dq +:+ "star filled" +:+ dq +:+ " data-value=" +:+ dq
    +:+ to_string (int current)
    +:+ dq +:+ ">&#9733;</span>".

Definition partial_star (current percentage : Z) : string :=
  "<span class=" +:+ dq +:+ "star" +:+ dq +:+ " data-value=" +:+ dq
    +:+ to_string (int current)
    +:+ dq +:+ " style=" +:+ dq +:+ "background: linear-gradient(to right, #f0c14b "
    +:+ to_string (int percentage)
    +:+ "%, #ccc "
    +:+ to_string (int percentage)
    +:+ "%); -webkit-background-clip: text; background-clip: text; -webkit-text-fill-color: transparent;" +:+ dq +:+ ">&#9733;</span>".

Definition empty_star (current : Z) : string :=
  "<span class=" +:+ dq +:+ "star" +:+ dq +:+ " data-value=" +:+ dq
    +:+ to_string (int current)
    +:+ dq +:+ ">&#9733;</span>".

(** One star of the row. Every comparison with [NaN] is false, which leaves
    the star empty. *)
Definition starHTML (rating : value) (current : Z) : string :=
  match to_number rating with
  | Some n =>
      let ratingFloor := floor n in
      if (current <=? ratingFloor)%Z then filled_star current
      else if (current =? ratingFloor + 1)%Z then
        let percentage := fill_percentage n in
        partial_star current percentage
      else empty_star current
  | None => empty_star current
  end.

(** The recursion of [createStarsHTML] runs while [current <= maxStars];
    [remaining] counts the calls still to come. *)
Fixpoint createStarsHTML_from (rating : value) (maxStars : Z) (remaining : nat)
  : string :=
  match remaining with
  | O => ""
  | S r =>
      starHTML rating (maxStars + 1 - Z.of_nat remaining)
      +:+ createStarsHTML_from rating maxStars r
  end.

Definition createStarsHTML (rating : value) (current maxStars : Z) : string :=
  createStarsHTML_from rating maxStars (Z.to_nat (maxStars + 1 - current)).

(** [Number.prototype.toFixed(1)]: the tenth nearest to the number, the
    larger one on a tie; a magnitude of [1e21] or more prints as
    [ToString] does. *)
Definition toFixed1 (n : number) : string :=
  let p := (10 ^ Z.of_nat (scale n))%Z in
  let a := Z.abs (mant n) in
  if (10 ^ 21 * p <=? a)%Z then number_to_string n
  else
    let t := ((2 * 10 * a + p) / (2 * p))%Z in
    string_of_list_ascii
      ((if (mant n <? 0)%Z then ["-"%char] else [])
       ++ positional (digits_of_N (Z.to_N t)) 1).

(** [v.toFixed(1)] on any value: only a number has the method. *)
Definition toFixed (v : value) : outcome string :=
  match v with
  | VNum n => Ok (toFixed1 n)
  | _ => Throw TypeError
  end.

Definition maxStars : Z := 10.

Definition posterImg (movie : object) : string :=
  if truthy (obj_get "posterUrl" movie) then
    "<img src=" +:+ dq
    +:+ to_string (obj_get "posterUrl" movie)
    +:+ dq +:+ " alt=" +:+ dq +:+ "Poster de "
    +:+ to_string (obj_get "title" movie)
    +:+ dq +:+ " class=" +:+ dq +:+ "movie-poster" +:+ dq +:+ " onerror=" +:+ dq +:+ "this.src='data:image/svg+xml;base64,PHN2ZyB3aWR0aD0iMTAwIiBoZWlnaHQ9IjE1MCIgdmlld0JveD0iMCAwIDEwMCAxNTAiIGZpbGw9Im5vbmUiIHhtbG5zPSJodHRwOi8vd3d3LnczLm9yZy8yMDAwL3N2ZyI+CjxyZWN0IHdpZHRoPSIxMDAiIGhlaWdodD0iMTUwIiBmaWxsPSIjZWVlIi8+Cjx0ZXh0IHg9IjUwIiB5PSI3NSIgZm9udC1mYW1pbHk9IkFyaWFsIiBmb250LXNpemU9IjEyIiBmaWxsPSIjODg4IiB0ZXh0LWFuY2hvcj0ibWlkZGxlIiBkeT0iLjNlbSI+U2VtIGltYWdlbTwvdGV4dD4KPC9zdmc+'; this.style.width='100px'; this.style.height='150px';" +:+ dq +:+ ">"
  else
    "<div class=" +:+ dq +:+ "movie-poster movie-poster-placeholder" +:+ dq +:+ ">
         <span class=" +:+ dq +:+ "material-icons" +:+ dq +:+ " style=" +:+ dq +:+ "font-size: 48px; color: #888;" +:+ dq +:+ ">movie</span>
         <div style=" +:+ dq +:+ "font-size: 12px; color: #888; text-align: center; margin-top: 8px;" +:+ dq +:+ ">Sem imagem</div>
       </div>".

(** [const rating = movie.rating || movie.voteAverage || 0]. *)
Definition rating (movie : object) : value :=
  or_else (or_else (obj_get "rating" movie) (obj_get "voteAverage" movie)) (int 0).

Definition scoreText (movie : object) : outcome string :=
  if truthy (obj_get "rating" movie) then
    Ok (to_string (obj_get "rating" movie) +:+ "/" +:+ to_string (int maxStars))
  else if truthy (obj_get "voteAverage" movie) then
    toFixed (obj_get "voteAverage" movie)
  else Ok "".

Definition genresLine (movie : object) : string :=
  if truthy (obj_get "genres" movie) then
    "<div class=" +:+ dq +:+ "movie-details" +:+ dq +:+ ">Gêneros: "
    +:+ to_string (obj_get "genres" movie)
    +:+ "</div>"
  else "".

Definition runtimeLine (movie : object) : string :=
  if truthy (obj_get "runtime" movie) then
    "<div class=" +:+ dq +:+ "movie-details" +:+ dq +:+ ">Duração: "
    +:+ to_string (obj_get "runtime" movie)
    +:+ " min</div>"
  else "".

(** The score as the page shows it: nothing at all for an empty text. *)
Definition scoreSpan (scoreText : string) : string :=
  if negb (String.eqb scoreText "") then
    "<span>Nota: <strong>"
    +:+ scoreText
    +:+ "</strong></span>"
  else "".

Definition createMovieHTML (movie : object) : outcome string :=
  let rating := rating movie in
  match scoreText movie with
  | Throw e => Throw e
  | Ok scoreText =>
      Ok ("
    <div class=" +:+ dq +:+ "movie-item" +:+ dq +:+ " data-movie-id=" +:+ dq
         +:+ to_string (obj_get "id" movie)
         +:+ dq +:+ ">
      "
         +:+ posterImg movie
         +:+ "
      <div class=" +:+ dq +:+ "movie-info" +:+ dq +:+ ">
        <div class=" +:+ dq +:+ "movie-title" +:+ dq +:+ ">"
         +:+ to_string (obj_get "title" movie)
         +:+ "</div>
        <div class=" +:+ dq +:+ "movie-details" +:+ dq +:+ ">ID: "
         +:+ to_string (obj_get "id" movie)
         +:+ " | Diretor: "
         +:+ to_string (obj_get "director" movie)
         +:+ " | Ano: "
         +:+ to_string (obj_get "year" movie)
         +:+ "</div>
        "
         +:+ genresLine movie
         +:+ "
        "
         +:+ runtimeLine movie
         +:+ "
        <div class=" +:+ dq +:+ "movie-details" +:+ dq +:+ " style=" +:+ dq +:+ "display: flex; align-items: center; gap: 8px;" +:+ dq +:+ ">
          "
         +:+ scoreSpan scoreText
         +:+ "
          <div class=" +:+ dq +:+ "rating" +:+ dq +:+ " data-movie-id=" +:+ dq
         +:+ to_string (obj_get "id" movie)
         +:+ dq +:+ ">
            "
         +:+ createStarsHTML rating 1 maxStars
         +:+ "
          </div>
        </div>
        <div class=" +:+ dq +:+ "movie-overview" +:+ dq +:+ ">"
         +:+ to_string (obj_get "overview" movie)
         +:+ "</div>
      </div>
    </div>
  ")
  end.

(** The state the handlers of this file share: the collection held in the
    variable [movies] and the two regions of the page they write to. *)
Record ui := {
  movies : list object;
  forms : string;
  output : string
}.

Section Handlers.

Context (net : string -> fetch_result) (getFullYear : value -> value).

Definition addMovieFromTMDB (movieId : value) (u : ui) : io ui :=
  try_catch
    (if Filmoteca.movieExists (movies u) movieId then
       alert "Este filme já está na sua coleção!" ;;;
       ret u
     else
       movieData <- API.fetchCompleteMovieData net getFullYear movieId ;;
       match movieData with
       | None =>
           alert "Erro ao obter dados do filme." ;;;
           ret u
       | Some movieData =>
           let movies' := Filmoteca.addMovie (movies u) movieData in
           Filmoteca.saveMovies (movies_value movies') ;;;
           ret {| movies := movies';
                  forms := "";
                  output := "Filme " +:+ dq
    +:+ to_string (obj_get "title" movieData)
    +:+ dq +:+ " adicionado com sucesso!" |}
       end)
    (fun error =>
       alert "Erro ao adicionar filme." ;;;
       console_error "Erro:" ;;;
       ret u).

End Handlers.

End UI.

(** ** Vocabulary of the statements *)

(** The id of [m] is the given one, as [===] compares them. *)
Definition has_id (id : value) (m : object) : bool :=
  strict_eq (obj_get "id" m) id.

(** [p] occurs in [s]. *)
Definition is_substring (p s : string) : Prop :=
  exists a b, s = a +:+ p +:+ b.

Definition director_is (name : string) (m : object) : bool :=
  strict_eq (obj_get "director" m) (VStr name).

(** [genres] is a non-empty string in which the name occurs. *)
Definition genre_selected (name : string) (m : object) : bool :=
  match obj_get "genres" m with
  | VStr s => negb (String.eqb s "") && includes s name
  | _ => false
  end.

(** [genres] is a string, or a falsy value. *)
Definition genres_typed (m : object) : bool :=
  match obj_get "genres" m with
  | VStr _ => true
  | v => negb (truthy v)
  end.

Definition empty_world : world :=
  {| storage := ∅; requests := []; console := []; alerts := [] |}.

(** What the bootstrap obtains for one id: the record, or nothing when the
    fetch of that id has failed. *)
Definition fetched (net : string -> fetch_result) (getFullYear : value -> value)
    (id : value) : option object :=
  match fst (Filmoteca.fetchCompleteMovieData net getFullYear id empty_world) with
  | Ok r => r
  | Throw _ => None
  end.

Definition succeeded net getFullYear (id : value) : bool :=
  match fetched net getFullYear id with Some _ => true | None => false end.

(** [m] resolves to [a] in every world, and leaves the storage and the
    alerts as they were. *)
Definition settles {A} (m : io A) (a : A) : Prop :=
  forall w, exists w',
    m w = (Ok a, w') /\ storage w' = storage w /\ alerts w' = alerts w.

(** The outcome of [m] does not depend on the world it starts in, and [m]
    leaves the storage and the alerts as they were. *)
Definition steady {A} (m : io A) : Prop :=
  (forall w1 w2, fst (m w1) = fst (m w2)) /\
  (forall w, storage (snd (m w)) = storage w /\ alerts (snd (m w)) = alerts w).

(** [m] leaves the list of requests as it was. *)
Definition silent {A} (m : io A) : Prop :=
  forall w, requests (snd (m w)) = requests w.

(** The year of an ISO date, [YYYY-MM-DD], as a browser whose clock is on
    UTC computes it; used where a concrete [getFullYear] is needed. *)
Definition year_of_iso_date (d : value) : value :=
  match Json.parse_number (firstn 4 (list_ascii_of_string (to_string d))) with
  | Some (n, []) => VNum n
  | _ => VNull
  end.

(** What the details request and the credits request of an id deliver to
    [API.fetchCompleteMovieData]: the decoded body, or [null] when the
    request fails in transport, by its status, or in decoding. *)
Definition payload (net : string -> fetch_result) (url : string) : value :=
  match net url with
  | Rejected => VNull
  | Responded r =>
      if ok r then
        match Json.parse (body r) with
        | Ok v => v
        | Throw _ => VNull
        end
      else VNull
  end.

Definition request_failed (net : string -> fetch_result) (url : string) : Prop :=
  net url = Rejected \/
  exists r, net url = Responded r /\
            (ok r = false \/ exists e, Json.parse (body r) = Throw e).

Definition api_details_url (id : value) : string :=
  API.baseUrl +:+ "/movie/" +:+ to_string id +:+ "?language=pt-BR".

Definition api_credits_url (id : value) : string :=
  API.baseUrl +:+ "/movie/" +:+ to_string id +:+ "/credits?language=pt-BR".

(** A network on which the details of movie 680 arrive and its credits
    request fails in transport. *)
Definition net_credits_down (url : string) : fetch_result :=
  if String.eqb url (Filmoteca.credits_url (int 680)) then Rejected
  else Responded {| ok := true; status := 200;
                    body := to_string (Json.stringify
                              (VObj [("id", int 680);
                                     ("title", VStr "Pulp Fiction")])) |}.

(** A network on which every details request fails in transport. *)
Definition net_down (url : string) : fetch_result := Rejected.

(** The [genres] of a details payload is an array without [null] entries,
    or a falsy value: the shape the catalog documents. *)
Definition genres_shaped (d : object) : bool :=
  match obj_get "genres" d with
  | VArr l => forallb (fun g => match g with
                                | VUndef | VNull => false
                                | _ => true
                                end) l
  | v => negb (truthy v)
  end.

(** The payloads as the catalog documents them: the [genres] of the details
    and the [crew] of the credits are arrays without [null] entries, or
    falsy. *)
Definition non_null (v : value) : bool :=
  match v with
  | VUndef | VNull => false
  | _ => true
  end.

Definition details_shaped (details : value) : bool :=
  match details with
  | VObj d => genres_shaped d
  | _ => true
  end.

Definition credits_shaped (credits : value) : bool :=
  if truthy credits then
    match get_prop credits "crew" with
    | Ok (VArr l) => forallb non_null l
    | Ok v => negb (truthy v)
    | Throw _ => false
    end
  else true.

(** *** Well-formed stored values *)

Import Json.

(** What may follow a value inside a JSON text: the end, a comma or a
    closing bracket. *)
Definition delimited (rest : list ascii) : bool :=
  match rest with
  | [] => true
  | c :: _ => Ascii.eqb c "," || Ascii.eqb c "]" || Ascii.eqb c "}"
  end.

(** A number in canonical form whose magnitude the platform prints in
    positional notation (zero, or from [1e-6] up to [1e21]). *)
Definition number_safe (n : number) : bool :=
  let n' := normalize (mant n) (scale n) in
  let p := (Z.of_nat (length (digits_of_N (Z.abs_N (mant n)))) - Z.of_nat (scale n))%Z in
  (mant n' =? mant n)%Z && (scale n' =? scale n)%nat &&
  ((mant n =? 0)%Z || ((-6 <? p)%Z && (p <=? 21)%Z)).

Definition no_digit_head (rest : list ascii) : bool :=
  match rest with
  | [] => true
  | c :: _ => negb (is_digit c)
  end.

(** A property name that is not an array index; the platform enumerates
    index-like names first, whatever their insertion order. *)
Definition plain_key (k : string) : bool :=
  match k with
  | String c _ => negb (is_digit c)
  | EmptyString => true
  end.

Fixpoint distinct (ks : list string) : bool :=
  match ks with
  | [] => true
  | k :: r => negb (existsb (String.eqb k) r) && distinct r
  end.

(** The object has a property of that name. *)
Definition has_key (k : string) (o : object) : bool :=
  existsb (String.eqb k) (map fst o).

(** A well-formed value of the storage: no [undefined], safe numbers, and
    objects with distinct, plain property names. *)
Fixpoint json_safe (v : value) : bool :=
  match v with
  | VUndef => false
  | VNull | VBool _ | VStr _ => true
  | VNum n => number_safe n
  | VArr l => forallb json_safe l
  | VObj o =>
      distinct (map fst o) &&
      forallb (fun kv => plain_key (fst kv) && json_safe (snd kv)) o
  end.

Fixpoint size (v : value) : nat :=
  match v with
  | VArr l => S (list_sum (map size l))
  | VObj o => S (list_sum (map (fun kv => size (snd kv)) o))
  | _ => 1
  end.

(** The first character of a serialized value. *)
Definition value_start (c : ascii) : bool :=
  negb (is_ws c) && negb (Ascii.eqb c "]") && negb (Ascii.eqb c "}")
  && negb (Ascii.eqb c ",") && negb (Ascii.eqb c ":").

Definition number_start (c : ascii) : bool := Ascii.eqb c "-" || is_digit c.

Definition parses (pv : list ascii -> option (value * list ascii)) (v : value) : Prop :=
  forall rest, delimited rest = true -> pv (ser v ++ rest) = Some (v, rest).

Definition member_chars (kv : string * value) : list ascii :=
  quote (fst kv) ++ ":"%char :: ser (snd kv).

(** A stored collection of two movies, and a storage whose value under the
    key of the collection is not JSON. *)
Definition two_movies : list object :=
  [[("id", int 680); ("title", VStr "Pulp Fiction");
    ("director", VStr "Quentin Tarantino"); ("year", int 1994);
    ("overview", VStr "Sinopse não disponível"); ("posterUrl", VNull);
    ("genres", VStr "Thriller, Crime"); ("runtime", int 154);
    ("voteAverage", VNum (Num 8488 3)); ("rating", int 9)];
   [("id", int 13); ("title", VStr "Forrest Gump");
    ("director", VStr "Robert Zemeckis"); ("year", int 1994);
    ("genres", VStr ""); ("voteAverage", VNum (Num 85 1))]].

Definition corrupt_world : world :=
  {| storage := {[ Filmoteca.STORAGE_KEY := "{" ]};
     requests := []; console := []; alerts := [] |}.

(** A network on which the catalog answers every request of the bootstrap
    except the details of the movies 121 and 497, which fail in transport. *)
Definition sample_details (id : value) : value :=
  VObj [("id", id); ("title", VStr ("Movie " +:+ to_string id));
        ("release_date", VStr "1994-09-10");
        ("genres", VArr [VObj [("id", int 18); ("name", VStr "Drama")];
                         VObj [("id", int 80); ("name", VStr "Crime")]]);
        ("runtime", int 154); ("vote_average", VNum (Num 84 1))].

Definition sample_credits : value :=
  VObj [("crew", VArr [VObj [("job", VStr "Producer"); ("name", VStr "A. Producer")];
                       VObj [("job", VStr "Director"); ("name", VStr "A. Director")]])].

Definition sample_net (url : string) : fetch_result :=
  if String.eqb url (Filmoteca.details_url (int 121))
     || String.eqb url (Filmoteca.details_url (int 497)) then Rejected
  else
    match List.find (fun id => String.eqb url (Filmoteca.details_url id))
            Filmoteca.DEFAULT_MOVIE_IDS with
    | Some id =>
        Responded {| ok := true; status := 200;
                     body := to_string (Json.stringify (sample_details id)) |}
    | None =>
        Responded {| ok := true; status := 200;
                     body := to_string (Json.stringify sample_credits) |}
    end.

(** ** api.js: the search *)

Module Search.

Section Catalog.

(** The network, and [encodeURIComponent], which the platform provides. *)
Context (net : string -> fetch_result) (encodeURIComponent : string -> string).

Definition searchMoviesInTMDB (query : string) : io value :=
  try_catch
    (let url := API.baseUrl +:+ "/search/movie?query=" +:+ encodeURIComponent query
                +:+ "&language=pt-BR" in
     response <- fetch net url ;;
     (if ok response then ret tt else throw (HttpError (status response))) ;;;
     data <- json response ;;
     results <- lift (get_prop data "results") ;;
     ret (or_else results (VArr [])))
    (fun error =>
       console_error "Erro ao buscar filmes na TMDB:" ;;;
       ret (VArr [])).

End Catalog.

End Search.

(** ** ui.js: the page and its handlers *)

Module Page.

Definition dq : string := API.dq.

(** What an element of the page holds: a text, written through
    [textContent], or markup, written through [innerHTML]. *)
Inductive content :=
  | Text (s : string)
  | Markup (s : string).

(** The variable [movies] and the elements [#forms] and [#output]. *)
Record page := {
  movies : list object;
  forms : content;
  output : content;
  outputDisplay : string
}.

(** [moviesList.map(createMovieHTML)]: the first record that cannot be
    rendered ends the rendering. *)
Fixpoint movies_html (moviesList : list object) : outcome (list string) :=
  match moviesList with
  | [] => Ok []
  | movie :: r =>
      match UI.createMovieHTML movie with
      | Throw e => Throw e
      | Ok h =>
          match movies_html r with
          | Throw e => Throw e
          | Ok hs => Ok (h :: hs)
          end
      end
  end.

(** The page after the handler, and how the handler ended: a handler that
    raises keeps what it had written before. *)
Definition handled : Type := page * outcome unit.

Definition displayMoviesWithImages (moviesList : list object) (p : page) : handled :=
  if (length moviesList =? 0)%nat then
    ({| movies := movies p; forms := forms p;
        output := Markup "<p>Nenhum filme encontrado.</p>";
        outputDisplay := "block" |}, Ok tt)
  else
    match movies_html moviesList with
    | Throw e => (p, Throw e)
    | Ok htmls =>
        let moviesHTML := join "" htmls in
        ({| movies := movies p; forms := forms p;
            output := Markup ("<div style=" +:+ dq +:+ "white-space: normal;" +:+ dq +:+ ">"
         +:+ moviesHTML
         +:+ "</div>");
            outputDisplay := "block" |}, Ok tt)
    end.

(** The first statements of the module: the collection is loaded and saved
    straight back. *)
Definition startup : io value :=
  movies <- Filmoteca.loadMovies ;;
  Filmoteca.saveMovies movies ;;;
  ret movies.

Section Handlers.

(** The network and the functions of the platform the handlers call:
    [new Date(d).getFullYear()], [encodeURIComponent] and [Number] on the
    string of a form field or of a [data-] attribute. *)
Context (net : string -> fetch_result) (getFullYear : value -> value)
        (encodeURIComponent : string -> string) (Number : string -> value).

(** One entry of the search results. *)
Definition resultHTML (movie : value) : outcome string :=
  match get_prop movie "id" with
  | Throw e => Throw e
  | Ok id =>
      match get_prop movie "title", get_prop movie "release_date",
            get_prop movie "overview" with
      | Ok title, Ok release_date, Ok overview =>
          let year := if truthy release_date then getFullYear release_date
                      else VStr "Ano não informado" in
          let overview := or_else overview (VStr "Sinopse não disponível") in
          Ok ("
        <div style=" +:+ dq +:+ "border: 1px solid #ccc; margin: 5px; padding: 10px; cursor: pointer;" +:+ dq +:+ " 
             onclick=" +:+ dq +:+ "window.addMovieFromTMDB("
       +:+ to_string id
       +:+ ")" +:+ dq +:+ ">
          <strong>"
       +:+ to_string title
       +:+ "</strong> ("
       +:+ to_string year
       +:+ ")
          <br><small>"
       +:+ to_string overview
       +:+ "</small>
        </div>
      ")
      | _, _, _ => Throw TypeError
      end
  end.

Fixpoint results_html (results : list value) : outcome (list string) :=
  match results with
  | [] => Ok []
  | movie :: r =>
      match resultHTML movie with
      | Throw e => Throw e
      | Ok h =>
          match results_html r with
          | Throw e => Throw e
          | Ok hs => Ok (h :: hs)
          end
      end
  end.

(** What the [try] block of the search form makes of the results: the
    markup of [#searchResults], or the error it raises.  Only an array has
    [slice] and [map]; an object may still have a [length]. *)
Definition resultsMarkup (results : value) : outcome string :=
  match results with
  | VUndef | VNull => Throw TypeError
  | VArr l =>
      if (length l =? 0)%nat then Ok "<p>Nenhum filme encontrado.</p>"
      else
        match results_html (firstn 10 l) with
        | Throw e => Throw e
        | Ok htmls =>
            let resultsHTML := join "" htmls in
            Ok ("
        <h4>Resultados encontrados (clique para adicionar):</h4>
        "
         +:+ resultsHTML
         +:+ "
      ")
        end
  | VObj o =>
      if strict_eq (obj_get "length" o) (int 0)
      then Ok "<p>Nenhum filme encontrado.</p>"
      else Throw TypeError
  | _ => Throw TypeError
  end.

(** The submit handler of the search form; the result is the markup
    [#searchResults] is left with. *)
Definition searchSubmit (query : string) : io string :=
  try_catch
    (results <- Search.searchMoviesInTMDB net encodeURIComponent query ;;
     lift (resultsMarkup results))
    (fun error =>
       console_error "Erro na busca:" ;;;
       ret "<p>Erro ao buscar filmes. Tente novamente.</p>").

(** The patch the update form builds: a field left blank adds nothing. *)
Definition form_updates (title director year overview : string) : object :=
  let updates := [] in
  let updates := if negb (String.eqb title "")
                 then obj_set "title" (VStr title) updates else updates in
  let updates := if negb (String.eqb director "")
                 then obj_set "director" (VStr director) updates else updates in
  let updates := if negb (String.eqb year "")
                 then obj_set "year" (Number year) updates else updates in
  let updates := if negb (String.eqb overview "")
                 then obj_set "overview" (VStr overview) updates else updates in
  updates.

(** The submit handler of the update form. *)
Definition updateSubmit (updateId title director year overview : string)
    (p : page) : io page :=
  let id := Number updateId in
  let updates := form_updates title director year overview in
  let movies' := Filmoteca.updateMovie (movies p) id updates in
  Filmoteca.saveMovies (movies_value movies') ;;;
  ret {| movies := movies'; forms := Markup "";
         output := Text "Filme atualizado!";
         outputDisplay := outputDisplay p |}.

(** The submit handler of the delete form. *)
Definition deleteSubmit (deleteId : string) (p : page) : io page :=
  let id := Number deleteId in
  let movies' := Filmoteca.deleteMovie (movies p) id in
  Filmoteca.saveMovies (movies_value movies') ;;;
  ret {| movies := movies'; forms := Markup "";
         output := Text "Filme removido!";
         outputDisplay := outputDisplay p |}.



(** The actions of the menu. *)
Definition init (p : page) : io handled :=
  movies' <- Filmoteca.resetMovies net getFullYear ;;
  ret (displayMoviesWithImages movies'
         {| movies := movies';
            forms := Markup "";
            output := Text "🎬 Cine Map iniciado com lista de filmes padrão!";
            outputDisplay := outputDisplay p |}).

Definition list (p : page) : handled :=
  displayMoviesWithImages (movies p)
    {| movies := movies p; forms := Markup "";
       output := output p; outputDisplay := outputDisplay p |}.

Definition clear (p : page) : io page :=
  Filmoteca.clearMovies ;;;
  ret {| movies := []; forms := Markup "";
         output := Text "Cine Map esvaziado.";
         outputDisplay := outputDisplay p |}.


(** The click on a star: the attributes [data-value] of the star and
    [data-movie-id] of the row it stands in are read as numbers. *)
Definition starClick (dataValue dataMovieId : string) (p : page) : io handled :=
  let rating := Number dataValue in
  let movieId := Number dataMovieId in
  let movies' := Filmoteca.rateMovie (movies p) movieId rating in
  Filmoteca.saveMovies (movies_value movies') ;;;
  ret (displayMoviesWithImages movies'
         {| movies := movies'; forms := forms p;
            output := output p; outputDisplay := outputDisplay p |}).

End Handlers.

End Page.

(** ** Vocabulary of the further properties *)

(** A value that [===] compares by what it is: not an array, not an object. *)
Definition primitive (v : value) : bool :=
  match v with
  | VArr _ | VObj _ => false
  | _ => true
  end.

(** No two values of the list are [===]. *)
Fixpoint distinct_ids (ids : list value) : bool :=
  match ids with
  | [] => true
  | id :: r => negb (existsb (fun x => strict_eq x id) r) && distinct_ids r
  end.

(** No two movies of the collection share an id. *)
Definition unique_ids (L : list object) : bool :=
  distinct_ids (map (obj_get "id") L).

(** The address [searchMoviesInTMDB] requests. *)
Definition search_url (encodeURIComponent : string -> string) (query : string) : string :=
  API.baseUrl +:+ "/search/movie?query=" +:+ encodeURIComponent query
  +:+ "&language=pt-BR".

(** [data.results || []], and [[]] when [data] has no properties to read. *)
Definition search_result (data : value) : value :=
  match get_prop data "results" with
  | Ok results => or_else results (VArr [])
  | Throw _ => VArr []
  end.

(** A member of the crew that [find] passes over. *)
Definition not_director (person : value) : bool :=
  match get_prop person "job" with
  | Ok job => negb (strict_eq job (VStr "Director"))
  | Throw _ => false
  end.

(** The world after [alert msg]. *)
Definition alerted (msg : string) (w : world) : world := snd (alert msg w).

(** The world after [Filmoteca.saveMovies] of a collection. *)
Definition saved (L : list object) (w : world) : world :=
  snd (Filmoteca.saveMovies (movies_value L) w).

(** The storage holds the collection [L] as [saveMovies] writes it. *)
Definition in_sync (L : list object) (w : world) : Prop :=
  storage w !! Filmoteca.STORAGE_KEY
  = Some (to_string (Json.stringify (movies_value L))).

(** What is reported once a movie has been added. *)
Definition added_message (movieData : object) : string :=
  "Filme " +:+ API.dq +:+ to_string (obj_get "title" movieData)
  +:+ API.dq +:+ " adicionado com sucesso!".

(** [m] raises [e] in every world, and leaves the storage and the alerts as
    they were. *)
Definition raises {A} (m : io A) (e : error) : Prop :=
  forall w, exists w',
    m w = (Throw e, w') /\ storage w' = storage w /\ alerts w' = alerts w.

(** The world after a request to [url] has been sent. *)
Definition requested (url : string) (w : world) : world :=
  {| storage := storage w; requests := requests w ++ [url];
     console := console w; alerts := alerts w |}.

(** The fields that both copies of [fetchCompleteMovieData] write. *)
Definition common_fields : list string :=
  ["id"; "title"; "director"; "year"; "overview"; "posterUrl"; "genres";
   "runtime"; "voteAverage"].

(** A record that [createMovieHTML] can render: it has a user rating, or no
    vote average to speak of, or a vote average that is a number. *)
Definition renders (movie : object) : bool :=
  truthy (obj_get "rating" movie)
  || negb (truthy (obj_get "voteAverage" movie))
  || match obj_get "voteAverage" movie with VNum _ => true | _ => false end.

(** The page with [output.innerHTML] set and the element shown. *)
Definition shown (html : string) (p : Page.page) : Page.page :=
  {| Page.movies := Page.movies p; Page.forms := Page.forms p;
     Page.output := Page.Markup html; Page.outputDisplay := "block" |}.

(** The markup of [#searchResults] around the entries found. *)
Definition results_markup (htmls : list string) : string :=
  "
        <h4>Resultados encontrados (clique para adicionar):</h4>
        " +:+ join "" htmls +:+ "
      ".

(** The collection [L] is what a reload of the page would find: the storage
    holds it as [saveMovies] writes it, or holds nothing and [L] is empty. *)
Definition persisted (L : list object) (w : world) : Prop :=
  in_sync L w \/ (L = [] /\ storage w !! Filmoteca.STORAGE_KEY = None).

(** [Number] on the strings that denote a finite decimal, for where a
    concrete [Number] is needed.  On the other strings the platform answers
    [NaN], which the model of numbers does not have; [undefined] is the
    answer here. *)
Definition decimal_of_string (s : string) : value :=
  match UI.string_to_number s with
  | Some n => VNum n
  | None => VUndef
  end.

(** The fields the update form can write. *)
Definition form_fields : list string := ["title"; "director"; "year"; "overview"].

(** The page after a form has been submitted: the form is gone. *)
Definition submitted (p : Page.page) : Page.page :=
  {| Page.movies := Page.movies p; Page.forms := Page.Markup "";
     Page.output := Page.output p; Page.outputDisplay := Page.outputDisplay p |}.

(** The page with [output.textContent] set. *)
Definition told (text : string) (p : Page.page) : Page.page :=
  {| Page.movies := Page.movies p; Page.forms := Page.forms p;
     Page.output := Page.Text text; Page.outputDisplay := Page.outputDisplay p |}.

(** The page with another collection in the variable [movies]. *)
Definition holding (L : list object) (p : Page.page) : Page.page :=
  {| Page.movies := L; Page.forms := Page.forms p;
     Page.output := Page.output p; Page.outputDisplay := Page.outputDisplay p |}.

(** Whatever [m] resolves to satisfies [P]. *)
Definition ensures {A} (m : io A) (P : A -> Prop) : Prop :=
  forall w a w', m w = (Ok a, w') -> P a.

(** The fields of a record of the copy in [api.js]. *)
Definition api_fields : list string :=
  ["id"; "title"; "originalTitle"; "director"; "year"; "overview"; "posterPath";
   "backdropPath"; "posterUrl"; "backdropUrl"; "genres"; "runtime"; "voteAverage";
   "popularity"; "tmdbData"].

(** A string. *)
Definition is_string (v : value) : bool :=
  match v with VStr _ => true | _ => false end.

(** [null], or the address of an image of the catalog. *)
Definition image_url_or_null (v : value) : bool :=
  match v with
  | VNull => true
  | VStr s => starts_with s API.imageBaseUrl
  | _ => false
  end.

(** What both copies of [fetchCompleteMovieData] guarantee of a record. *)
Definition catalog_record (fields : list string) (movie : object) : Prop :=
  map fst movie = fields /\
  is_string (obj_get "genres" movie) = true /\
  truthy (obj_get "overview" movie) = true /\
  image_url_or_null (obj_get "posterUrl" movie) = true.

(** * Properties *)

(** ** Objects *)

Lemma obj_get_set_eq k v o : obj_get k (obj_set k v o) = v.
Proof.
  induction o as [|[k' v'] o IH]; simpl.
  - by rewrite String.eqb_refl.
  - destruct (String.eqb k k') eqn:E; simpl; rewrite ?String.eqb_refl, ?E; done.
Qed.

Lemma obj_get_set_ne k k' v o : k <> k' -> obj_get k' (obj_set k v o) = obj_get k' o.
Proof.
  intros Hne. induction o as [|[k0 v0] o IH]; simpl.
  - apply not_eq_sym, String.eqb_neq in Hne. by rewrite Hne.
  - destruct (String.eqb k k0) eqn:E; simpl.
    + apply String.eqb_eq in E. subst k0.
      apply not_eq_sym, String.eqb_neq in Hne. by rewrite Hne.
    + by rewrite IH.
Qed.

Lemma obj_set_twice k v o : obj_set k v (obj_set k v o) = obj_set k v o.
Proof.
  induction o as [|[k' v'] o IH]; simpl.
  - by rewrite String.eqb_refl.
  - destruct (String.eqb k k') eqn:E; simpl; rewrite ?String.eqb_refl, ?E, ?IH; done.
Qed.

(** Writing a property keeps the names of the others, in their order; a new
    name goes to the end. *)
Lemma obj_set_keys k v o :
  map fst (obj_set k v o) =
  if existsb (String.eqb k) (map fst o) then map fst o else map fst o ++ [k].
Proof.
  induction o as [|[k' v'] o IH]; simpl; [done|].
  destruct (String.eqb k k') eqn:E; simpl.
  - apply String.eqb_eq in E. by subst.
  - rewrite IH. by destruct (existsb _ _).
Qed.

(** The overlay [{ ...m, ...patch }] read property by property: the value of
    the patch where the patch has the property, the value of [m] elsewhere. *)
Lemma spread_get (m patch : object) (k : string) :
  distinct (map fst patch) = true ->
  obj_get k (spread m patch) =
  if has_key k patch then obj_get k patch else obj_get k m.
Proof.
  unfold spread, has_key. revert m.
  induction patch as [|[k0 v0] patch IH]; intros m Hd; [done|].
  simpl in Hd. apply andb_true_iff in Hd as [Hk0 Hd]. apply negb_true_iff in Hk0.
  simpl. rewrite (IH _ Hd).
  destruct (String.eqb_spec k k0) as [->|Hne]; simpl.
  - by rewrite Hk0, obj_get_set_eq.
  - destruct (existsb _ _); [done|]. apply obj_get_set_ne. congruence.
Qed.

(** ** The collection engine *)

Section Engine.

Import Filmoteca.

Implicit Types (L : list object) (id r : value) (m patch : object).

Lemma movieExists_false L id :
  movieExists L id = false <-> forall m, In m L -> has_id id m = false.
Proof.
  unfold movieExists, has_id. induction L as [|m L IH]; simpl.
  - split; [intros _ ? []|done].
  - rewrite orb_false_iff, IH. split.
    + intros [H1 H2] x [<-|Hx]; auto.
    + intros H. split; [apply H; auto|]. intros x Hx. apply H. auto.
Qed.

Lemma movieExists_true L id :
  movieExists L id = true <-> exists m, In m L /\ has_id id m = true.
Proof. unfold movieExists, has_id. apply existsb_exists. Qed.

Lemma updateMovie_lookup L id patch (i : nat) m :
  L !! i = Some m ->
  updateMovie L id patch !! i =
  Some (if has_id id m then spread m patch else m).
Proof. intros H. unfold updateMovie. by rewrite list_lookup_fmap, H. Qed.

Lemma filter_sublist {A} (f : A -> bool) (l : list A) : sublist (List.filter f l) l.
Proof.
  induction l as [|a l IH]; simpl; [constructor|].
  destruct (f a); by constructor.
Qed.

Lemma filter_all {A} (f : A -> bool) (l : list A) :
  (forall a, In a l -> f a = true) -> List.filter f l = l.
Proof.
  induction l as [|a l IH]; simpl; [done|]. intros H.
  rewrite H; [|auto]. f_equal. apply IH. auto.
Qed.

(** C6. An update or a delete with an id that no element of the list has
    changes nothing: both return the list they were given. *)
Theorem update_delete_unknown_id L id patch :
  movieExists L id = false ->
  updateMovie L id patch = L /\ deleteMovie L id = L.
Proof.
  intros H0. pose proof (proj1 (movieExists_false L id) H0) as H. split.
  - unfold updateMovie. rewrite <- (map_id L) at 2.
    apply map_ext_in. intros m Hm. apply H in Hm. unfold has_id in Hm.
    by rewrite Hm.
  - unfold deleteMovie. apply filter_all. intros m Hm.
    apply H in Hm. unfold has_id in Hm. by rewrite Hm.
Qed.

Lemma update_delete_unknown_id_witness :
  let L := [[("id", int 680); ("title", VStr "Pulp Fiction")];
            [("id", int 13); ("title", VStr "Forrest Gump")]] in
  movieExists L (int 155) = false /\
  updateMovie L (int 155) [("title", VStr "x")] = L /\
  deleteMovie L (int 155) = L.
Proof.
  intros L. split; [reflexivity|].
  apply (update_delete_unknown_id L (int 155) [("title", VStr "x")]).
  reflexivity.
Defined.

(** C10. [updateMovie] patches every element whose id matches, however many
    there are, and hands back every other element as it was; [deleteMovie]
    drops every element whose id matches and keeps the others in order. *)
Theorem update_delete_every_match L id patch :
  length (updateMovie L id patch) = length L /\
  (forall (i : nat) m, L !! i = Some m ->
     (has_id id m = true -> updateMovie L id patch !! i = Some (spread m patch)) /\
     (has_id id m = false -> updateMovie L id patch !! i = Some m)) /\
  (distinct (map fst patch) = true ->
   forall m k, obj_get k (spread m patch) =
               if has_key k patch then obj_get k patch else obj_get k m) /\
  deleteMovie L id = List.filter (fun m => negb (has_id id m)) L /\
  sublist (deleteMovie L id) L /\
  (forall m, In m (deleteMovie L id) <-> In m L /\ has_id id m = false) /\
  movieExists (deleteMovie L id) id = false.
Proof.
  split; [apply length_map|]. split.
  { intros i m Hi. rewrite (updateMovie_lookup _ _ _ _ _ Hi).
    split; intros ->; done. }
  split; [intros Hd m k; by apply spread_get|].
  split; [done|]. split; [apply filter_sublist|].
  assert (Hin : forall m, In m (deleteMovie L id) <-> In m L /\ has_id id m = false).
  { intros m. unfold deleteMovie. rewrite filter_In. unfold has_id.
    by rewrite negb_true_iff. }
  split; [exact Hin|].
  apply movieExists_false. intros m Hm. by apply Hin in Hm as [_ ?].
Qed.

Lemma update_delete_every_match_witness :
  let L := [[("id", int 1); ("title", VStr "a")];
            [("id", int 2); ("title", VStr "b")];
            [("id", int 1); ("title", VStr "c")]] in
  let patch := [("title", VStr "z"); ("year", int 1999)] in
  L !! 2%nat = Some [("id", int 1); ("title", VStr "c")] /\
  has_id (int 1) [("id", int 1); ("title", VStr "c")] = true /\
  distinct (map fst patch) = true /\
  updateMovie L (int 1) patch !! 2%nat
    = Some [("id", int 1); ("title", VStr "z"); ("year", int 1999)] /\
  obj_get "title" (spread [("id", int 1); ("title", VStr "c")] patch) = VStr "z".
Proof.
  intros L patch.
  destruct (update_delete_every_match L (int 1) patch) as (_ & H & Hs & _).
  split; [reflexivity|]. split; [reflexivity|]. split; [reflexivity|]. split.
  - destruct (H 2%nat [("id", int 1); ("title", VStr "c")] eq_refl) as [H1 _].
    exact (H1 eq_refl).
  - rewrite (Hs eq_refl). reflexivity.
Defined.

(** Two elements that share an id are both patched, and both deleted. *)
Example update_patches_duplicates :
  updateMovie [[("id", int 1); ("title", VStr "a")];
               [("id", int 2); ("title", VStr "b")];
               [("id", int 1); ("title", VStr "c")]] (int 1) [("year", int 1999)]
  = [[("id", int 1); ("title", VStr "a"); ("year", int 1999)];
     [("id", int 2); ("title", VStr "b")];
     [("id", int 1); ("title", VStr "c"); ("year", int 1999)]]
  /\ deleteMovie [[("id", int 1); ("title", VStr "a")];
                  [("id", int 2); ("title", VStr "b")];
                  [("id", int 1); ("title", VStr "c")]] (int 1)
     = [[("id", int 2); ("title", VStr "b")]].
Proof. split; reflexivity. Qed.

Lemma has_id_rated id r m : has_id id (spread m [("rating", r)]) = has_id id m.
Proof. unfold has_id, spread. simpl. by rewrite obj_get_set_ne. Qed.

(** C7. [rateMovie] is [updateMovie] with the patch [{ rating }].  In the
    element whose id matches, the rating becomes the given one and every
    other property keeps its value and its place; every other element is
    returned as it was; rating a second time with the same value changes
    nothing more. *)
Theorem rate_changes_rating_only L id r :
  rateMovie L id r = updateMovie L id [("rating", r)] /\
  length (rateMovie L id r) = length L /\
  (forall (i : nat) m, L !! i = Some m ->
     exists m', rateMovie L id r !! i = Some m' /\
       if has_id id m then
         obj_get "rating" m' = r /\
         (forall k, k <> "rating" -> obj_get k m' = obj_get k m) /\
         (map fst m' = map fst m \/ map fst m' = map fst m ++ ["rating"])
       else m' = m) /\
  rateMovie (rateMovie L id r) id r = rateMovie L id r.
Proof.
  split; [done|]. split; [apply length_map|]. split.
  - intros i m Hi. unfold rateMovie. rewrite (updateMovie_lookup _ _ _ _ _ Hi).
    fold (has_id id m). eexists. split; [done|].
    destruct (has_id id m); [|done]. unfold spread. simpl.
    split; [apply obj_get_set_eq|]. split.
    + intros k Hk. apply obj_get_set_ne. congruence.
    + rewrite obj_set_keys. destruct (existsb _ _); auto.
  - unfold rateMovie, updateMovie. rewrite map_map. apply map_ext. intros m.
    fold (has_id id m). destruct (has_id id m) eqn:E.
    + fold (has_id id (spread m [("rating", r)])). rewrite has_id_rated, E.
      unfold spread. simpl. apply obj_set_twice.
    + fold (has_id id m). by rewrite E.
Qed.

Lemma rate_changes_rating_only_witness :
  let L := [[("id", int 680); ("title", VStr "Pulp Fiction"); ("rating", int 3)];
            [("id", int 13); ("title", VStr "Forrest Gump")]] in
  L !! 0%nat = Some [("id", int 680); ("title", VStr "Pulp Fiction"); ("rating", int 3)] /\
  rateMovie L (int 680) (int 7) !! 0%nat
    = Some [("id", int 680); ("title", VStr "Pulp Fiction"); ("rating", int 7)] /\
  rateMovie (rateMovie L (int 680) (int 7)) (int 680) (int 7)
    = rateMovie L (int 680) (int 7).
Proof.
  intros L. destruct (rate_changes_rating_only L (int 680) (int 7)) as (_ & _ & _ & Hi).
  split; [reflexivity|]. split; [reflexivity|exact Hi].
Defined.

(** *** The filters *)

Lemma starts_with_spec s p : starts_with s p = true <-> exists b, s = p +:+ b.
Proof.
  revert s. induction p as [|c p IH]; intros s; simpl.
  - split; [intros _; by exists s|done].
  - destruct s as [|d s]; simpl.
    + split; [done|]. by intros [b Hb].
    + rewrite andb_true_iff, Ascii.eqb_eq, IH. split.
      * intros [-> [b ->]]. by exists b.
      * intros [b Hb]. injection Hb as -> ->. split; [done|by exists b].
Qed.

Lemma includes_spec s p : includes s p = true <-> is_substring p s.
Proof.
  unfold is_substring. induction s as [|c s IH]; simpl.
  - rewrite orb_false_r, starts_with_spec. split.
    + intros [b Hb]. by exists "", b.
    + intros [a [b Hb]]. destruct a; simpl in Hb; [by exists b|done].
  - rewrite orb_true_iff, IH, starts_with_spec. split.
    + intros [[b Hb]|[a [b Hb]]].
      * by exists "", b.
      * exists (String c a), b. simpl. by rewrite Hb.
    + intros [a [b Hb]]. destruct a as [|d a]; simpl in Hb.
      * left. by exists b.
      * right. injection Hb as -> ->. by exists a, b.
Qed.

Lemma director_is_spec name m :
  director_is name m = true <-> obj_get "director" m = VStr name.
Proof.
  unfold director_is. destruct (obj_get "director" m); simpl; try (split; congruence).
  rewrite String.eqb_eq. split; congruence.
Qed.

Lemma genre_selected_spec name m :
  genre_selected name m = true <->
  exists s, obj_get "genres" m = VStr s /\ s <> "" /\ is_substring name s.
Proof.
  unfold genre_selected. destruct (obj_get "genres" m) as [| | | |s| |];
    try (split; [done|intros [? [? _]]; done]).
  rewrite andb_true_iff, negb_true_iff, String.eqb_neq, includes_spec. split.
  - intros [? ?]. by exists s.
  - intros [s' [[= <-] [? ?]]]. done.
Qed.

Lemma genre_matches_typed name m :
  genres_typed m = true -> genre_matches name m = Ok (genre_selected name m).
Proof.
  unfold genres_typed, genre_matches, genre_selected.
  destruct (obj_get "genres" m) as [| |[]|n|s| |]; simpl; try done.
  - by destruct (mant n =? 0)%Z.
  - by destruct (String.eqb s "").
Qed.

Lemma listMoviesByGenre_typed L name :
  forallb genres_typed L = true ->
  listMoviesByGenre L name = Ok (List.filter (genre_selected name) L).
Proof.
  induction L as [|m L IH]; simpl; [done|].
  rewrite andb_true_iff. intros [Hm HL].
  by rewrite (genre_matches_typed _ _ Hm), (IH HL).
Qed.

(** C8, as the code has it. [listMoviesByDirector] keeps, in order, exactly
    the elements whose director is the given string.  On a list whose
    [genres] are strings (or falsy), [listMoviesByGenre] keeps, in order,
    exactly the elements whose [genres] is a non-empty string that contains
    the name; for a non-empty name that is every element whose [genres]
    contains it.  Neither returns an element that the list does not have. *)
Theorem filters_select_in_order L (name : string) :
  listMoviesByDirector L name = List.filter (director_is name) L /\
  (forall m, director_is name m = true <-> obj_get "director" m = VStr name) /\
  sublist (listMoviesByDirector L name) L /\
  (forall m, In m (listMoviesByDirector L name) -> In m L) /\
  (forallb genres_typed L = true ->
   listMoviesByGenre L name = Ok (List.filter (genre_selected name) L) /\
   (forall m, genre_selected name m = true <->
      exists s, obj_get "genres" m = VStr s /\ s <> "" /\ is_substring name s) /\
   (name <> "" -> forall m s, obj_get "genres" m = VStr s ->
      (genre_selected name m = true <-> is_substring name s)) /\
   sublist (List.filter (genre_selected name) L) L /\
   (forall m, In m (List.filter (genre_selected name) L) -> In m L)).
Proof.
  split; [done|]. split; [apply director_is_spec|].
  split; [apply filter_sublist|].
  split; [intros m Hm; by apply filter_In in Hm as [? _]|].
  intros Ht. split; [by apply listMoviesByGenre_typed|].
  split; [apply genre_selected_spec|]. split.
  - intros Hne m s Hs. rewrite genre_selected_spec. split.
    + intros [s' [Hs' [_ ?]]]. congruence.
    + intros Hsub. exists s. split; [done|]. split; [|done].
      intros ->. destruct Hsub as [a [b Hab]].
      destruct a; simpl in Hab; [|done]. destruct name; done.
  - split; [apply filter_sublist|].
    intros m Hm. by apply filter_In in Hm as [? _].
Qed.

Lemma filters_select_in_order_witness :
  let L := [[("id", int 680); ("director", VStr "Quentin Tarantino");
             ("genres", VStr "Thriller, Crime")];
            [("id", int 13); ("director", VStr "Robert Zemeckis");
             ("genres", VStr "Comedy, Drama, Romance")];
            [("id", int 1); ("director", VStr "Quentin Tarantino");
             ("genres", VStr "")]] in
  forallb genres_typed L = true /\
  listMoviesByGenre L "Crime" = Ok (List.filter (genre_selected "Crime") L) /\
  listMoviesByGenre L "Crime" =
    Ok [[("id", int 680); ("director", VStr "Quentin Tarantino");
         ("genres", VStr "Thriller, Crime")]].
Proof.
  intros L. split; [reflexivity|]. split; [|reflexivity].
  apply (filters_select_in_order L "Crime"). reflexivity.
Defined.

(** C8, as stated, fails for the empty name: a movie whose [genres] is the
    empty string contains the empty name, and the filter leaves it out. *)
Lemma byGenre_empty_name_counterexample :
  ~ (forall L (name : string) m s,
       In m L -> obj_get "genres" m = VStr s -> is_substring name s ->
       exists l, listMoviesByGenre L name = Ok l /\ In m l).
Proof.
  intros H.
  destruct (H [[("id", int 1); ("genres", VStr "")]] "" [("id", int 1); ("genres", VStr "")] "")
    as [l [Hl Hin]].
  - by left.
  - reflexivity.
  - by exists "", "".
  - simpl in Hl. injection Hl as <-. destruct Hin.
Qed.

End Engine.

(** ** Effects *)

Section Effects.

Context {A B : Type}.

Lemma settles_ret (a : A) : settles (ret a) a.
Proof. intros w. by exists w. Qed.

Lemma settles_bind (m : io A) (k : A -> io B) a b :
  settles m a -> settles (k a) b -> settles (bind m k) b.
Proof.
  intros Hm Hk w. destruct (Hm w) as (w1 & E1 & S1 & A1).
  destruct (Hk w1) as (w2 & E2 & S2 & A2).
  exists w2. unfold bind. rewrite E1, E2. split; [done|]. split; congruence.
Qed.

Lemma steady_ret (a : A) : steady (ret a).
Proof. by split. Qed.

Lemma steady_throw e : steady (throw e : io A).
Proof. by split. Qed.

Lemma steady_lift (o : outcome A) : steady (lift o).
Proof. by split. Qed.

Lemma steady_bind (m : io A) (k : A -> io B) :
  steady m -> (forall a, steady (k a)) -> steady (bind m k).
Proof.
  intros [Hm1 Hm2] Hk. split.
  - intros w1 w2. unfold bind. specialize (Hm1 w1 w2).
    destruct (m w1) as [[a1|e1] w1'], (m w2) as [[a2|e2] w2']; simpl in *;
      try congruence.
    injection Hm1 as ->. destruct (Hk a2) as [H _]. apply H.
  - intros w. unfold bind. specialize (Hm2 w).
    destruct (m w) as [[a|e] w']; simpl in *; [|done].
    destruct (Hk a) as [_ Hk2]. specialize (Hk2 w'). split; intuition congruence.
Qed.

Lemma steady_try_catch (m : io A) (h : error -> io A) :
  steady m -> (forall e, steady (h e)) -> steady (try_catch m h).
Proof.
  intros [Hm1 Hm2] Hh. split.
  - intros w1 w2. unfold try_catch. specialize (Hm1 w1 w2).
    destruct (m w1) as [[a1|e1] w1'], (m w2) as [[a2|e2] w2']; simpl in *;
      try congruence.
    injection Hm1 as ->. destruct (Hh e2) as [H _]. apply H.
  - intros w. unfold try_catch. specialize (Hm2 w).
    destruct (m w) as [[a|e] w']; simpl in *; [done|].
    destruct (Hh e) as [_ Hh2]. specialize (Hh2 w'). split; intuition congruence.
Qed.

(** A steady computation whose failures are caught by a handler that settles
    settles. *)
Lemma steady_caught_settles (m : io A) (h : error -> io A) (d : A) :
  steady m -> (forall e, settles (h e) d) ->
  exists a, settles (try_catch m h) a.
Proof.
  intros [Hm1 Hm2] Hh.
  destruct (m empty_world) as [[a|e] w0] eqn:E0.
  - exists a. intros w. specialize (Hm1 w empty_world). specialize (Hm2 w).
    unfold try_catch. rewrite E0 in Hm1.
    destruct (m w) as [o w']; simpl in *. subst o. by exists w'.
  - exists d. intros w. specialize (Hm1 w empty_world). specialize (Hm2 w).
    unfold try_catch. rewrite E0 in Hm1.
    destruct (m w) as [o w']; simpl in *. subst o.
    destruct (Hh e w') as (w2 & E2 & S2 & A2). exists w2. intuition congruence.
Qed.

End Effects.

Lemma steady_console_log msg : steady (console_log msg).
Proof. by split. Qed.

Lemma steady_console_error msg : steady (console_error msg).
Proof. by split. Qed.

Lemma steady_fetch net url : steady (fetch net url).
Proof. split; intros; unfold fetch; by destruct (net url). Qed.

Lemma steady_json r : steady (json r).
Proof. apply steady_lift. Qed.

Lemma settles_console_error msg : settles (console_error msg) tt.
Proof. intros w. by eexists. Qed.

Ltac steady :=
  repeat first
    [ apply steady_ret | apply steady_throw | apply steady_lift
    | apply steady_console_log | apply steady_console_error
    | apply steady_fetch | apply steady_json
    | apply steady_bind; [|intros ?]
    | apply steady_try_catch; [|intros ?]
    | match goal with
      | |- steady (if ?c then _ else _) => destruct c
      | |- steady (match ?x with _ => _ end) => destruct x
      end ].

(** Every promise of the list settles: so does [Promise.all], on the list of
    their results in the order of the promises. *)
Lemma promise_all_settles {A} (promises : list (io A)) (results : list A) :
  Forall2 settles promises results -> settles (promise_all promises) results.
Proof.
  induction 1 as [|m a promises results Hm _ IH]; [apply settles_ret|].
  intros w. simpl. destruct (Hm w) as (w1 & E1 & S1 & A1).
  destruct (IH w1) as (w2 & E2 & S2 & A2).
  exists w2. rewrite E1, E2. intuition congruence.
Qed.

(** ** The bootstrap *)

Section Bootstrap.

Context (net : string -> fetch_result) (getFullYear : value -> value).

Lemma filmoteca_fetch_settles id :
  settles (Filmoteca.fetchCompleteMovieData net getFullYear id)
          (fetched net getFullYear id).
Proof.
  unfold Filmoteca.fetchCompleteMovieData.
  match goal with |- settles (try_catch ?m ?h) _ =>
    destruct (steady_caught_settles m h None) as [a Ha] end.
  - steady.
  - intros e. eapply settles_bind; [apply settles_console_error|apply settles_ret].
  - unfold fetched, Filmoteca.fetchCompleteMovieData.
    destruct (Ha empty_world) as (w' & -> & _). exact Ha.
Qed.

Lemma somes_length_filter {X Y} (f : X -> option Y) (l : list X) :
  length (somes (map f l)) =
  length (List.filter (fun x => match f x with Some _ => true | None => false end) l).
Proof. induction l as [|x l IH]; simpl; [done|]. destruct (f x); simpl; lia. Qed.

Lemma somes_filter_Forall2 {X Y} (f : X -> option Y) (l : list X) :
  Forall2 (fun x y => f x = Some y)
    (List.filter (fun x => match f x with Some _ => true | None => false end) l)
    (somes (map f l)).
Proof.
  induction l as [|x l IH]; simpl; [constructor|].
  destruct (f x) eqn:E; [constructor|]; done.
Qed.

(** C3. The bootstrap returns, and stores, the records of the ids whose fetch
    succeeded, in the order of the list of default ids; an id whose fetch
    failed is left out and the others are kept.  With two failures among the
    ten ids the list has eight records. *)
Theorem reset_keeps_successes_in_order (w : world) :
  let result := somes (map (fetched net getFullYear) Filmoteca.DEFAULT_MOVIE_IDS) in
  let kept := List.filter (succeeded net getFullYear) Filmoteca.DEFAULT_MOVIE_IDS in
  let failed := List.filter (fun id => negb (succeeded net getFullYear id))
                  Filmoteca.DEFAULT_MOVIE_IDS in
  (exists w',
     Filmoteca.resetMovies net getFullYear w = (Ok result, w') /\
     storage w' = <[Filmoteca.STORAGE_KEY :=
                      to_string (Json.stringify (movies_value result))]> (storage w)) /\
  sublist kept Filmoteca.DEFAULT_MOVIE_IDS /\
  Forall2 (fun id movie => fetched net getFullYear id = Some movie) kept result /\
  length result + length failed = 10 /\
  (length failed = 2 -> length result = 8).
Proof.
  intros result kept failed.
  assert (Hlen : length result + length failed = 10).
  { unfold result, failed, succeeded. rewrite somes_length_filter.
    change 10 with (length Filmoteca.DEFAULT_MOVIE_IDS).
    generalize Filmoteca.DEFAULT_MOVIE_IDS. intros l.
    induction l as [|x l IH]; simpl; [done|].
    destruct (fetched net getFullYear x); simpl; lia. }
  split; [|split; [apply filter_sublist|split; [apply somes_filter_Forall2|]]].
  - unfold Filmoteca.resetMovies, try_catch, bind.
    match goal with |- context [promise_all ?l] =>
      assert (Hall : settles (promise_all l)
                (map (fetched net getFullYear) Filmoteca.DEFAULT_MOVIE_IDS)) end.
    { apply promise_all_settles. apply Forall2_fmap, Forall_Forall2_diag.
      apply Forall_forall. intros id _ w0.
      destruct (filmoteca_fetch_settles id w0) as (w1 & E1 & S1 & A1).
      exists w1. unfold try_catch. by rewrite E1. }
    destruct (Hall w) as (w1 & -> & S1 & A1). fold result.
    eexists. split; [reflexivity|]. simpl. by rewrite S1.
  - split; [exact Hlen|lia].
Qed.

End Bootstrap.

(** What makes the fetch of one id fail in [filmoteca.js]: a details request
    that fails in transport or by its status, and also, with the details at
    hand, a credits request that fails in transport. *)
Lemma fetched_none_details net getFullYear (id : value) :
  net (Filmoteca.details_url id) = Rejected \/
  (exists r, net (Filmoteca.details_url id) = Responded r /\ ok r = false) ->
  fetched net getFullYear id = None.
Proof.
  unfold fetched, Filmoteca.fetchCompleteMovieData, try_catch, bind, fetch.
  intros [H|(r & H & Hok)]; rewrite H; simpl; [done|]. by rewrite Hok.
Qed.

Lemma fetched_none_credits net getFullYear (id : value) r details :
  net (Filmoteca.details_url id) = Responded r -> ok r = true ->
  Json.parse (body r) = Ok details ->
  net (Filmoteca.credits_url id) = Rejected ->
  fetched net getFullYear id = None.
Proof.
  unfold fetched, Filmoteca.fetchCompleteMovieData, try_catch, bind, fetch, json, lift.
  intros H Hok Hp Hc. rewrite H. simpl. rewrite Hok. simpl. rewrite Hp, Hc. done.
Qed.

(** Ten ids, two failures: eight records, in the order of the ids. *)
Lemma reset_keeps_successes_in_order_witness :
  length (List.filter (fun id => negb (succeeded sample_net year_of_iso_date id))
            Filmoteca.DEFAULT_MOVIE_IDS) = 2 /\
  (exists result,
     fst (Filmoteca.resetMovies sample_net year_of_iso_date empty_world) = Ok result /\
     length result = 8 /\
     map (obj_get "id") result = map int [129; 124; 122; 120; 13; 155; 680; 275]%Z /\
     map (obj_get "director") result = repeat (VStr "A. Director") 8 /\
     map (obj_get "year") result = repeat (int 1994) 8).
Proof.
  assert (H2 : length (List.filter
                         (fun id => negb (succeeded sample_net year_of_iso_date id))
                         Filmoteca.DEFAULT_MOVIE_IDS) = 2) by (vm_compute; reflexivity).
  split; [exact H2|].
  destruct (reset_keeps_successes_in_order sample_net year_of_iso_date empty_world)
    as ((w' & E & _) & _ & _ & _ & H8).
  eexists. split; [by rewrite E|]. split; [exact (H8 H2)|].
  split; [|split]; vm_compute; reflexivity.
Defined.

(** ** Adding a movie twice *)

(** C4. Adding an id that the collection already has is rejected with an
    alert and nothing else happens: no request is sent, the collection in
    memory is returned as it was, and the storage is not written. *)
Theorem duplicate_add_is_rejected net getFullYear (id : value) (u : UI.ui) (w : world) :
  Filmoteca.movieExists (UI.movies u) id = true ->
  let w' := {| storage := storage w;
               requests := requests w;
               console := console w;
               alerts := alerts w ++ ["Este filme já está na sua coleção!"] |} in
  API.addMovieFromTMDB net getFullYear id (UI.movies u) w = (Ok (UI.movies u), w') /\
  UI.addMovieFromTMDB net getFullYear id u w = (Ok u, w') /\
  storage w' = storage w /\
  requests w' = requests w /\
  fst (Filmoteca.loadMovies w') = fst (Filmoteca.loadMovies w).
Proof.
  intros H w'. unfold API.addMovieFromTMDB, UI.addMovieFromTMDB, try_catch.
  rewrite H. repeat split.
  unfold Filmoteca.loadMovies, bind, getItem. simpl.
  destruct (storage w !! Filmoteca.STORAGE_KEY) as [s|]; simpl; [|done].
  by destruct (negb (String.eqb s "")).
Qed.

Lemma duplicate_add_is_rejected_witness :
  let u := {| UI.movies := [[("id", int 680); ("title", VStr "Pulp Fiction")]];
              UI.forms := ""; UI.output := "" |} in
  Filmoteca.movieExists (UI.movies u) (int 680) = true /\
  fst (UI.addMovieFromTMDB net_down year_of_iso_date (int 680) u empty_world) = Ok u /\
  storage (snd (UI.addMovieFromTMDB net_down year_of_iso_date (int 680) u empty_world)) = ∅.
Proof.
  intros u. split; [reflexivity|].
  destruct (duplicate_add_is_rejected net_down year_of_iso_date (int 680) u empty_world)
    as (_ & -> & _); [reflexivity|]. split; reflexivity.
Defined.

(** ** The two copies of [fetchCompleteMovieData] *)

(** C2, on the copy in [filmoteca.js]: the details of movie 680 arrive, the
    credits request fails in transport, and the result is [null]; on the same
    network the copy in [api.js] returns the record with the sentinel
    director.  When the details request fails, the copy in [filmoteca.js]
    never sends the credits request at all, the copy in [api.js] sends
    both. *)
Theorem filmoteca_fetch_drops_record_when_credits_fail :
  fst (Filmoteca.fetchCompleteMovieData net_credits_down year_of_iso_date
         (int 680) empty_world) = Ok None /\
  (exists movie,
     fst (API.fetchCompleteMovieData net_credits_down year_of_iso_date
            (int 680) empty_world) = Ok (Some movie) /\
     obj_get "id" movie = int 680 /\
     obj_get "director" movie = VStr "Diretor não informado") /\
  requests (snd (Filmoteca.fetchCompleteMovieData net_down year_of_iso_date
                   (int 680) empty_world))
    = [Filmoteca.details_url (int 680)] /\
  requests (snd (API.fetchCompleteMovieData net_down year_of_iso_date
                   (int 680) empty_world))
    = [api_details_url (int 680); api_credits_url (int 680)].
Proof.
  split; [vm_compute; reflexivity|]. split.
  - eexists. split; [vm_compute; reflexivity|]. split; reflexivity.
  - split; vm_compute; reflexivity.
Qed.

(** *** The copy in [api.js] behaves as the specification says *)

Section ApiClient.

Context (net : string -> fetch_result) (getFullYear : value -> value).

Lemma settles_try_catch {A} (m : io A) h a : settles m a -> settles (try_catch m h) a.
Proof.
  intros H w. destruct (H w) as (w' & E & ?). exists w'.
  unfold try_catch. by rewrite E.
Qed.

Lemma settles_lift_ok {A B} (a : A) (k : A -> io B) b :
  settles (k a) b -> settles (bind (lift (Ok a)) k) b.
Proof. done. Qed.

Lemma settles_steady {A} (m : io A) a : settles m a -> steady m.
Proof.
  intros H. split.
  - intros w1 w2. destruct (H w1) as (? & -> & _), (H w2) as (? & -> & _). done.
  - intros w. destruct (H w) as (? & -> & ? & ?). done.
Qed.

Lemma silent_bind {A B} (m : io A) (k : A -> io B) :
  silent m -> (forall a, silent (k a)) -> silent (bind m k).
Proof.
  intros Hm Hk w. unfold bind. specialize (Hm w).
  destruct (m w) as [[a|e] w']; simpl in *; [|done]. by rewrite Hk.
Qed.

Lemma silent_try_catch {A} (m : io A) h :
  silent m -> (forall e, silent (h e)) -> silent (try_catch m h).
Proof.
  intros Hm Hh w. unfold try_catch. specialize (Hm w).
  destruct (m w) as [[a|e] w']; simpl in *; [done|]. by rewrite Hh.
Qed.

Lemma silent_lift {A} (o : outcome A) : silent (lift o).
Proof. done. Qed.

Lemma silent_ret {A} (a : A) : silent (ret a).
Proof. done. Qed.

Lemma silent_console_error msg : silent (console_error msg).
Proof. done. Qed.

Lemma requests_bind {A B} (m : io A) (k : A -> io B) w :
  (forall a, silent (k a)) ->
  requests (snd (bind m k w)) = requests (snd (m w)).
Proof.
  intros Hk. unfold bind. destruct (m w) as [[a|e] w']; simpl; [apply Hk|done].
Qed.

Lemma requests_try_catch {A} (m : io A) h w :
  (forall e, silent (h e)) ->
  requests (snd (try_catch m h w)) = requests (snd (m w)).
Proof.
  intros Hh. unfold try_catch. destruct (m w) as [[a|e] w']; simpl; [done|apply Hh].
Qed.

Lemma requests_promise_all2 {A} (a b : io A) w :
  requests (snd (promise_all [a; b] w)) = requests (snd (b (snd (a w)))).
Proof. simpl. destruct (a w) as [oa w1]. simpl. by destruct (b w1) as [ob w2]. Qed.

Ltac silent :=
  repeat first
    [ apply silent_ret | apply silent_lift | apply silent_console_error
    | apply silent_bind; [|intros ?]
    | apply silent_try_catch; [|intros ?]
    | match goal with
      | |- silent (if ?c then _ else _) => destruct c
      | |- silent (match ?x with _ => _ end) => destruct x
      end ].

Lemma api_request_settles (url : string) msg :
  settles
    (try_catch
       (response <- fetch net url ;;
        (if ok response then ret tt else throw (HttpError (status response))) ;;;
        json response)
       (fun error => console_error msg ;;; ret VNull))
    (payload net url).
Proof.
  intros w. unfold try_catch, bind, fetch, payload, json, lift.
  destruct (net url) as [|r]; simpl; [by eexists|].
  destruct (ok r); simpl; [|by eexists].
  destruct (Json.parse (body r)); simpl; by eexists.
Qed.

Lemma api_request_log (url : string) msg w :
  requests (snd (try_catch
       (response <- fetch net url ;;
        (if ok response then ret tt else throw (HttpError (status response))) ;;;
        json response)
       (fun error => console_error msg ;;; ret VNull) w))
  = requests w ++ [url].
Proof.
  unfold try_catch, bind, fetch, json, lift.
  destruct (net url) as [|r]; simpl; [done|].
  destruct (ok r); simpl; [|done].
  by destruct (Json.parse (body r)).
Qed.

Lemma request_failed_payload url : request_failed net url -> payload net url = VNull.
Proof.
  unfold payload. intros [->|(r & -> & [->|[e ->]])]; try done.
  by destruct (ok r).
Qed.

Lemma join_genres_shaped d :
  genres_shaped d = true -> truthy (obj_get "genres" d) = true ->
  exists g, Filmoteca.join_genres (obj_get "genres" d) = Ok g.
Proof.
  unfold genres_shaped. destruct (obj_get "genres" d) as [| |b|n|s|l|o]; simpl;
    try congruence;
    try (intros H1 H2; rewrite H2 in H1; discriminate H1).
  intros Hl _.
  assert (exists ns, Filmoteca.genre_names l = Ok ns) as [ns ->]; [|by eexists].
  induction l as [|g l IH]; simpl in *; [by eexists|].
  apply andb_true_iff in Hl as [Hg Hl]. destruct (IH Hl) as [ns ->].
  destruct g; simpl in *; try done; by eexists.
Qed.

(** X27. The copy of [fetchCompleteMovieData] in [api.js]: it sends both requests
    whatever becomes of either, never raises, returns [null] when the details
    request fails, and, when the details arrive and the credits request
    fails, returns the record with the sentinel director. *)
Lemma api_fetch_as_specified (id : value) :
  (forall w,
     requests (snd (API.fetchCompleteMovieData net getFullYear id w))
     = requests w ++ [api_details_url id; api_credits_url id]) /\
  (exists r, settles (API.fetchCompleteMovieData net getFullYear id) r) /\
  (request_failed net (api_details_url id) ->
   settles (API.fetchCompleteMovieData net getFullYear id) None) /\
  (forall d, payload net (api_details_url id) = VObj d ->
     genres_shaped d = true ->
     request_failed net (api_credits_url id) ->
     exists movie,
       settles (API.fetchCompleteMovieData net getFullYear id) (Some movie) /\
       obj_get "id" movie = obj_get "id" d /\
       obj_get "title" movie = obj_get "title" d /\
       obj_get "director" movie = VStr "Diretor não informado").
Proof.
  assert (Hboth : settles
            (promise_all [API.getMovieDetailsFromTMDB net id;
                          API.getMovieCreditsFromTMDB net id])
            [payload net (api_details_url id); payload net (api_credits_url id)]).
  { apply promise_all_settles. repeat constructor; apply api_request_settles. }
  split; [|split; [|split]].
  - intros w. unfold API.fetchCompleteMovieData.
    rewrite requests_try_catch; [|intros e; silent].
    rewrite requests_bind; [|intros both; silent].
    rewrite requests_promise_all2.
    unfold API.getMovieDetailsFromTMDB, API.getMovieCreditsFromTMDB.
    rewrite !api_request_log. by rewrite <- app_assoc.
  - unfold API.fetchCompleteMovieData.
    match goal with |- exists r, settles (try_catch ?m ?h) r =>
      apply (steady_caught_settles m h None) end.
    + apply steady_bind; [by apply settles_steady in Hboth|]. intros both. steady.
    + intros e. eapply settles_bind; [apply settles_console_error|apply settles_ret].
  - intros Hfail. apply settles_try_catch.
    eapply settles_bind; [apply Hboth|].
    rewrite (request_failed_payload _ Hfail). simpl. apply settles_ret.
  - intros d Hd Hshape Hfail.
    assert (exists g, (if truthy (obj_get "genres" d)
                       then lift (Filmoteca.join_genres (obj_get "genres" d))
                       else ret (VStr "")) = lift (Ok g)) as [g Hg].
    { destruct (truthy (obj_get "genres" d)) eqn:Ht; [|by eexists].
      destruct (join_genres_shaped d Hshape Ht) as [g ->]. by eexists. }
    eexists. split.
    + apply settles_try_catch. eapply settles_bind; [apply Hboth|].
      rewrite Hd, (request_failed_payload _ Hfail).
      cbn [nth truthy negb API.extractDirectorFromCredits get_prop].
      repeat apply settles_lift_ok. rewrite Hg.
      repeat apply settles_lift_ok. apply settles_ret.
    + done.
Qed.

Lemma get_prop_truthy v k : truthy v = true -> exists x, get_prop v k = Ok x.
Proof. destruct v; simpl; try discriminate; by eexists. Qed.

Lemma find_director_shaped (l : list value) :
  forallb non_null l = true ->
  exists p, Filmoteca.find_director l = Ok p /\ (p = VUndef \/ non_null p = true).
Proof.
  induction l as [|x l IH]; simpl; [by eexists; auto|].
  intros H. apply andb_true_iff in H as [Hx Hl].
  destruct x; simpl in *; try discriminate; auto.
  destruct (strict_eq _ _); [|auto]. eexists. split; [done|]. by right.
Qed.

Lemma extractDirector_shaped credits :
  credits_shaped credits = true ->
  exists d, API.extractDirectorFromCredits credits = Ok d.
Proof.
  unfold credits_shaped, API.extractDirectorFromCredits.
  destruct (truthy credits) eqn:Ht; simpl; [|by eexists].
  destruct (get_prop_truthy credits "crew" Ht) as [crew ->].
  destruct crew as [| |b|n|s|l|o]; simpl; try (intros H; discriminate H);
    try (by eexists); try (intros ->; by eexists).
  intros Hl. destruct (find_director_shaped l Hl) as (p & -> & [->|Hp]);
    [by eexists|].
  destruct (truthy p); [|by eexists]. destruct p; simpl in *; try discriminate; by eexists.
Qed.

(** X28. On payloads of the documented shape, the copy in [api.js] returns [null]
    exactly when it has obtained no details. *)
Lemma api_fetch_null_iff_no_details (id : value) :
  details_shaped (payload net (api_details_url id)) = true ->
  credits_shaped (payload net (api_credits_url id)) = true ->
  exists r, settles (API.fetchCompleteMovieData net getFullYear id) r /\
    (r = None <-> truthy (payload net (api_details_url id)) = false).
Proof.
  intros Hd Hc.
  assert (Hboth : settles
            (promise_all [API.getMovieDetailsFromTMDB net id;
                          API.getMovieCreditsFromTMDB net id])
            [payload net (api_details_url id); payload net (api_credits_url id)]).
  { apply promise_all_settles. repeat constructor; apply api_request_settles. }
  destruct (extractDirector_shaped _ Hc) as [director Hdir].
  remember (payload net (api_details_url id)) as D eqn:ED in *. clear ED.
  assert (Hnone : truthy D = false ->
            settles (API.fetchCompleteMovieData net getFullYear id) None).
  { intros Ht. unfold API.fetchCompleteMovieData. apply settles_try_catch.
    eapply settles_bind; [apply Hboth|]. cbn [nth]. rewrite Ht. apply settles_ret. }
  assert (Hsome : truthy D = true ->
            forall g,
              (if truthy match D with VObj o => obj_get "genres" o | _ => VUndef end
               then lift (Filmoteca.join_genres
                            match D with VObj o => obj_get "genres" o | _ => VUndef end)
               else ret (VStr "")) = lift (Ok g) ->
            exists movie,
              settles (API.fetchCompleteMovieData net getFullYear id) (Some movie)).
  { intros Ht g Hg. eexists. unfold API.fetchCompleteMovieData.
    apply settles_try_catch. eapply settles_bind; [apply Hboth|].
    cbn [nth]. rewrite Ht. cbn [negb]. rewrite Hdir. apply settles_lift_ok.
    assert (Hget : forall k, get_prop D k
                     = Ok match D with VObj o => obj_get k o | _ => VUndef end).
    { intros k. destruct D; try discriminate Ht; done. }
    rewrite !Hget. repeat apply settles_lift_ok. rewrite Hg.
    repeat apply settles_lift_ok. apply settles_ret. }
  destruct (truthy D) eqn:Ht.
  - assert (exists g,
              (if truthy match D with VObj o => obj_get "genres" o | _ => VUndef end
               then lift (Filmoteca.join_genres
                            match D with VObj o => obj_get "genres" o | _ => VUndef end)
               else ret (VStr "")) = lift (Ok g)) as [g Hg].
    { destruct D as [| |b|n|s|l|d]; simpl; try (by eexists).
      destruct (truthy (obj_get "genres" d)) eqn:Hgt; [|by eexists].
      destruct (join_genres_shaped d Hd Hgt) as [g ->]. by eexists. }
    destruct (Hsome eq_refl g Hg) as [movie Hm].
    exists (Some movie). split; [exact Hm|]. split; discriminate.
  - exists None. split; [by apply Hnone|done].
Qed.

End ApiClient.

(** ** Rendering the score *)

Section Rendering.

Import UI.

Lemma append_assoc (a b c : string) : (a +:+ b) +:+ c = a +:+ (b +:+ c).
Proof.
  induction a as [|x a IH]; [done|].
  change (String x ((a +:+ b) +:+ c) = String x (a +:+ (b +:+ c))).
  by rewrite IH.
Qed.

Lemma is_substring_here p b : is_substring p (p +:+ b).
Proof. by exists "", b. Qed.

Lemma is_substring_later p a s : is_substring p s -> is_substring p (a +:+ s).
Proof. intros [x [y ->]]. exists (a +:+ x), y. by rewrite append_assoc. Qed.








(** Without a user rating, the vote average 8.4 is what the page shows. *)
Example display_vote_average :
  scoreText [("id", int 680); ("voteAverage", VNum (Num 84 1))] = Ok "8.4".
Proof. reflexivity. Qed.


End Rendering.

(** ** JSON: parsing what was serialized *)

Ltac Zify.zify_post_hook ::= Z.to_euclidean_division_equations.

Lemma size_bound (n : N) : (n < 2 ^ N.of_nat (N.size_nat n))%N.
Proof.
  destruct n as [|p]; [done|]. simpl.
  induction p as [p IH|p IH|]; simpl Pos.size_nat;
    rewrite ?Nat2N.inj_succ, ?N.pow_succ_r'; try lia.
Qed.

Lemma digits_fold (l : list N) (a : N) :
  fold_left (fun acc d => (acc * 10 + d)%N) l a =
  (a * 10 ^ N.of_nat (length l) + digits_value l)%N.
Proof.
  unfold digits_value. revert a. induction l as [|d l IH]; intros a; simpl length.
  - simpl. lia.
  - simpl fold_left. rewrite (IH (a * 10 + d)%N), (IH (0 * 10 + d)%N).
    rewrite Nat2N.inj_succ, N.pow_succ_r'. lia.
Qed.

Lemma digits_value_app (l1 l2 : list N) :
  digits_value (l1 ++ l2) =
  (digits_value l1 * 10 ^ N.of_nat (length l2) + digits_value l2)%N.
Proof. unfold digits_value at 1. rewrite fold_left_app. apply digits_fold. Qed.

Lemma digits_value_cons d l :
  digits_value (d :: l) = (d * 10 ^ N.of_nat (length l) + digits_value l)%N.
Proof. change (d :: l) with ([d] ++ l). rewrite digits_value_app. unfold digits_value at 1. simpl. lia. Qed.

Lemma digits_fuel_spec (f : nat) : forall (n : N) (acc : list N),
  (n < 2 ^ N.of_nat f)%N ->
  digits_value (digits_fuel f n acc) =
    (n * 10 ^ N.of_nat (length acc) + digits_value acc)%N /\
  (Forall (fun d => (d < 10)%N) acc ->
   Forall (fun d => (d < 10)%N) (digits_fuel f n acc)) /\
  (n <> 0%N -> exists d r, digits_fuel f n acc = d :: r /\ d <> 0%N) /\
  (length acc < length (digits_fuel f n acc))%nat.
Proof.
  induction f as [|f IH]; intros n acc Hn.
  - simpl in Hn. assert (n = 0%N) as -> by lia. simpl digits_fuel.
    rewrite digits_value_cons. split; [done|]. split; [by constructor|].
    split; [done|simpl; lia].
  - simpl digits_fuel. destruct (N.ltb_spec n 10) as [Hlt|Hge].
    + rewrite digits_value_cons. split; [done|]. split; [by constructor|].
      split; [|simpl; lia]. intros H0. by exists n, acc.
    + rewrite Nat2N.inj_succ, N.pow_succ_r' in Hn.
      destruct (IH (n / 10)%N ((n mod 10)%N :: acc)) as (H1 & H2 & H3 & H4); [lia|].
      rewrite H1, digits_value_cons. simpl length in *.
      rewrite Nat2N.inj_succ, N.pow_succ_r'.
      split; [|split; [|split]].
      * set (p := (10 ^ N.of_nat (length acc))%N).
        pose proof (N.div_mod n 10 ltac:(done)). nia.
      * intros Hacc. apply H2. constructor; [lia|done].
      * intros _. apply H3. lia.
      * lia.
Qed.

Lemma digits_of_N_spec (n : N) :
  digits_value (digits_of_N n) = n /\
  Forall (fun d => (d < 10)%N) (digits_of_N n) /\
  (n <> 0%N -> exists d r, digits_of_N n = d :: r /\ d <> 0%N) /\
  (0 < length (digits_of_N n))%nat.
Proof.
  unfold digits_of_N.
  destruct (digits_fuel_spec (N.size_nat n) n [] (size_bound n)) as (H1 & H2 & H3 & H4).
  split; [rewrite H1; unfold digits_value; simpl; lia|].
  split; [by apply H2|]. split; [done|]. simpl in H4. lia.
Qed.

Ltac digit_cases d H :=
  let H' := fresh in
  assert (H' : (d = 0 \/ d = 1 \/ d = 2 \/ d = 3 \/ d = 4 \/ d = 5 \/ d = 6
                \/ d = 7 \/ d = 8 \/ d = 9)%N) by lia;
  clear H;
  repeat (destruct H' as [H'|H']); subst d.

Lemma digit_char_digit d :
  (d < 10)%N -> is_digit (digit_char d) = true /\ digit_val (digit_char d) = d.
Proof. intros H. digit_cases d H; by vm_compute. Qed.

Lemma digit_char_zero d :
  (d < 10)%N -> Ascii.eqb (digit_char d) "0" = (d =? 0)%N.
Proof. intros H. digit_cases d H; by vm_compute. Qed.

Lemma digit_char_not_minus d : (d < 10)%N -> Ascii.eqb (digit_char d) "-" = false.
Proof. intros H. digit_cases d H; by vm_compute. Qed.

Lemma span_digits_chars ds rest :
  Forall (fun d => (d < 10)%N) ds -> no_digit_head rest = true ->
  span_digits (chars ds ++ rest) = (ds, rest).
Proof.
  intros Hds Hrest. induction Hds as [|d ds Hd _ IH]; simpl.
  - destruct rest as [|c rest]; [done|]. simpl in *.
    by destruct (is_digit c).
  - destruct (digit_char_digit d Hd) as [-> ->]. by rewrite IH.
Qed.

Lemma delimited_cases rest :
  delimited rest = true ->
  rest = [] \/ exists c r, rest = c :: r /\ (c = "," \/ c = "]" \/ c = "}")%char.
Proof.
  destruct rest as [|c r]; [by left|]. simpl. intros H. right. exists c, r.
  split; [done|]. rewrite !orb_true_iff, !Ascii.eqb_eq in H. tauto.
Qed.

Lemma delimited_no_digit rest : delimited rest = true -> no_digit_head rest = true.
Proof.
  intros H. destruct (delimited_cases _ H) as [->|(c & r & -> & [->|[->| ->]])]; done.
Qed.

Lemma parse_frac_delimited rest :
  delimited rest = true -> parse_frac rest = Some ([], rest).
Proof.
  intros H. destruct (delimited_cases _ H) as [->|(c & r & -> & [->|[->| ->]])]; done.
Qed.

Lemma parse_exp_delimited rest :
  delimited rest = true -> parse_exp rest = Some (0%Z, rest).
Proof.
  intros H. destruct (delimited_cases _ H) as [->|(c & r & -> & [->|[->| ->]])]; done.
Qed.

Lemma digits_value_zeros k ds : digits_value (repeat 0%N k ++ ds) = digits_value ds.
Proof.
  induction k as [|k IH]; [done|]. simpl repeat.
  rewrite <- app_comm_cons, digits_value_cons, IH. lia.
Qed.

Lemma Forall_repeat_zero k : Forall (fun d => (d < 10)%N) (repeat 0%N k).
Proof. induction k; simpl; constructor; [lia|done]. Qed.

(** The integer and fraction digits of the positional notation. *)
Lemma positional_parts (m : N) (e : nat) :
  let ds' := pad_zeros (S e) (digits_of_N m) in
  let k := (length ds' - e)%nat in
  let ip := firstn k ds' in
  let fp := skipn k ds' in
  digits_value (ip ++ fp) = m /\
  length fp = e /\
  Forall (fun d => (d < 10)%N) ip /\
  Forall (fun d => (d < 10)%N) fp /\
  (ip = [0%N] \/ exists d r, ip = d :: r /\ d <> 0%N).
Proof.
  intros ds' k ip fp.
  destruct (digits_of_N_spec m) as (Hv & Hd & Hh & Hl).
  assert (Hlen : (S e <= length ds')%nat).
  { unfold ds', pad_zeros. rewrite length_app, repeat_length. lia. }
  assert (Hall : Forall (fun d => (d < 10)%N) ds').
  { unfold ds', pad_zeros. apply Forall_app. split; [apply Forall_repeat_zero|done]. }
  split.
  { unfold ip, fp. rewrite firstn_skipn. unfold ds', pad_zeros.
    by rewrite digits_value_zeros. }
  split.
  { unfold fp. rewrite length_skipn. lia. }
  split; [by apply Forall_take|]. split; [by apply Forall_drop|].
  set (ds := digits_of_N m) in *.
  destruct (Nat.le_gt_cases (S e) (length ds)) as [Hge|Hlt].
  - assert (E : ds' = ds).
    { unfold ds', pad_zeros. by replace (S e - length ds)%nat with 0%nat by lia. }
    unfold ip, k. rewrite E.
    destruct (N.eq_dec m 0%N) as [->|Hm].
    + left. change ds with [0%N] in *. simpl in Hge.
      by replace e with 0%nat by lia.
    + right. destruct (Hh Hm) as (d & r & Hdr & Hd0). rewrite Hdr in *.
      simpl length in *. destruct (S (length r) - e)%nat as [|k'] eqn:Hk; [lia|].
      simpl. by eexists _, _.
  - left. unfold ip, k, ds', pad_zeros. rewrite length_app, repeat_length.
    replace (S e - length ds + length ds - e)%nat with 1%nat by lia.
    destruct (S e - length ds)%nat as [|j] eqn:Hj; [lia|]. done.
Qed.

Lemma parse_int_part_chars ip tail :
  Forall (fun d => (d < 10)%N) ip ->
  (ip = [0%N] \/ exists d r, ip = d :: r /\ d <> 0%N) ->
  no_digit_head tail = true ->
  parse_int_part (chars ip ++ tail) = Some (ip, tail).
Proof.
  intros Hall [->|(d & r & -> & Hd)] Htail; [done|].
  pose proof (Forall_inv Hall) as Hd10. simpl in Hd10.
  unfold parse_int_part. simpl chars. simpl app.
  destruct (digit_char_digit d Hd10) as [E1 E2]. rewrite E1.
  rewrite (digit_char_zero d Hd10).
  destruct (N.eqb_spec d 0) as [?|_]; [done|].
  f_equal. by apply (span_digits_chars (d :: r)).
Qed.

Lemma parse_number_signed s : parse_number ("-"%char :: s) = parse_magnitude true s.
Proof. reflexivity. Qed.

Lemma parse_number_unsigned c r :
  Ascii.eqb c "-" = false -> parse_number (c :: r) = parse_magnitude false (c :: r).
Proof. intros H. unfold parse_number. by rewrite H. Qed.

Lemma parse_number_positional (m : Z) (e : nat) rest :
  normalize m e = Num m e ->
  delimited rest = true ->
  parse_number
    ((if (m <? 0)%Z then ["-"%char] else [])
     ++ positional (digits_of_N (Z.abs_N m)) e ++ rest)
  = Some (Num m e, rest).
Proof.
  intros Hnorm Hrest. unfold positional.
  destruct (positional_parts (Z.abs_N m) e) as (Hv & Hlen & Hip & Hfp & Hhead).
  set (ds' := pad_zeros (S e) (digits_of_N (Z.abs_N m))) in *.
  set (ip := firstn (length ds' - e) ds') in *.
  set (fp := skipn (length ds' - e) ds') in *.
  set (tail := match e with O => [] | S _ => "."%char :: chars fp end).
  assert (Hint : parse_int_part (chars ip ++ tail ++ rest) = Some (ip, tail ++ rest)).
  { apply parse_int_part_chars; [done|done|].
    unfold tail. destruct e; [by apply delimited_no_digit|done]. }
  assert (Hfrac : parse_frac (tail ++ rest) = Some (fp, rest)).
  { unfold tail. destruct e as [|e'].
    - destruct fp; [|done]. by apply parse_frac_delimited.
    - simpl. rewrite (span_digits_chars fp rest Hfp (delimited_no_digit _ Hrest)).
      destruct fp; [done|done]. }
  assert (Hmk : forall neg, neg = (m <? 0)%Z -> make_number neg ip fp 0 = Num m e).
  { intros neg ->. unfold make_number. rewrite Hv, Hlen, Z.sub_0_r.
    destruct (Z.ltb_spec (Z.of_nat e) 0) as [?|_]; [lia|].
    rewrite Nat2Z.id, N2Z.inj_abs_N.
    destruct (Z.ltb_spec m 0); rewrite <- Hnorm; f_equal; lia. }
  assert (Hminus : match chars ip ++ tail ++ rest with
                   | c :: _ => Ascii.eqb c "-" = false
                   | [] => True
                   end).
  { destruct Hhead as [E|(d & r & E & _)]; rewrite E; [done|].
    rewrite E in Hip. apply Forall_inv in Hip. simpl.
    by apply digit_char_not_minus. }
  rewrite <- app_assoc.
  destruct (m <? 0)%Z eqn:Hneg; simpl app.
  - rewrite parse_number_signed. unfold parse_magnitude.
    rewrite Hint, Hfrac, (parse_exp_delimited _ Hrest). by rewrite Hmk.
  - destruct (chars ip ++ tail ++ rest) as [|c r] eqn:E; [done|].
    rewrite (parse_number_unsigned _ _ Hminus). unfold parse_magnitude.
    rewrite Hint, Hfrac, (parse_exp_delimited _ Hrest).
    by rewrite Hmk.
Qed.

Lemma number_safe_spec n :
  number_safe n = true ->
  normalize (mant n) (scale n) = n /\
  number_chars n =
    (if (mant n <? 0)%Z then ["-"%char] else [])
    ++ positional (digits_of_N (Z.abs_N (mant n))) (scale n).
Proof.
  unfold number_safe, number_chars. destruct n as [m e]. simpl mant. simpl scale.
  destruct (normalize m e) as [m' e'] eqn:E. simpl.
  rewrite !andb_true_iff, Z.eqb_eq, Nat.eqb_eq. intros [[-> ->] Hr].
  split; [done|]. by rewrite Hr.
Qed.

Lemma parse_number_chars n rest :
  number_safe n = true -> delimited rest = true ->
  parse_number (number_chars n ++ rest) = Some (n, rest).
Proof.
  intros Hs Hrest. destruct (number_safe_spec n Hs) as [Hn ->].
  destruct n as [m e]. rewrite <- app_assoc. by apply parse_number_positional.
Qed.

(** ** Strings *)

Lemma parse_string_char (c : ascii) (tail : list ascii) :
  parse_string_body (quote_char c ++ tail) = cons_to [c] (parse_string_body tail).
Proof.
  destruct c as [[] [] [] [] [] [] [] []]; reflexivity.
Qed.

Lemma parse_string_quoted (cs rest : list ascii) :
  parse_string_body (flat_map quote_char cs ++ dquote :: rest) = Some (cs, rest).
Proof.
  induction cs as [|c cs IH]; [done|].
  simpl flat_map. rewrite <- app_assoc, parse_string_char, IH. done.
Qed.

(** ** Values *)

Lemma value_ind' (P : value -> Prop) :
  P VUndef -> P VNull -> (forall b, P (VBool b)) -> (forall n, P (VNum n)) ->
  (forall s, P (VStr s)) ->
  (forall l, Forall P l -> P (VArr l)) ->
  (forall o, Forall (fun kv => P (snd kv)) o -> P (VObj o)) ->
  forall v, P v.
Proof.
  intros H1 H2 H3 H4 H5 H6 H7. fix IH 1.
  intros [| |b|n|s|l|o]; [exact H1|exact H2|apply H3|apply H4|apply H5| |].
  - apply H6. induction l as [|x l IHl]; constructor; [apply IH|exact IHl].
  - apply H7. induction o as [|[k x] o IHo]; constructor; [apply IH|exact IHo].
Qed.

Lemma number_start_dispatch c :
  number_start c = true ->
  value_start c = true /\
  Ascii.eqb c dquote = false /\ Ascii.eqb c "[" = false /\ Ascii.eqb c "{" = false /\
  Ascii.eqb c "t" = false /\ Ascii.eqb c "f" = false /\ Ascii.eqb c "n" = false.
Proof. destruct c as [[] [] [] [] [] [] [] []]; vm_compute; intros; try discriminate; repeat split. Qed.

Lemma number_chars_head n :
  number_safe n = true ->
  exists c r, number_chars n = c :: r /\ number_start c = true.
Proof.
  intros Hs. destruct (number_safe_spec n Hs) as [_ ->]. unfold positional.
  destruct (positional_parts (Z.abs_N (mant n)) (scale n)) as (_ & _ & Hip & _ & Hh).
  destruct (mant n <? 0)%Z; [by eexists _, _|]. simpl app.
  destruct Hh as [E|(d & r & E & _)]; rewrite E in *; [by eexists _, _|].
  apply Forall_inv in Hip. simpl in Hip. eexists _, _. split; [reflexivity|].
  unfold number_start. destruct (digit_char_digit d Hip) as [-> _]. apply orb_true_r.
Qed.

Lemma ser_head v :
  json_safe v = true -> exists c r, ser v = c :: r /\ value_start c = true.
Proof.
  destruct v as [| |[]|n|s|l|o]; simpl; intros H; try discriminate;
    try (by eexists _, _).
  destruct (number_chars_head n H) as (c & r & -> & Hc).
  exists c, r. split; [done|]. by apply number_start_dispatch.
Qed.

Lemma skip_ws_start c r : value_start c = true -> skip_ws (c :: r) = c :: r.
Proof.
  unfold value_start. simpl. destruct (is_ws c); [done|done].
Qed.

Lemma skip_ws_delimited rest : delimited rest = true -> skip_ws rest = rest.
Proof.
  intros H. destruct (delimited_cases _ H) as [->|(c & r & -> & [->|[->| ->]])]; done.
Qed.

Lemma commas_cons (x : list ascii) (xs : list (list ascii)) :
  commas (x :: xs) = x ++ match xs with [] => [] | _ => ","%char :: commas xs end.
Proof. destruct xs; simpl; by rewrite ?app_nil_r. Qed.

Lemma skip_ws_punct (c : ascii) x :
  (c = "," \/ c = ":" \/ c = dquote \/ c = "]" \/ c = "}")%char ->
  skip_ws (c :: x) = c :: x.
Proof. intros [->|[->|[->|[->| ->]]]]; reflexivity. Qed.

Lemma parse_elements_ser pv (l : list value) : forall (k : nat) rest,
  l <> [] -> Forall (parses pv) l -> (length l <= k)%nat ->
  parse_elements pv k (commas (map ser l) ++ "]"%char :: rest) = Some (l, rest).
Proof.
  induction l as [|v l IH]; intros k rest Hne Hall Hk; [done|].
  apply Forall_cons in Hall as [Hv Hl].
  destruct k as [|k]; [simpl in Hk; lia|].
  simpl map. rewrite commas_cons, <- app_assoc. simpl parse_elements.
  destruct l as [|v2 l].
  - simpl app. rewrite (Hv ("]"%char :: rest) eq_refl). done.
  - match goal with |- context [match ?m with [] => [] | _ :: _ => ?t end] =>
      change (match m with [] => [] | _ :: _ => t end) with t end.
    rewrite <- app_comm_cons. rewrite (Hv (","%char :: _) eq_refl).
    rewrite skip_ws_punct by auto.
    change (Ascii.eqb "," ",") with true. cbv iota.
    rewrite (IH k rest); [done|done|done|simpl in *; lia].
Qed.

Lemma parse_members_ser pv (o : list (string * value)) : forall (k : nat) rest,
  o <> [] -> Forall (fun kv => parses pv (snd kv)) o -> (length o <= k)%nat ->
  parse_members pv k (commas (map member_chars o) ++ "}"%char :: rest) = Some (o, rest).
Proof.
  induction o as [|[key v] o IH]; intros k rest Hne Hall Hk; [done|].
  apply Forall_cons in Hall as [Hv Hl]. simpl in Hv.
  destruct k as [|k]; [simpl in Hk; lia|].
  simpl map. rewrite commas_cons, <- app_assoc. unfold member_chars at 1.
  simpl fst. simpl snd. unfold quote. simpl parse_members.
  rewrite <- !app_assoc, <- !app_comm_cons, !app_nil_l.
  rewrite parse_string_quoted.
  rewrite skip_ws_punct by auto.
  change (Ascii.eqb ":" ":") with true. cbv iota.
  rewrite string_of_list_ascii_of_string.
  destruct o as [|kv2 o].
  - simpl app. rewrite (Hv ("}"%char :: rest) eq_refl). done.
  - match goal with |- context [match ?m with [] => [] | _ :: _ => ?t end] =>
      change (match m with [] => [] | _ :: _ => t end) with t end.
    rewrite <- app_comm_cons. rewrite (Hv (","%char :: _) eq_refl).
    rewrite skip_ws_punct by auto.
    change (Ascii.eqb "," ",") with true. cbv iota.
    rewrite (IH k rest); [done|done|done|simpl in *; lia].
Qed.

Lemma ser_members (o : list (string * value)) :
  forallb (fun kv => plain_key (fst kv) && json_safe (snd kv)) o = true ->
  ser (VObj o) = "{"%char :: commas (map member_chars o) ++ ["}"%char].
Proof.
  intros H. simpl. do 3 f_equal.
  induction o as [|[k v] o IH]; [done|]. simpl in H.
  apply andb_true_iff in H as [Hkv Ho]. apply andb_true_iff in Hkv as [_ Hv].
  simpl. rewrite (IH Ho). by destruct v.
Qed.

Lemma obj_set_fresh k v (o : object) :
  existsb (String.eqb k) (map fst o) = false -> obj_set k v o = o ++ [(k, v)].
Proof.
  induction o as [|[k' v'] o IH]; [done|]. simpl.
  intros H. apply orb_false_iff in H as [-> H]. by rewrite IH.
Qed.

Lemma obj_of_entries_distinct (o : list (string * value)) :
  distinct (map fst o) = true -> obj_of_entries o = o.
Proof.
  unfold obj_of_entries.
  assert (G : forall acc,
             distinct (map fst o) = true ->
             forallb (fun k => negb (existsb (String.eqb k) (map fst acc))) (map fst o) = true ->
             fold_left (fun a kv => obj_set kv.1 kv.2 a) o acc = acc ++ o).
  { induction o as [|[k v] o IH]; intros acc Hd Hf; simpl; [by rewrite app_nil_r|].
    simpl in Hd, Hf. apply andb_true_iff in Hd as [Hk Hd].
    apply andb_true_iff in Hf as [Hka Hf].
    rewrite obj_set_fresh by by apply negb_true_iff.
    rewrite IH; [by rewrite <- app_assoc|done|].
    apply forallb_forall. intros k' Hk'.
    rewrite forallb_forall in Hf. specialize (Hf k' Hk').
    rewrite map_app, existsb_app. simpl.
    apply negb_true_iff in Hf. rewrite Hf. simpl. rewrite orb_false_r.
    apply negb_true_iff. destruct (String.eqb_spec k' k) as [->|]; [|done].
    apply negb_true_iff in Hk. rewrite <- Hk. symmetry.
    apply existsb_exists. exists k. split; [done|apply String.eqb_refl]. }
  intros Hd. rewrite G; [done|done|]. apply forallb_forall. done.
Qed.

Lemma list_sum_bound {X} (f : X -> nat) (l : list X) x :
  In x l -> (f x <= list_sum (map f l))%nat.
Proof.
  induction l as [|y l IH]; simpl; [done|]. intros [->|H]; [lia|].
  specialize (IH H). lia.
Qed.

Lemma list_sum_length {X} (f : X -> nat) (l : list X) :
  (forall x, In x l -> 1 <= f x)%nat -> (length l <= list_sum (map f l))%nat.
Proof.
  induction l as [|y l IH]; simpl; [done|]. intros H.
  pose proof (H y (or_introl eq_refl)). specialize (IH (fun x Hx => H x (or_intror Hx))).
  lia.
Qed.

Lemma size_pos v : (1 <= size v)%nat.
Proof. destruct v; simpl; lia. Qed.

Lemma parse_value_number f c r :
  number_start c = true ->
  parse_value (S f) (c :: r) =
  match parse_number (c :: r) with
  | Some (n, rest) => Some (VNum n, rest)
  | None => None
  end.
Proof.
  intros H. destruct (number_start_dispatch c H) as (H0 & H1 & H2 & H3 & H4 & H5 & H6).
  cbn [parse_value]. rewrite (skip_ws_start c r H0), H1, H2, H3, H4, H5, H6. done.
Qed.

Lemma value_start_not_close c :
  value_start c = true -> Ascii.eqb c "]" = false /\ Ascii.eqb c "}" = false.
Proof.
  unfold value_start. rewrite !andb_true_iff, !negb_true_iff. tauto.
Qed.

Lemma parse_value_array f c r :
  value_start c = true ->
  parse_value (S f) ("["%char :: c :: r) =
  match parse_elements (parse_value f) f (c :: r) with
  | Some (l, rest) => Some (VArr l, rest)
  | None => None
  end.
Proof.
  intros Hc. cbn [parse_value].
  change (skip_ws ("["%char :: c :: r)) with ("["%char :: c :: r). cbv iota.
  change (Ascii.eqb "[" dquote) with false. change (Ascii.eqb "[" "[") with true.
  cbv iota. rewrite (skip_ws_start c r Hc).
  by destruct (value_start_not_close c Hc) as [-> _].
Qed.

Lemma parse_value_object f r :
  parse_value (S f) ("{"%char :: dquote :: r) =
  match parse_members (parse_value f) f (dquote :: r) with
  | Some (l, rest) => Some (VObj (obj_of_entries l), rest)
  | None => None
  end.
Proof. reflexivity. Qed.

Lemma commas_head (x : list ascii) xs tail c r :
  x = c :: r -> exists r', commas (x :: xs) ++ tail = c :: r'.
Proof. intros ->. rewrite commas_cons, <- !app_comm_cons. by eexists. Qed.

Theorem parse_value_ser (v : value) :
  json_safe v = true ->
  forall (fuel : nat) rest, (size v <= fuel)%nat -> delimited rest = true ->
  parse_value fuel (ser v ++ rest) = Some (v, rest).
Proof.
  induction v as [| |b|n|s|l IH|o IH] using value_ind'; intros Hs fuel rest Hf Hrest;
    (destruct fuel as [|f]; [simpl in Hf; lia|]).
  - done.
  - done.
  - by destruct b.
  - simpl in Hs. simpl ser.
    destruct (number_chars_head n Hs) as (c & r & E & Hc).
    pose proof (parse_number_chars n rest Hs Hrest) as Hp.
    rewrite E in *. rewrite <- app_comm_cons in *.
    by rewrite (parse_value_number f c _ Hc), Hp.
  - simpl ser. unfold quote. rewrite <- app_comm_cons, <- app_assoc.
    simpl parse_value. simpl app. rewrite parse_string_quoted.
    by rewrite string_of_list_ascii_of_string.
  - simpl in Hs, Hf. simpl ser. rewrite <- app_comm_cons, <- app_assoc.
    change (["]"%char] ++ rest) with ("]"%char :: rest).
    destruct l as [|v l]; [done|].
    assert (Hv : json_safe v = true) by (simpl in Hs; by apply andb_true_iff in Hs as [? _]).
    destruct (ser_head v Hv) as (c & r & E & Hc).
    destruct (commas_head (ser v) (map ser l) ("]"%char :: rest) c r E) as [r' E'].
    change (ser v :: map ser l) with (map ser (v :: l)) in E'.
    rewrite E', (parse_value_array f c r' Hc), <- E'.
    rewrite (parse_elements_ser (parse_value f) (v :: l) f rest); [done|done| |].
    + rewrite Forall_forall in IH. apply Forall_forall. intros x Hx rest' Hrest'.
      apply IH; [done| |  |done].
      * rewrite forallb_forall in Hs. by apply Hs, list_elem_of_In.
      * pose proof (list_sum_bound size (v :: l) x (proj1 (list_elem_of_In _ _) Hx)). lia.
    + pose proof (list_sum_length size (v :: l) (fun x _ => size_pos x)). lia.
  - simpl in Hs, Hf. apply andb_true_iff in Hs as [Hd Hs].
    rewrite (ser_members o Hs). rewrite <- app_comm_cons, <- app_assoc.
    change (["}"%char] ++ rest) with ("}"%char :: rest).
    destruct o as [|[k v] o]; [done|].
    destruct (commas_head (member_chars (k, v)) (map member_chars o)
                ("}"%char :: rest) dquote
                (flat_map quote_char (list_ascii_of_string k) ++ [dquote]
                 ++ ":"%char :: ser v)) as [r' E'].
    { unfold member_chars, quote. simpl. by rewrite <- app_assoc. }
    change (member_chars (k, v) :: map member_chars o)
      with (map member_chars ((k, v) :: o)) in E'.
    rewrite E', parse_value_object, <- E'.
    rewrite (parse_members_ser (parse_value f) ((k, v) :: o) f rest); [|done| |].
    + by rewrite obj_of_entries_distinct.
    + rewrite Forall_forall in IH. apply Forall_forall. intros x Hx rest' Hrest'.
      apply IH; [done| | |done].
      * rewrite forallb_forall in Hs. apply list_elem_of_In, Hs in Hx.
        by apply andb_true_iff in Hx as [_ ?].
      * pose proof (list_sum_bound (fun kv => size (snd kv)) ((k, v) :: o) x
                      (proj1 (list_elem_of_In _ _) Hx)). lia.
    + pose proof (list_sum_length (fun kv => size (snd kv)) ((k, v) :: o)
                    (fun x _ => size_pos (snd x))). lia.
Qed.

Lemma commas_length (xs : list (list ascii)) :
  (list_sum (map (@length ascii) xs) <= length (commas xs))%nat.
Proof.
  induction xs as [|x xs IH]; [done|]. rewrite commas_cons, length_app. simpl.
  destruct xs; simpl in *; lia.
Qed.

Lemma list_sum_le {X} (f g : X -> nat) (l : list X) :
  Forall (fun x => f x <= g x)%nat l -> (list_sum (map f l) <= list_sum (map g l))%nat.
Proof. induction 1; simpl; lia. Qed.

Lemma size_le_length (v : value) :
  json_safe v = true -> (size v <= length (ser v))%nat.
Proof.
  induction v as [| |b|n|s|l IH|o IH] using value_ind'; intros Hs;
    try (destruct (ser_head _ Hs) as (c & r & -> & _); simpl; lia).
  - simpl in Hs. simpl ser. simpl size. cbn [length]. rewrite length_app. simpl.
    pose proof (commas_length (map ser l)) as Hc. rewrite map_map in Hc.
    assert (list_sum (map size l) <= list_sum (map (fun x => length (ser x)) l))%nat; [|lia].
    apply list_sum_le. rewrite Forall_forall in *. intros x Hx. apply IH; [done|].
    rewrite forallb_forall in Hs. by apply Hs, list_elem_of_In.
  - simpl in Hs. apply andb_true_iff in Hs as [_ Hs].
    rewrite (ser_members o Hs). simpl size. cbn [length]. rewrite length_app. simpl.
    pose proof (commas_length (map member_chars o)) as Hc. rewrite map_map in Hc.
    assert (list_sum (map (fun kv => size (snd kv)) o)
            <= list_sum (map (fun x => length (member_chars x)) o))%nat; [|lia].
    apply list_sum_le. rewrite Forall_forall in *. intros x Hx.
    unfold member_chars. rewrite length_app. simpl.
    assert (size (snd x) <= length (ser (snd x)))%nat; [|lia].
    apply IH; [done|]. rewrite forallb_forall in Hs.
    apply list_elem_of_In, Hs in Hx. by apply andb_true_iff in Hx as [_ ?].
Qed.

(** [JSON.parse(JSON.stringify(v))] is [v]. *)
Theorem parse_stringify (v : value) :
  json_safe v = true ->
  exists text, stringify v = VStr text /\ text <> "" /\ Json.parse text = Ok v.
Proof.
  intros Hs. exists (string_of_list_ascii (ser v)). split; [|split].
  - destruct v; try done.
  - destruct (ser_head v Hs) as (c & r & -> & _). done.
  - unfold Json.parse. rewrite list_ascii_of_string_of_list_ascii.
    pose proof (parse_value_ser v Hs (S (length (ser v))) [] ) as H.
    rewrite app_nil_r in H. rewrite H; [done| |done].
    pose proof (size_le_length v Hs). lia.
Qed.

(** ** Persistence *)

Section Persistence.

Import Filmoteca.

Lemma loadMovies_world (w : world) : snd (loadMovies w) = w.
Proof.
  unfold loadMovies, bind, getItem. simpl.
  by destruct (truthy _).
Qed.

Lemma loadMovies_absent (w : world) :
  storage w !! STORAGE_KEY = None -> fst (loadMovies w) = Ok (VArr []).
Proof. intros H. unfold loadMovies, bind, getItem. by rewrite H. Qed.

Lemma loadMovies_present (w : world) (text : string) :
  storage w !! STORAGE_KEY = Some text ->
  fst (loadMovies w) = if String.eqb text "" then Ok (VArr []) else Json.parse text.
Proof.
  intros H. unfold loadMovies, bind, getItem. rewrite H. simpl.
  by destruct (String.eqb text "").
Qed.

(** C1, as the code has it.  [loadMovies] leaves the browser as it was.  With
    no value under the key, or with the empty string there, it returns the
    empty list; with a text that decodes it returns the decoded value; with a
    text that does not decode, the [SyntaxError] of the decoder reaches the
    caller. *)
Theorem load_decodes_or_raises (w : world) :
  snd (loadMovies w) = w /\
  (storage w !! STORAGE_KEY = None -> fst (loadMovies w) = Ok (VArr [])) /\
  (storage w !! STORAGE_KEY = Some "" -> fst (loadMovies w) = Ok (VArr [])) /\
  (forall text v, storage w !! STORAGE_KEY = Some text ->
     Json.parse text = Ok v -> fst (loadMovies w) = Ok v) /\
  (forall text e, storage w !! STORAGE_KEY = Some text -> text <> "" ->
     Json.parse text = Throw e ->
     e = SyntaxError /\ fst (loadMovies w) = Throw SyntaxError).
Proof.
  split; [apply loadMovies_world|]. split; [apply loadMovies_absent|].
  split; [intros H; by rewrite (loadMovies_present w "" H)|]. split.
  - intros text v H Hp. rewrite (loadMovies_present w text H).
    destruct (String.eqb_spec text "") as [->|_]; [discriminate Hp|done].
  - intros text e H Hne Hp. rewrite (loadMovies_present w text H).
    apply String.eqb_neq in Hne. rewrite Hne, Hp.
    assert (e = SyntaxError) as ->; [|done].
    unfold Json.parse in Hp.
    destruct (parse_value _ _) as [[v rest]|]; [|congruence].
    destruct (skip_ws rest); congruence.
Qed.

Lemma load_decodes_or_raises_witness :
  storage corrupt_world !! STORAGE_KEY = Some "{" /\
  "{" <> "" /\
  Json.parse "{" = Throw SyntaxError /\
  fst (loadMovies corrupt_world) = Throw SyntaxError.
Proof.
  split; [reflexivity|]. split; [discriminate|]. split; [reflexivity|].
  destruct (load_decodes_or_raises corrupt_world) as (_ & _ & _ & _ & H).
  apply (H "{" SyntaxError); [reflexivity|discriminate|reflexivity].
Defined.

(** C1, as stated, fails when the stored text is not JSON: the error is
    raised, and no empty list is returned. *)
Lemma load_corrupt_counterexample :
  ~ (forall (w : world) text e,
       storage w !! STORAGE_KEY = Some text -> Json.parse text = Throw e ->
       fst (loadMovies w) = Ok (VArr [])).
Proof.
  intros H. specialize (H corrupt_world "{" SyntaxError eq_refl eq_refl).
  vm_compute in H. discriminate H.
Qed.

(** C5. A well-formed list that is saved is the list that is loaded; after
    [clearMovies] the empty list is loaded, as it is after saving the empty
    list. *)
Theorem save_then_load (X : list object) (w : world) :
  json_safe (movies_value X) = true ->
  fst (loadMovies (snd (saveMovies (movies_value X) (snd (loadMovies w)))))
    = Ok (movies_value X) /\
  fst (loadMovies (snd (clearMovies w))) = Ok (VArr []) /\
  fst (loadMovies (snd (saveMovies (movies_value []) w))) = Ok (VArr []).
Proof.
  intros Hs.
  assert (Hsave : forall v w0, json_safe v = true ->
            fst (loadMovies (snd (saveMovies v w0))) = Ok v).
  { intros v w0 Hv. destruct (parse_stringify v Hv) as (text & E & Hne & Hp).
    rewrite (loadMovies_present _ text).
    - apply String.eqb_neq in Hne. by rewrite Hne.
    - unfold saveMovies, setItem. simpl. rewrite E. apply lookup_insert_eq. }
  split; [by apply Hsave|]. split; [|by apply Hsave].
  apply loadMovies_absent. unfold clearMovies, bind, removeItem, console_log.
  simpl. apply lookup_delete_eq.
Qed.

Lemma save_then_load_witness :
  json_safe (movies_value two_movies) = true /\
  fst (loadMovies (snd (saveMovies (movies_value two_movies)
                          (snd (loadMovies corrupt_world)))))
    = Ok (movies_value two_movies).
Proof.
  split; [reflexivity|].
  apply (save_then_load two_movies corrupt_world). reflexivity.
Defined.

(** What the storage holds after the two movies have been saved. *)
Example saved_text :
  exists text,
    storage (snd (saveMovies (movies_value two_movies) empty_world)) !! STORAGE_KEY
      = Some text /\
    Json.parse text = Ok (movies_value two_movies).
Proof. eexists. split; [reflexivity|]. vm_compute. reflexivity. Qed.

End Persistence.


(** ** Examples *)

Example parse_array :
  Json.parse " [1, -2.50, 1e2, true, null, [ ], {} ] "
  = Ok (VArr [int 1; VNum (Num (-25) 1); int 100; VBool true; VNull; VArr []; VObj []]).
Proof. reflexivity. Qed.

Example parse_rejects :
  Json.parse "" = Throw SyntaxError /\ Json.parse "{" = Throw SyntaxError /\
  Json.parse "[1,]" = Throw SyntaxError /\ Json.parse "01" = Throw SyntaxError /\
  Json.parse "nul" = Throw SyntaxError /\ Json.parse "1 2" = Throw SyntaxError /\
  Json.parse "undefined" = Throw SyntaxError.
Proof. repeat split. Qed.

Example stringify_skips_undefined :
  Json.stringify (VObj [("a", VUndef); ("b", VArr [VUndef; int 1])])
  = VStr (string_of_list_ascii (Json.ser (VObj [("b", VArr [VNull; int 1])]))).
Proof. reflexivity. Qed.

Example number_to_string_decimal : to_string (VNum (Num 84 1)) = "8.4". Proof. reflexivity. Qed.
Example number_to_string_negative_fraction : to_string (VNum (Num (-5) 3)) = "-0.005". Proof. reflexivity. Qed.
Example number_to_string_integer : to_string (int 680) = "680". Proof. reflexivity. Qed.
Example number_to_string_small_exponent : to_string (VNum (Num 1 7)) = "1e-7". Proof. reflexivity. Qed.
Example number_to_string_large_exponent : to_string (VNum (Num 1000000000000000000000 0)) = "1e+21". Proof. reflexivity. Qed.
Example number_to_string_mantissa_exponent : to_string (VNum (Num 123 9)) = "1.23e-7". Proof. reflexivity. Qed.
Example number_to_string_trailing_zero : to_string (VNum (Num 840 2)) = "8.4". Proof. reflexivity. Qed.
Example number_to_string_zero : to_string (VNum (Num 0 0)) = "0". Proof. reflexivity. Qed.
Example number_to_string_smallest_positional : to_string (VNum (Num 1 6)) = "0.000001". Proof. reflexivity. Qed.
Example number_to_string_largest_positional : to_string (VNum (Num 100000000000000000000 0)) = "100000000000000000000". Proof. reflexivity. Qed.

(** * Further properties *)

(** ** The collection engine: how the operations compose *)

Section EngineMore.

Import Filmoteca.

Implicit Types (L : list object) (id r : value) (m patch : object).

Lemma num_eqb_refl n : num_eqb n n = true.
Proof. unfold num_eqb. apply Z.eqb_refl. Qed.

Lemma strict_eq_refl v : primitive v = true -> strict_eq v v = true.
Proof.
  destruct v as [| |b|n|s|l|o]; simpl; try done.
  - by destruct b.
  - intros _. apply num_eqb_refl.
  - intros _. apply String.eqb_refl.
Qed.

Lemma strict_eq_sym a b : strict_eq a b = strict_eq b a.
Proof.
  destruct a as [| |x|x|x|x|x], b as [| |y|y|y|y|y]; simpl; try done.
  - by destruct x, y.
  - unfold num_eqb. apply Z.eqb_sym.
  - apply String.eqb_sym.
Qed.

Lemma movieExists_ids L id :
  movieExists L id = existsb (fun x => strict_eq x id) (map (obj_get "id") L).
Proof. unfold movieExists. induction L as [|m L IH]; simpl; [done|]. by rewrite IH. Qed.

Lemma movieExists_app L1 L2 id :
  movieExists (L1 ++ L2) id = movieExists L1 id || movieExists L2 id.
Proof. unfold movieExists. apply existsb_app. Qed.

(** X1. A movie whose id is a primitive value is found by [movieExists]
    under that id as soon as [addMovie] has returned; any id is found after
    the addition exactly when it was found before or is the id of the new
    movie.  The new movie goes to the end: the list is one longer and every
    earlier movie keeps its position. *)
Theorem added_movie_exists L m :
  primitive (obj_get "id" m) = true ->
  movieExists (addMovie L m) (obj_get "id" m) = true /\
  (forall id, movieExists (addMovie L m) id = movieExists L id || has_id id m) /\
  length (addMovie L m) = S (length L) /\
  (forall (i : nat) x, L !! i = Some x -> addMovie L m !! i = Some x) /\
  addMovie L m !! length L = Some m.
Proof.
  intros Hp. unfold addMovie.
  assert (H : forall id, movieExists (L ++ [m]) id = movieExists L id || has_id id m).
  { intros id. rewrite movieExists_app. simpl. unfold has_id. by rewrite orb_false_r. }
  split; [|split; [exact H|split; [|split]]].
  - rewrite H. unfold has_id. rewrite (strict_eq_refl _ Hp). apply orb_true_r.
  - rewrite length_app. simpl. lia.
  - intros i x Hi. by apply lookup_app_l_Some.
  - by apply list_lookup_middle.
Qed.

Lemma deleteMovie_app L1 L2 id :
  deleteMovie (L1 ++ L2) id = deleteMovie L1 id ++ deleteMovie L2 id.
Proof. unfold deleteMovie. apply List.filter_app. Qed.

Lemma deleteMovie_unknown L id : movieExists L id = false -> deleteMovie L id = L.
Proof.
  intros H. unfold deleteMovie. apply filter_all. intros m Hm.
  apply (proj1 (movieExists_false L id) H) in Hm. unfold has_id in Hm. by rewrite Hm.
Qed.

(** X2. Adding a movie under an id that no movie of the collection has,
    and then deleting that id, gives the collection back as it was. *)
Theorem delete_undoes_add L m :
  primitive (obj_get "id" m) = true ->
  movieExists L (obj_get "id" m) = false ->
  deleteMovie (addMovie L m) (obj_get "id" m) = L.
Proof.
  intros Hp Hn. unfold addMovie. rewrite deleteMovie_app, (deleteMovie_unknown _ _ Hn).
  unfold deleteMovie. simpl. rewrite (strict_eq_refl _ Hp). simpl. apply app_nil_r.
Qed.

Lemma has_id_spread id m patch :
  has_key "id" patch = false -> has_id id (spread m patch) = has_id id m.
Proof.
  unfold has_id, spread, has_key. revert m.
  induction patch as [|[k v] patch IH]; intros m H; [done|].
  cbn [map fst existsb] in H. apply orb_false_iff in H as [Hk H].
  cbn [fold_left fst snd].
  rewrite (IH _ H). rewrite obj_get_set_ne; [done|].
  apply String.eqb_neq in Hk. congruence.
Qed.

Lemma obj_get_spread_id m patch :
  has_key "id" patch = false -> obj_get "id" (spread m patch) = obj_get "id" m.
Proof.
  unfold spread, has_key. revert m.
  induction patch as [|[k v] patch IH]; intros m H; [done|].
  cbn [map fst existsb] in H. apply orb_false_iff in H as [Hk H].
  cbn [fold_left fst snd].
  rewrite (IH _ H). apply obj_get_set_ne.
  apply String.eqb_neq in Hk. congruence.
Qed.

Lemma updateMovie_ids L id patch :
  has_key "id" patch = false ->
  map (obj_get "id") (updateMovie L id patch) = map (obj_get "id") L.
Proof.
  intros H. unfold updateMovie. rewrite map_map. apply map_ext. intros m.
  destruct (strict_eq _ _); [by apply obj_get_spread_id|done].
Qed.

Lemma existsb_filter_false {X} (f g : X -> bool) (l : list X) :
  existsb f l = false -> existsb f (List.filter g l) = false.
Proof.
  induction l as [|x l IH]; simpl; [done|]. intros H.
  apply orb_false_iff in H as [Hx Hl]. destruct (g x); simpl; rewrite ?Hx; auto.
Qed.

Lemma distinct_ids_filter (g : value -> bool) (ids : list value) :
  distinct_ids ids = true -> distinct_ids (List.filter g ids) = true.
Proof.
  induction ids as [|x ids IH]; simpl; [done|]. intros H.
  apply andb_true_iff in H as [Hx Hd]. apply negb_true_iff in Hx.
  destruct (g x); simpl; [|auto].
  rewrite (existsb_filter_false _ g _ Hx). simpl. auto.
Qed.

Lemma deleteMovie_ids L id :
  map (obj_get "id") (deleteMovie L id)
  = List.filter (fun x => negb (strict_eq x id)) (map (obj_get "id") L).
Proof.
  unfold deleteMovie. induction L as [|m L IH]; simpl; [done|].
  destruct (strict_eq _ _); simpl; by rewrite IH.
Qed.

Lemma distinct_ids_snoc (ids : list value) (x : value) :
  distinct_ids ids = true -> existsb (fun y => strict_eq y x) ids = false ->
  distinct_ids (ids ++ [x]) = true.
Proof.
  induction ids as [|y ids IH]; simpl; [done|]. intros H Hx.
  apply andb_true_iff in H as [Hy Hd]. apply orb_false_iff in Hx as [Hyx Hx].
  rewrite existsb_app. simpl. apply negb_true_iff in Hy. rewrite Hy. simpl.
  rewrite strict_eq_sym, Hyx. simpl. auto.
Qed.

(** X3. A collection in which no two movies share an id stays so under
    [deleteMovie], under [updateMovie] with a patch that does not write [id],
    under [rateMovie], and under [addMovie] of a movie whose id
    [movieExists] does not find. *)
Theorem unique_ids_kept L :
  unique_ids L = true ->
  (forall id, unique_ids (deleteMovie L id) = true) /\
  (forall id patch, has_key "id" patch = false ->
     unique_ids (updateMovie L id patch) = true) /\
  (forall id r, unique_ids (rateMovie L id r) = true) /\
  (forall m, movieExists L (obj_get "id" m) = false ->
     unique_ids (addMovie L m) = true).
Proof.
  unfold unique_ids. intros H. split; [|split; [|split]].
  - intros id. rewrite deleteMovie_ids. by apply distinct_ids_filter.
  - intros id patch Hp. by rewrite updateMovie_ids.
  - intros id r. unfold rateMovie. by rewrite updateMovie_ids.
  - intros m Hm. unfold addMovie. rewrite map_app. simpl.
    apply distinct_ids_snoc; [done|]. by rewrite <- movieExists_ids.
Qed.

Lemma spread_app m p1 p2 : spread (spread m p1) p2 = spread m (p1 ++ p2).
Proof. unfold spread. by rewrite fold_left_app. Qed.

(** X4. Two updates of the same id with patches that leave [id] alone
    are one update with the two patches laid one over the other; the empty
    patch changes nothing; such an update changes no answer of
    [movieExists]. *)
Theorem updates_compose L id p1 p2 :
  has_key "id" p1 = false ->
  updateMovie (updateMovie L id p1) id p2 = updateMovie L id (p1 ++ p2) /\
  updateMovie L id [] = L /\
  (forall x, movieExists (updateMovie L id p1) x = movieExists L x).
Proof.
  intros H. split; [|split].
  - unfold updateMovie. rewrite map_map. apply map_ext. intros m.
    fold (has_id id m). destruct (has_id id m) eqn:E.
    + fold (has_id id (spread m p1)). rewrite (has_id_spread _ _ _ H), E.
      apply spread_app.
    + fold (has_id id m). by rewrite E.
  - unfold updateMovie. rewrite <- (map_id L) at 2. apply map_ext. intros m.
    by destruct (strict_eq _ _).
  - intros x. by rewrite !movieExists_ids, updateMovie_ids.
Qed.

Lemma filter_filter_comm {X} (f g : X -> bool) (l : list X) :
  List.filter f (List.filter g l) = List.filter g (List.filter f l).
Proof.
  induction l as [|x l IH]; simpl; [done|].
  destruct (f x) eqn:Ef, (g x) eqn:Eg; simpl; rewrite ?Ef, ?Eg, ?IH; done.
Qed.

Lemma filter_idem {X} (f : X -> bool) (l : list X) :
  List.filter f (List.filter f l) = List.filter f l.
Proof.
  induction l as [|x l IH]; simpl; [done|].
  destruct (f x) eqn:Ef; simpl; rewrite ?Ef, ?IH; done.
Qed.

(** X5. Deletions commute and deleting twice is deleting once; once an
    id is deleted an update of it changes nothing; deleting after an update
    of the same id is the same as deleting at once; a deletion never makes
    the collection longer. *)
Theorem deletes_compose L a b patch :
  deleteMovie (deleteMovie L a) b = deleteMovie (deleteMovie L b) a /\
  deleteMovie (deleteMovie L a) a = deleteMovie L a /\
  updateMovie (deleteMovie L a) a patch = deleteMovie L a /\
  (has_key "id" patch = false ->
   deleteMovie (updateMovie L a patch) a = deleteMovie L a) /\
  length (deleteMovie L a) <= length L.
Proof.
  split; [apply filter_filter_comm|]. split; [apply filter_idem|].
  split; [|split].
  - unfold updateMovie, deleteMovie. rewrite <- (map_id (List.filter _ L)) at 2.
    apply map_ext_in. intros m Hm. apply filter_In in Hm as [_ Hm].
    apply negb_true_iff in Hm. by rewrite Hm.
  - intros H. unfold updateMovie, deleteMovie.
    induction L as [|m L IH]; simpl; [done|].
    fold (has_id a m). destruct (has_id a m) eqn:E; simpl.
    + fold (has_id a (spread m patch)). by rewrite (has_id_spread _ _ _ H), E.
    + fold (has_id a m). rewrite E. simpl. by rewrite IH.
  - apply sublist_length, filter_sublist.
Qed.

Lemma filter_map_invariant {X} (f : X -> bool) (g : X -> X) (l : list X) :
  (forall x, f (g x) = f x) ->
  List.filter f (map g l) = map g (List.filter f l).
Proof.
  intros H. induction l as [|x l IH]; simpl; [done|].
  rewrite H. destruct (f x); simpl; by rewrite IH.
Qed.

Lemma director_is_rated name id r m :
  director_is name (spread m [("rating", r)]) = director_is name m.
Proof. unfold director_is, spread. simpl. by rewrite obj_get_set_ne. Qed.

(** X6. Listing by director twice is listing once; the listing commutes
    with the deletion of an id and with the rating of an id; every movie
    listed has exactly the director asked for. *)
Theorem director_filter_composes L (name : string) id r :
  listMoviesByDirector (listMoviesByDirector L name) name = listMoviesByDirector L name /\
  listMoviesByDirector (deleteMovie L id) name = deleteMovie (listMoviesByDirector L name) id /\
  listMoviesByDirector (rateMovie L id r) name = rateMovie (listMoviesByDirector L name) id r /\
  (forall m, In m (listMoviesByDirector L name) -> obj_get "director" m = VStr name).
Proof.
  split; [apply filter_idem|]. split; [apply filter_filter_comm|]. split.
  - unfold listMoviesByDirector, rateMovie, updateMovie.
    apply filter_map_invariant. intros m.
    destruct (strict_eq (obj_get "id" m) id); [|done].
    apply (director_is_rated name id r m).
  - intros m Hm. apply filter_In in Hm as [_ Hm]. by apply director_is_spec.
Qed.

End EngineMore.

Lemma added_movie_exists_witness :
  let m := [("id", int 550); ("title", VStr "Fight Club")] in
  primitive (obj_get "id" m) = true /\
  Filmoteca.movieExists (Filmoteca.addMovie two_movies m) (int 550) = true /\
  Filmoteca.addMovie two_movies m !! 2%nat = Some m.
Proof.
  intros m. split; [reflexivity|].
  destruct (added_movie_exists two_movies m eq_refl) as (H1 & _ & _ & _ & H2).
  split; [exact H1|exact H2].
Defined.

Lemma delete_undoes_add_witness :
  let m := [("id", int 550); ("title", VStr "Fight Club")] in
  primitive (obj_get "id" m) = true /\
  Filmoteca.movieExists two_movies (obj_get "id" m) = false /\
  Filmoteca.deleteMovie (Filmoteca.addMovie two_movies m) (int 550) = two_movies.
Proof.
  intros m. split; [reflexivity|]. split; [reflexivity|].
  apply (delete_undoes_add two_movies m); reflexivity.
Defined.

Lemma unique_ids_kept_witness :
  unique_ids two_movies = true /\
  unique_ids (Filmoteca.deleteMovie two_movies (int 13)) = true /\
  unique_ids (Filmoteca.rateMovie two_movies (int 13) (int 8)) = true.
Proof.
  split; [reflexivity|].
  destruct (unique_ids_kept two_movies eq_refl) as (H1 & _ & H3 & _).
  split; [apply H1|apply H3].
Defined.

Lemma updates_compose_witness :
  let p1 := [("title", VStr "Forrest Gump: O Contador de Histórias")] in
  let p2 := [("year", int 1995)] in
  has_key "id" p1 = false /\
  Filmoteca.updateMovie (Filmoteca.updateMovie two_movies (int 13) p1) (int 13) p2
  = Filmoteca.updateMovie two_movies (int 13) (p1 ++ p2).
Proof.
  intros p1 p2. split; [reflexivity|].
  apply (updates_compose two_movies (int 13) p1 p2). reflexivity.
Defined.

Lemma deletes_compose_witness :
  let patch := [("title", VStr "Pulp Fiction: Tempo de Violência")] in
  has_key "id" patch = false /\
  Filmoteca.deleteMovie (Filmoteca.updateMovie two_movies (int 680) patch) (int 680)
  = Filmoteca.deleteMovie two_movies (int 680).
Proof.
  intros patch. split; [reflexivity|].
  destruct (deletes_compose two_movies (int 680) (int 13) patch) as (_ & _ & _ & H & _).
  apply H. reflexivity.
Defined.

Lemma director_filter_composes_witness :
  let m := [("id", int 680); ("title", VStr "Pulp Fiction");
            ("director", VStr "Quentin Tarantino"); ("year", int 1994);
            ("overview", VStr "Sinopse não disponível"); ("posterUrl", VNull);
            ("genres", VStr "Thriller, Crime"); ("runtime", int 154);
            ("voteAverage", VNum (Num 8488 3)); ("rating", int 9)] in
  In m (Filmoteca.listMoviesByDirector two_movies "Quentin Tarantino") /\
  obj_get "director" m = VStr "Quentin Tarantino".
Proof.
  intros m.
  assert (H : In m (Filmoteca.listMoviesByDirector two_movies "Quentin Tarantino"))
    by (left; reflexivity).
  split; [exact H|].
  destruct (director_filter_composes two_movies "Quentin Tarantino" (int 13) (int 8))
    as (_ & _ & _ & Hd).
  exact (Hd m H).
Defined.

(** ** Persistence: successive saves, and the start of the page *)

Section PersistenceMore.

Import Filmoteca.

Lemma saveMovies_storage (v : value) (w : world) :
  saveMovies v w =
  (Ok tt, {| storage := <[STORAGE_KEY := to_string (Json.stringify v)]> (storage w);
             requests := requests w; console := console w; alerts := alerts w |}).
Proof. reflexivity. Qed.

Lemma load_after_save (v : value) (w : world) :
  json_safe v = true -> fst (loadMovies (snd (saveMovies v w))) = Ok v.
Proof.
  intros Hv. destruct (parse_stringify v Hv) as (text & E & Hne & Hp).
  rewrite (loadMovies_present _ text).
  - apply String.eqb_neq in Hne. by rewrite Hne.
  - rewrite saveMovies_storage. simpl. rewrite E. apply lookup_insert_eq.
Qed.

(** X7. Of two successive saves the second is what a load finds, and the
    storage is as if only the second had happened; saving writes one key of
    the storage only, sends no request and raises no alert; after
    [clearMovies] a load finds the empty collection, and the other keys are
    still untouched. *)
Theorem last_save_wins (X Y : value) (w : world) :
  json_safe Y = true ->
  let w1 := snd (saveMovies X w) in
  let w2 := snd (saveMovies Y w1) in
  fst (loadMovies w2) = Ok Y /\
  storage w2 = storage (snd (saveMovies Y w)) /\
  (forall k, k <> STORAGE_KEY -> storage w2 !! k = storage w !! k) /\
  fst (loadMovies (snd (clearMovies w2))) = Ok (VArr []) /\
  (forall k, k <> STORAGE_KEY -> storage (snd (clearMovies w2)) !! k = storage w !! k) /\
  requests w2 = requests w /\ alerts w2 = alerts w.
Proof.
  intros HY w1 w2. split; [by apply load_after_save|].
  split; [unfold w2, w1; rewrite !saveMovies_storage; simpl; apply insert_insert_eq|].
  split.
  { intros k Hk. unfold w2, w1. rewrite !saveMovies_storage. simpl.
    by rewrite !lookup_insert_ne. }
  split.
  { apply loadMovies_absent. unfold clearMovies, bind, removeItem, console_log.
    simpl. apply lookup_delete_eq. }
  split; [|done].
  intros k Hk. unfold clearMovies, bind, removeItem, console_log. simpl.
  rewrite lookup_delete_ne by done. by rewrite !lookup_insert_ne.
Qed.

(** X8. The first statements of [ui.js], on the three states the storage
    can be in.  With no value, or the empty string, under the key the
    collection starts empty and "[]" is written.  With a value that is not
    JSON the load raises, and nothing is written.  With the text of a
    well-formed value the collection is that value, it is what a reload
    finds, and running the statements again changes nothing. *)
Theorem startup_behaviour (w : world) :
  (storage w !! STORAGE_KEY = None \/ storage w !! STORAGE_KEY = Some "" ->
   exists w', Page.startup w = (Ok (VArr []), w') /\
     storage w' = <[STORAGE_KEY := "[]"]> (storage w)) /\
  (forall text e, storage w !! STORAGE_KEY = Some text -> text <> "" ->
     Json.parse text = Throw e -> Page.startup w = (Throw e, w)) /\
  (forall text v, storage w !! STORAGE_KEY = Some text ->
     Json.parse text = Ok v -> json_safe v = true ->
     exists w', Page.startup w = (Ok v, w') /\
       fst (loadMovies w') = Ok v /\
       Page.startup w' = (Ok v, w')).
Proof.
  assert (Hrun : forall w0 v, fst (loadMovies w0) = Ok v ->
            Page.startup w0 = (Ok v, snd (saveMovies v w0))).
  { intros w0 v H. unfold Page.startup, bind.
    pose proof (loadMovies_world w0) as Hw.
    destruct (loadMovies w0) as [o w1]. simpl in *. subst. reflexivity. }
  split; [|split].
  - intros H. exists (snd (saveMovies (VArr []) w)). split; [|done].
    apply Hrun. destruct H as [H|H]; [by apply loadMovies_absent|].
    by rewrite (loadMovies_present w "" H).
  - intros text e H Hne Hp. unfold Page.startup, bind.
    pose proof (loadMovies_world w) as Hw.
    pose proof (loadMovies_present w text H) as Hl.
    apply String.eqb_neq in Hne. rewrite Hne, Hp in Hl.
    destruct (loadMovies w) as [o w1]. simpl in *. by subst.
  - intros text v H Hp Hs.
    assert (Hl : fst (loadMovies w) = Ok v).
    { rewrite (loadMovies_present w text H).
      destruct (String.eqb_spec text "") as [->|_]; [discriminate Hp|done]. }
    exists (snd (saveMovies v w)). split; [by apply Hrun|].
    pose proof (load_after_save v w Hs) as Hl2. split; [exact Hl2|].
    rewrite (Hrun _ v Hl2). f_equal.
    rewrite !saveMovies_storage. simpl. f_equal. apply insert_insert_eq.
Qed.

End PersistenceMore.

Lemma last_save_wins_witness :
  json_safe (movies_value two_movies) = true /\
  fst (Filmoteca.loadMovies
         (snd (Filmoteca.saveMovies (movies_value two_movies)
                 (snd (Filmoteca.saveMovies (VArr []) empty_world)))))
  = Ok (movies_value two_movies).
Proof.
  split; [reflexivity|].
  apply (last_save_wins (VArr []) (movies_value two_movies) empty_world). reflexivity.
Defined.

Lemma startup_behaviour_witness :
  storage corrupt_world !! Filmoteca.STORAGE_KEY = Some "{" /\
  Json.parse "{" = Throw SyntaxError /\
  Page.startup corrupt_world = (Throw SyntaxError, corrupt_world) /\
  exists w', Page.startup empty_world = (Ok (VArr []), w') /\
    storage w' = <[Filmoteca.STORAGE_KEY := "[]"]> (storage empty_world).
Proof.
  destruct (startup_behaviour corrupt_world) as (_ & H & _).
  destruct (startup_behaviour empty_world) as (H0 & _).
  split; [reflexivity|]. split; [reflexivity|]. split.
  - apply (H "{" SyntaxError); [reflexivity|discriminate|reflexivity].
  - apply H0. left. reflexivity.
Defined.

(** ** The bootstrap and the storage *)

Section BootstrapMore.

Context (net : string -> fetch_result) (getFullYear : value -> value).

Lemma resetMovies_runs (w : world) :
  let result := somes (map (fetched net getFullYear) Filmoteca.DEFAULT_MOVIE_IDS) in
  Filmoteca.resetMovies net getFullYear w =
  (Ok result,
   {| storage := <[Filmoteca.STORAGE_KEY :=
                     to_string (Json.stringify (movies_value result))]> (storage w);
      requests := requests (snd (Filmoteca.resetMovies net getFullYear w));
      console := console (snd (Filmoteca.resetMovies net getFullYear w));
      alerts := alerts w |}).
Proof.
  intros result. unfold Filmoteca.resetMovies, try_catch, bind.
  match goal with |- context [promise_all ?l] =>
    assert (Hall : settles (promise_all l)
              (map (fetched net getFullYear) Filmoteca.DEFAULT_MOVIE_IDS)) end.
  { apply promise_all_settles. apply Forall2_fmap, Forall_Forall2_diag.
    apply Forall_forall. intros id _ w0.
    destruct (filmoteca_fetch_settles net getFullYear id w0) as (w1 & E1 & S1 & A1).
    exists w1. unfold try_catch. by rewrite E1. }
  destruct (Hall w) as (w1 & -> & S1 & A1). fold result. simpl.
  by rewrite S1, A1.
Qed.

(** X9. [resetMovies] returns the records of the ids whose fetch
    succeeded, raises no alert and writes one key of the storage only; when
    the records are well-formed values a load after the reset finds them; on
    a network where every details request is rejected the result is empty
    and "[]" is what the storage holds. *)
Theorem reset_result_is_stored (w : world) :
  let result := somes (map (fetched net getFullYear) Filmoteca.DEFAULT_MOVIE_IDS) in
  let w' := snd (Filmoteca.resetMovies net getFullYear w) in
  fst (Filmoteca.resetMovies net getFullYear w) = Ok result /\
  alerts w' = alerts w /\
  (forall k, k <> Filmoteca.STORAGE_KEY -> storage w' !! k = storage w !! k) /\
  (json_safe (movies_value result) = true ->
   fst (Filmoteca.loadMovies w') = Ok (movies_value result)) /\
  ((forall id, In id Filmoteca.DEFAULT_MOVIE_IDS ->
      net (Filmoteca.details_url id) = Rejected) ->
   result = [] /\ storage w' !! Filmoteca.STORAGE_KEY = Some "[]").
Proof.
  intros result w'. unfold w'. rewrite (resetMovies_runs w). fold result.
  cbn [fst snd storage alerts].
  split; [done|]. split; [done|]. split.
  { intros k Hk. by rewrite lookup_insert_ne. }
  split.
  { intros Hs. destruct (parse_stringify _ Hs) as (text & E & Hne & Hp).
    rewrite (loadMovies_present _ text).
    - apply String.eqb_neq in Hne. by rewrite Hne.
    - cbn [storage]. rewrite E. apply lookup_insert_eq. }
  intros Hdown.
  assert (E : result = []).
  { unfold result. generalize Hdown. generalize Filmoteca.DEFAULT_MOVIE_IDS.
    intros l Hl. induction l as [|id l IH]; [done|]. simpl.
    rewrite (fetched_none_details net getFullYear id); [|left; apply Hl; by left].
    apply IH. intros x Hx. apply Hl. by right. }
  split; [exact E|]. rewrite E. apply lookup_insert_eq.
Qed.

End BootstrapMore.

Lemma reset_result_is_stored_witness :
  (forall id, In id Filmoteca.DEFAULT_MOVIE_IDS ->
     net_down (Filmoteca.details_url id) = Rejected) /\
  fst (Filmoteca.resetMovies net_down year_of_iso_date empty_world) = Ok [] /\
  storage (snd (Filmoteca.resetMovies net_down year_of_iso_date empty_world))
    !! Filmoteca.STORAGE_KEY = Some "[]".
Proof.
  assert (Hdown : forall id, In id Filmoteca.DEFAULT_MOVIE_IDS ->
                    net_down (Filmoteca.details_url id) = Rejected) by reflexivity.
  destruct (reset_result_is_stored net_down year_of_iso_date empty_world)
    as (H1 & _ & _ & _ & H5).
  destruct (H5 Hdown) as [E Hs].
  split; [exact Hdown|]. split; [by rewrite H1, E|exact Hs].
Defined.

(** ** The catalog client: search, single requests, the director *)

Section ApiMore.

Context (net : string -> fetch_result) (getFullYear : value -> value)
        (encodeURIComponent : string -> string).

Lemma search_settles (query : string) :
  settles (Search.searchMoviesInTMDB net encodeURIComponent query)
          (search_result (payload net (search_url encodeURIComponent query))).
Proof.
  intros w. unfold Search.searchMoviesInTMDB, try_catch, bind, fetch, json, lift.
  unfold search_result, payload, search_url.
  destruct (net _) as [|r]; simpl; [by eexists|].
  destruct (ok r); simpl; [|by eexists].
  destruct (Json.parse (body r)) as [d|e]; simpl; [|by eexists].
  destruct (get_prop d "results"); simpl; by eexists.
Qed.

(** X10. [searchMoviesInTMDB] never rejects: it resolves to [data.results]
    of the decoded answer when that is truthy, and to the empty array in
    every other case, a failed request among them.  What it resolves to is
    therefore truthy or the empty array, and exactly one request is sent, to
    the search address of the encoded query. *)
Theorem search_never_rejects (query : string) :
  let url := search_url encodeURIComponent query in
  settles (Search.searchMoviesInTMDB net encodeURIComponent query)
          (search_result (payload net url)) /\
  (request_failed net url -> search_result (payload net url) = VArr []) /\
  (search_result (payload net url) = VArr [] \/
   truthy (search_result (payload net url)) = true) /\
  (forall w, requests (snd (Search.searchMoviesInTMDB net encodeURIComponent query w))
             = requests w ++ [url]).
Proof.
  intros url. split; [apply search_settles|]. unfold search_url in url.
  split; [|split].
  - intros H. by rewrite (request_failed_payload net url H).
  - unfold search_result. destruct (get_prop _ _) as [r|]; [|by left].
    unfold or_else. destruct (truthy r) eqn:E; [by right|by left].
  - intros w. unfold Search.searchMoviesInTMDB, try_catch, bind, fetch, json, lift.
    fold url. destruct (net url) as [|r]; simpl; [done|].
    destruct (ok r); simpl; [|done].
    destruct (Json.parse (body r)) as [d|e]; simpl; [|done].
    by destruct (get_prop d "results").
Qed.

Lemma api_request_runs (url msg : string) (w : world) :
  exists w',
    try_catch
      (response <- fetch net url ;;
       (if ok response then ret tt else throw (HttpError (status response))) ;;;
       json response)
      (fun error => console_error msg ;;; ret VNull) w
    = (Ok (payload net url), w') /\
    requests w' = requests w ++ [url] /\
    storage w' = storage w /\ alerts w' = alerts w /\
    (request_failed net url ->
     payload net url = VNull /\ console w' = console w ++ [msg]) /\
    (forall r v, net url = Responded r -> ok r = true -> Json.parse (body r) = Ok v ->
     payload net url = v /\ console w' = console w).
Proof.
  unfold try_catch, bind, fetch, payload, json, lift, request_failed.
  destruct (net url) as [|r]; simpl.
  - eexists. split; [reflexivity|]. do 3 (split; [done|]). split; [done|].
    intros r v H. discriminate H.
  - destruct (ok r) eqn:Hok; simpl.
    + destruct (Json.parse (body r)) as [v|e] eqn:Hp; simpl;
        (eexists; split; [reflexivity|]); (do 3 (split; [done|])); split.
      * intros [H1|(r' & H1 & [H2|[e H2]])]; congruence.
      * intros r' v' H1 _ H2. split; [congruence|done].
      * done.
      * intros r' v' H1 _ H2. congruence.
    + eexists. split; [reflexivity|]. do 3 (split; [done|]). split; [done|].
      intros r' v' H1 H2. congruence.
Qed.

(** X11. [getMovieDetailsFromTMDB] and [getMovieCreditsFromTMDB] never
    reject and send one request each, to the address of the id.  A request
    that fails in transport, by its status or in decoding resolves to [null]
    and leaves one line on the console; a request that succeeds resolves to
    the decoded body and leaves the console as it was.  Neither touches the
    storage nor raises an alert. *)
Theorem requests_resolve_to_payload (id : value) (w : world) :
  (exists w',
     API.getMovieDetailsFromTMDB net id w = (Ok (payload net (api_details_url id)), w') /\
     requests w' = requests w ++ [api_details_url id] /\
     storage w' = storage w /\ alerts w' = alerts w /\
     (request_failed net (api_details_url id) ->
      payload net (api_details_url id) = VNull /\
      console w' = console w ++ ["Erro ao buscar detalhes do filme:"]) /\
     (forall r v, net (api_details_url id) = Responded r -> ok r = true ->
        Json.parse (body r) = Ok v ->
        payload net (api_details_url id) = v /\ console w' = console w)) /\
  (exists w',
     API.getMovieCreditsFromTMDB net id w = (Ok (payload net (api_credits_url id)), w') /\
     requests w' = requests w ++ [api_credits_url id] /\
     storage w' = storage w /\ alerts w' = alerts w /\
     (request_failed net (api_credits_url id) ->
      payload net (api_credits_url id) = VNull /\
      console w' = console w ++ ["Erro ao buscar créditos do filme:"]) /\
     (forall r v, net (api_credits_url id) = Responded r -> ok r = true ->
        Json.parse (body r) = Ok v ->
        payload net (api_credits_url id) = v /\ console w' = console w)).
Proof. split; apply api_request_runs. Qed.

Lemma find_director_first (pre post : list value) (person : value) :
  forallb not_director pre = true ->
  get_prop person "job" = Ok (VStr "Director") ->
  Filmoteca.find_director (pre ++ person :: post) = Ok person.
Proof.
  intros Hpre Hjob. induction pre as [|x pre IH]; simpl.
  - by rewrite Hjob.
  - simpl in Hpre. apply andb_true_iff in Hpre as [Hx Hpre]. unfold not_director in Hx.
    destruct (get_prop x "job") as [j|]; [|done].
    apply negb_true_iff in Hx. rewrite Hx. by apply IH.
Qed.

Lemma find_director_none (crew : list value) :
  forallb not_director crew = true -> Filmoteca.find_director crew = Ok VUndef.
Proof.
  induction crew as [|x crew IH]; simpl; [done|]. intros H.
  apply andb_true_iff in H as [Hx H]. unfold not_director in Hx.
  destruct (get_prop x "job") as [j|]; [|done].
  apply negb_true_iff in Hx. rewrite Hx. by apply IH.
Qed.

Lemma find_director_null (pre post : list value) :
  forallb not_director pre = true ->
  Filmoteca.find_director (pre ++ VNull :: post) = Throw TypeError.
Proof.
  intros Hpre. induction pre as [|x pre IH]; simpl; [done|].
  simpl in Hpre. apply andb_true_iff in Hpre as [Hx Hpre]. unfold not_director in Hx.
  destruct (get_prop x "job") as [j|]; [|done].
  apply negb_true_iff in Hx. rewrite Hx. by apply IH.
Qed.

(** X12. [extractDirectorFromCredits] on credits whose [crew] is an array:
    the name of the first member whose [job] is "Director", whatever comes
    after; the sentinel when no member has that job; a TypeError when a
    [null] member comes before any director. *)
Theorem director_is_first_of_crew (credits : object) (crew : list value) :
  obj_get "crew" credits = VArr crew ->
  (forall pre post (person : object),
     crew = pre ++ VObj person :: post ->
     forallb not_director pre = true ->
     obj_get "job" person = VStr "Director" ->
     API.extractDirectorFromCredits (VObj credits) = Ok (obj_get "name" person)) /\
  (forallb not_director crew = true ->
   API.extractDirectorFromCredits (VObj credits) = Ok (VStr "Diretor não informado")) /\
  (forall pre post,
     crew = pre ++ VNull :: post ->
     forallb not_director pre = true ->
     API.extractDirectorFromCredits (VObj credits) = Throw TypeError).
Proof.
  intros Hc. unfold API.extractDirectorFromCredits. simpl. rewrite Hc. simpl.
  split; [|split].
  - intros pre post person -> Hpre Hjob.
    rewrite (find_director_first pre post (VObj person) Hpre); [done|].
    simpl. by rewrite Hjob.
  - intros H. by rewrite (find_director_none crew H).
  - intros pre post -> Hpre. by rewrite (find_director_null pre post Hpre).
Qed.

End ApiMore.

(** A network without a catalog behind it, and the encoding of a query
    that has no character to escape. *)
Lemma search_never_rejects_witness :
  request_failed net_down (search_url (fun query => query) "pulp fiction") /\
  settles (Search.searchMoviesInTMDB net_down (fun query => query) "pulp fiction")
          (VArr []).
Proof.
  assert (Hf : request_failed net_down (search_url (fun query => query) "pulp fiction"))
    by (left; reflexivity).
  split; [exact Hf|].
  destruct (search_never_rejects net_down (fun query => query) "pulp fiction")
    as (H1 & H2 & _).
  rewrite (H2 Hf) in H1. exact H1.
Defined.

Lemma requests_resolve_to_payload_witness :
  request_failed net_down (api_details_url (int 680)) /\
  exists w',
    API.getMovieDetailsFromTMDB net_down (int 680) empty_world = (Ok VNull, w') /\
    console w' = ["Erro ao buscar detalhes do filme:"].
Proof.
  assert (Hf : request_failed net_down (api_details_url (int 680)))
    by (left; reflexivity).
  split; [exact Hf|].
  destruct (requests_resolve_to_payload net_down (int 680) empty_world)
    as [(w' & E & _ & _ & _ & H & _) _].
  destruct (H Hf) as [Hp Hc]. exists w'. rewrite Hp in E. by split.
Defined.

Lemma director_is_first_of_crew_witness :
  let crew := [VObj [("job", VStr "Producer"); ("name", VStr "A. Producer")];
               VObj [("job", VStr "Director"); ("name", VStr "A. Director")];
               VObj [("job", VStr "Director"); ("name", VStr "B. Director")]] in
  obj_get "crew" [("id", int 680); ("crew", VArr crew)] = VArr crew /\
  API.extractDirectorFromCredits (VObj [("id", int 680); ("crew", VArr crew)])
    = Ok (VStr "A. Director").
Proof.
  intros crew. split; [reflexivity|].
  destruct (director_is_first_of_crew [("id", int 680); ("crew", VArr crew)] crew eq_refl)
    as [H _].
  apply (H [VObj [("job", VStr "Producer"); ("name", VStr "A. Producer")]]
           [VObj [("job", VStr "Director"); ("name", VStr "B. Director")]]
           [("job", VStr "Director"); ("name", VStr "A. Director")]); reflexivity.
Defined.

(** ** Adding a movie from the catalog *)

Section AddMore.

Context (net : string -> fetch_result) (getFullYear : value -> value).

Lemma api_fetch_never_raises (id : value) :
  exists r, settles (API.fetchCompleteMovieData net getFullYear id) r.
Proof.
  unfold API.fetchCompleteMovieData.
  match goal with |- exists r, settles (try_catch ?m ?h) r =>
    apply (steady_caught_settles m h None) end.
  - apply steady_bind.
    + apply (settles_steady _ [payload net (api_details_url id);
                               payload net (api_credits_url id)]).
      apply promise_all_settles. repeat constructor; apply api_request_settles.
    + intros both. steady.
  - intros e. eapply settles_bind; [apply settles_console_error|apply settles_ret].
Qed.

Lemma in_sync_saved (L : list object) (w : world) : in_sync L (saved L w).
Proof. unfold in_sync, saved. rewrite saveMovies_storage. simpl. apply lookup_insert_eq. Qed.

Lemma in_sync_reload (L : list object) (w : world) :
  in_sync L w -> json_safe (movies_value L) = true ->
  Filmoteca.loadMovies w = (Ok (movies_value L), w).
Proof.
  intros Hs Hj. destruct (parse_stringify _ Hj) as (text & E & Hne & Hp).
  unfold in_sync in Hs. rewrite E in Hs. simpl in Hs.
  pose proof (loadMovies_present w text Hs) as Hl.
  pose proof (loadMovies_world w) as Hw.
  apply String.eqb_neq in Hne. rewrite Hne, Hp in Hl.
  destruct (Filmoteca.loadMovies w) as [o w1]. simpl in *. by subst.
Qed.

(** X13. Adding an id that the collection does not have, in [api.js] and
    in [ui.js] alike.  The fetch of the record never raises and leaves the
    storage and the alerts alone.  When it yields nothing, the collection is
    returned as it was, an alert reports the failure and the storage is not
    written.  When it yields a record, the record goes to the end of the
    collection, every earlier movie keeps its position, and the collection
    with the record is what the storage holds afterwards; [api.js] reports
    the title in an alert, [ui.js] writes it to the page and clears the
    form. *)
Theorem add_from_catalog (id : value) (u : UI.ui) (w : world) :
  Filmoteca.movieExists (UI.movies u) id = false ->
  exists r w1,
    API.fetchCompleteMovieData net getFullYear id w = (Ok r, w1) /\
    storage w1 = storage w /\ alerts w1 = alerts w /\
    match r with
    | None =>
        API.addMovieFromTMDB net getFullYear id (UI.movies u) w
        = (Ok (UI.movies u), alerted "Erro ao obter dados do filme." w1) /\
        UI.addMovieFromTMDB net getFullYear id u w
        = (Ok u, alerted "Erro ao obter dados do filme." w1)
    | Some movieData =>
        let L := Filmoteca.addMovie (UI.movies u) movieData in
        API.addMovieFromTMDB net getFullYear id (UI.movies u) w
        = (Ok L, alerted (added_message movieData) (saved L w1)) /\
        UI.addMovieFromTMDB net getFullYear id u w
        = (Ok {| UI.movies := L; UI.forms := "";
                 UI.output := added_message movieData |}, saved L w1) /\
        in_sync L (saved L w1) /\
        in_sync L (alerted (added_message movieData) (saved L w1)) /\
        length L = S (length (UI.movies u)) /\
        (forall i m, UI.movies u !! i = Some m -> L !! i = Some m)
    end.
Proof.
  intros H. destruct (api_fetch_never_raises id) as [r Hr].
  destruct (Hr w) as (w1 & E & Hs & Ha). exists r, w1.
  split; [exact E|]. split; [exact Hs|]. split; [exact Ha|].
  unfold API.addMovieFromTMDB, UI.addMovieFromTMDB, try_catch, bind.
  rewrite H, E. destruct r as [movieData|].
  - cbv beta iota zeta. split; [reflexivity|]. split; [reflexivity|].
    split; [apply in_sync_saved|]. split; [apply in_sync_saved|].
    unfold Filmoteca.addMovie. split; [rewrite length_app; simpl; lia|].
    intros i m Hi. by apply lookup_app_l_Some.
  - split; reflexivity.
Qed.

End AddMore.

Lemma add_from_catalog_witness :
  let u := {| UI.movies := []; UI.forms := ""; UI.output := "" |} in
  Filmoteca.movieExists (UI.movies u) (int 680) = false /\
  exists r w1,
    API.fetchCompleteMovieData sample_net year_of_iso_date (int 680) empty_world
    = (Ok r, w1) /\
    storage w1 = storage empty_world.
Proof.
  intros u. split; [reflexivity|].
  destruct (add_from_catalog sample_net year_of_iso_date (int 680) u empty_world eq_refl)
    as (r & w1 & E & Hs & _).
  exists r, w1. by split.
Defined.

(** ** The two copies of [fetchCompleteMovieData], on any network *)

Section Copies.

Context (net : string -> fetch_result) (getFullYear : value -> value).

Lemma urls_agree (id : value) :
  Filmoteca.details_url id = api_details_url id /\
  Filmoteca.credits_url id = api_credits_url id.
Proof. split; reflexivity. Qed.

Lemma find_director_found (l : list value) (p : value) :
  Filmoteca.find_director l = Ok p -> p = VUndef \/ exists o, p = VObj o.
Proof.
  induction l as [|x l IH]; simpl; [intros [= <-]; by left|].
  destruct x as [| |b|n|s|a|o]; simpl; try done; try exact IH.
  destruct (strict_eq _ _); [|exact IH]. intros [= <-]. right. by eexists.
Qed.

Lemma raises_lift {A} (e : error) : raises (lift (Throw e) : io A) e.
Proof. intros w. by exists w. Qed.

Lemma raises_bind {A B} (m : io A) (k : A -> io B) e :
  raises m e -> raises (bind m k) e.
Proof. intros H w. destruct (H w) as (w' & E & ?). exists w'. unfold bind. by rewrite E. Qed.

Lemma raises_after {A B} (m : io A) (k : A -> io B) a e :
  settles m a -> raises (k a) e -> raises (bind m k) e.
Proof.
  intros Hm Hk w. destruct (Hm w) as (w1 & E1 & S1 & A1).
  destruct (Hk w1) as (w2 & E2 & S2 & A2). exists w2.
  unfold bind. rewrite E1. split; [exact E2|]. split; congruence.
Qed.

Lemma raises_caught {A} (m : io A) (h : error -> io A) e d :
  raises m e -> settles (h e) d -> settles (try_catch m h) d.
Proof.
  intros Hm Hh w. destruct (Hm w) as (w1 & E1 & S1 & A1).
  destruct (Hh w1) as (w2 & E2 & S2 & A2). exists w2.
  unfold try_catch. rewrite E1. split; [exact E2|]. split; congruence.
Qed.

Lemma settles_fetch (url : string) (r : response) :
  net url = Responded r -> settles (fetch net url) r.
Proof. intros H w. unfold fetch. rewrite H. by eexists. Qed.

Lemma settles_json (r : response) (v : value) :
  Json.parse (body r) = Ok v -> settles (json r) v.
Proof. intros H w. unfold json, lift. rewrite H. by eexists. Qed.

(** X14. When both requests of an id are answered with the text of an
    object, the two copies of [fetchCompleteMovieData] agree: either both
    return [null], or both return a record, and the two records have the
    same value in every field the copy in [filmoteca.js] writes, except that
    where the copy in [api.js] reports a director name that is falsy, the
    copy in [filmoteca.js] writes the sentinel. *)
Theorem copies_agree (id : value) (rd rc : response) (d c : object) :
  net (Filmoteca.details_url id) = Responded rd -> ok rd = true ->
  Json.parse (body rd) = Ok (VObj d) ->
  net (Filmoteca.credits_url id) = Responded rc -> ok rc = true ->
  Json.parse (body rc) = Ok (VObj c) ->
  exists r1 r2,
    settles (Filmoteca.fetchCompleteMovieData net getFullYear id) r1 /\
    settles (API.fetchCompleteMovieData net getFullYear id) r2 /\
    match r1, r2 with
    | None, None => True
    | Some m1, Some m2 =>
        (forall k, In k common_fields -> k <> "director" ->
                   obj_get k m1 = obj_get k m2) /\
        obj_get "director" m1
        = or_else (obj_get "director" m2) (VStr "Diretor não informado")
    | _, _ => False
    end.
Proof.
  intros Nd Od Pd Nc Oc Pc.
  assert (HA : settles
            (promise_all [API.getMovieDetailsFromTMDB net id;
                          API.getMovieCreditsFromTMDB net id])
            [VObj d; VObj c]).
  { apply promise_all_settles.
    pose proof (api_request_settles net (api_details_url id)) as H1.
    pose proof (api_request_settles net (api_credits_url id)) as H2.
    unfold payload in H1, H2.
    destruct (urls_agree id) as [U1 U2]. rewrite U1 in Nd. rewrite U2 in Nc.
    rewrite Nd, Od, Pd in H1. rewrite Nc, Oc, Pc in H2.
    repeat constructor; [apply H1|apply H2]. }
  set (sentinel := VStr "Diretor não informado").
  assert (HD :
    (exists dF dA,
       (if truthy (obj_get "crew" c) then
          found <- lift (Filmoteca.crew_find (obj_get "crew" c)) ;;
          name <- (match found with
                   | VUndef | VNull => ret VUndef
                   | _ => lift (get_prop found "name")
                   end) ;;
          ret (or_else name sentinel)
        else ret sentinel) = lift (Ok dF) /\
       API.extractDirectorFromCredits (VObj c) = Ok dA /\
       dF = or_else dA sentinel) \/
    (exists e,
       (if truthy (obj_get "crew" c) then
          found <- lift (Filmoteca.crew_find (obj_get "crew" c)) ;;
          name <- (match found with
                   | VUndef | VNull => ret VUndef
                   | _ => lift (get_prop found "name")
                   end) ;;
          ret (or_else name sentinel)
        else ret sentinel) = lift (Throw e) /\
       API.extractDirectorFromCredits (VObj c) = Throw e)).
  { unfold API.extractDirectorFromCredits. cbn [truthy negb get_prop].
    destruct (truthy (obj_get "crew" c)) eqn:Tc; cbn [negb];
      [|left; by exists sentinel, sentinel].
    destruct (Filmoteca.crew_find (obj_get "crew" c)) as [found|e] eqn:Ef;
      [|right; by exists e].
    left. assert (found = VUndef \/ exists o, found = VObj o) as [->|[o ->]].
    { destruct (obj_get "crew" c); try discriminate Ef.
      by apply find_director_found in Ef. }
    - by exists sentinel, sentinel.
    - exists (or_else (obj_get "name" o) sentinel), (obj_get "name" o). done. }
  subst sentinel.
  assert (HG :
    (exists g, (if truthy (obj_get "genres" d)
                then lift (Filmoteca.join_genres (obj_get "genres" d))
                else ret (VStr "")) = lift (Ok g)) \/
    (exists e, (if truthy (obj_get "genres" d)
                then lift (Filmoteca.join_genres (obj_get "genres" d))
                else ret (VStr "")) = lift (Throw e))).
  { destruct (truthy (obj_get "genres" d)); [|left; by eexists].
    destruct (Filmoteca.join_genres _); [left|right]; by eexists. }
  assert (Hlog : forall msg, settles (console_error msg ;;; ret (None : option object)) None).
  { intros msg. eapply settles_bind; [apply settles_console_error|apply settles_ret]. }
  destruct HD as [(dF & dA & EF & EA & Hdir)|(e & EF & EA)].
  - destruct HG as [[g EG]|[e EG]].
    + eexists (Some _), (Some _). split; [|split].
      * unfold Filmoteca.fetchCompleteMovieData. apply settles_try_catch.
        eapply settles_bind; [apply settles_fetch, Nd|]. rewrite Od.
        eapply settles_bind; [apply settles_ret|].
        eapply settles_bind; [apply settles_json, Pd|].
        eapply settles_bind; [apply settles_fetch, Nc|].
        eapply settles_bind; [apply settles_json, Pc|].
        cbn [get_prop]. apply settles_lift_ok. rewrite EF.
        repeat apply settles_lift_ok. rewrite EG.
        repeat apply settles_lift_ok. apply settles_ret.
      * unfold API.fetchCompleteMovieData. apply settles_try_catch.
        eapply settles_bind; [apply HA|].
        cbn [nth truthy negb get_prop]. rewrite EA.
        repeat apply settles_lift_ok. rewrite EG.
        repeat apply settles_lift_ok. apply settles_ret.
      * split; [|exact Hdir].
        intros k Hk Hne. unfold common_fields in Hk. cbn [In] in Hk.
        repeat (destruct Hk as [<-|Hk]; [try reflexivity; by destruct Hne|]).
        destruct Hk.
    + exists None, None. split; [|split; [|done]].
      * unfold Filmoteca.fetchCompleteMovieData.
        eapply raises_caught; [|apply Hlog].
        eapply raises_after; [apply settles_fetch, Nd|]. rewrite Od.
        eapply raises_after; [apply settles_ret|].
        eapply raises_after; [apply settles_json, Pd|].
        eapply raises_after; [apply settles_fetch, Nc|].
        eapply raises_after; [apply settles_json, Pc|].
        cbn [get_prop]. eapply raises_after; [apply settles_ret|]. rewrite EF.
        do 7 (eapply raises_after; [apply settles_ret|]). rewrite EG.
        apply raises_bind, raises_lift.
      * unfold API.fetchCompleteMovieData.
        eapply raises_caught; [|apply Hlog].
        eapply raises_after; [apply HA|].
        cbn [nth truthy negb get_prop]. rewrite EA.
        do 9 (eapply raises_after; [apply settles_ret|]). rewrite EG.
        apply raises_bind, raises_lift.
  - exists None, None. split; [|split; [|done]].
    + unfold Filmoteca.fetchCompleteMovieData.
      eapply raises_caught; [|apply Hlog].
      eapply raises_after; [apply settles_fetch, Nd|]. rewrite Od.
      eapply raises_after; [apply settles_ret|].
      eapply raises_after; [apply settles_json, Pd|].
      eapply raises_after; [apply settles_fetch, Nc|].
      eapply raises_after; [apply settles_json, Pc|].
      cbn [get_prop]. eapply raises_after; [apply settles_ret|]. rewrite EF.
      apply raises_bind, raises_lift.
    + unfold API.fetchCompleteMovieData.
      eapply raises_caught; [|apply Hlog].
      eapply raises_after; [apply HA|].
      cbn [nth truthy negb get_prop]. rewrite EA.
      apply raises_bind, raises_lift.
Qed.

Ltac quiet :=
  repeat first
    [ apply silent_ret | apply silent_lift | apply silent_console_error
    | apply silent_bind; [|intros ?]
    | apply silent_try_catch; [|intros ?]
    | match goal with
      | |- silent (if ?c then _ else _) => destruct c
      | |- silent (match ?x with _ => _ end) => destruct x
      end ].

Lemma bind_run {A B} (m : io A) (k : A -> io B) w a w1 :
  m w = (Ok a, w1) -> bind m k w = k a w1.
Proof. intros E. unfold bind. by rewrite E. Qed.

Lemma fetch_run (url : string) (r : response) w :
  net url = Responded r -> fetch net url w = (Ok r, requested url w).
Proof. intros H. unfold fetch. by rewrite H. Qed.

Lemma requests_fetch (url : string) w :
  requests (snd (fetch net url w)) = requests w ++ [url].
Proof. unfold fetch. by destruct (net url). Qed.

(** X15. The copy of [fetchCompleteMovieData] in [filmoteca.js], on any
    network and for any id.  When the details request fails (in transport,
    by its status or in decoding) the result is [null] and the credits
    request is never sent.  When the details arrive, the credits request is
    sent as well, and a credits request that fails in transport or in
    decoding makes the result [null]. *)
Theorem filmoteca_fetch_needs_both (id : value) :
  (request_failed net (Filmoteca.details_url id) ->
   settles (Filmoteca.fetchCompleteMovieData net getFullYear id) None /\
   forall w, requests (snd (Filmoteca.fetchCompleteMovieData net getFullYear id w))
             = requests w ++ [Filmoteca.details_url id]) /\
  (forall rd details,
     net (Filmoteca.details_url id) = Responded rd -> ok rd = true ->
     Json.parse (body rd) = Ok details ->
     (forall w, requests (snd (Filmoteca.fetchCompleteMovieData net getFullYear id w))
                = requests w ++ [Filmoteca.details_url id; Filmoteca.credits_url id]) /\
     (net (Filmoteca.credits_url id) = Rejected \/
      (exists rc e, net (Filmoteca.credits_url id) = Responded rc /\
                    Json.parse (body rc) = Throw e) ->
      settles (Filmoteca.fetchCompleteMovieData net getFullYear id) None)).
Proof.
  assert (Hlog : forall msg, settles (console_error msg ;;; ret (None : option object)) None).
  { intros msg. eapply settles_bind; [apply settles_console_error|apply settles_ret]. }
  split.
  - intros Hf. split.
    + intros w. unfold Filmoteca.fetchCompleteMovieData, try_catch, bind, fetch, json, lift.
      destruct Hf as [->|(r & -> & [Hr|[e Hr]])]; simpl.
      * by eexists.
      * rewrite Hr. simpl. by eexists.
      * destruct (ok r); simpl; [rewrite Hr; simpl|]; by eexists.
    + intros w. unfold Filmoteca.fetchCompleteMovieData, try_catch, bind, fetch, json, lift.
      destruct Hf as [->|(r & -> & [Hr|[e Hr]])]; simpl.
      * done.
      * by rewrite Hr.
      * destruct (ok r); simpl; [by rewrite Hr|done].
  - intros rd details Nd Od Pd. split.
    + intros w. unfold Filmoteca.fetchCompleteMovieData.
      rewrite requests_try_catch by (intros e; quiet).
      erewrite bind_run by (apply fetch_run, Nd). rewrite Od.
      erewrite bind_run by reflexivity.
      erewrite bind_run by (unfold json, lift; rewrite Pd; reflexivity).
      rewrite requests_bind by (intros creditsResponse; quiet).
      rewrite requests_fetch. simpl. by rewrite <- app_assoc.
    + intros Hc. unfold Filmoteca.fetchCompleteMovieData.
      destruct Hc as [Hc|(rc & e & Hc & Pc)].
      * eapply raises_caught; [|apply Hlog].
        eapply raises_after; [apply settles_fetch, Nd|]. rewrite Od.
        eapply raises_after; [apply settles_ret|].
        eapply raises_after; [apply settles_json, Pd|].
        apply raises_bind. intros w. unfold fetch. rewrite Hc. by eexists.
      * eapply raises_caught; [|apply Hlog].
        eapply raises_after; [apply settles_fetch, Nd|]. rewrite Od.
        eapply raises_after; [apply settles_ret|].
        eapply raises_after; [apply settles_json, Pd|].
        eapply raises_after; [apply settles_fetch, Hc|].
        apply raises_bind. intros w. unfold json, lift. rewrite Pc. by eexists.
Qed.

End Copies.

Lemma filmoteca_fetch_needs_both_witness :
  net_credits_down (Filmoteca.credits_url (int 680)) = Rejected /\
  settles (Filmoteca.fetchCompleteMovieData net_credits_down year_of_iso_date (int 680))
          None.
Proof.
  split; [reflexivity|].
  destruct (filmoteca_fetch_needs_both net_credits_down year_of_iso_date (int 680))
    as [_ H].
  destruct (H {| ok := true; status := 200;
                 body := to_string (Json.stringify
                           (VObj [("id", int 680); ("title", VStr "Pulp Fiction")])) |}
              (VObj [("id", int 680); ("title", VStr "Pulp Fiction")]))
    as [_ H2]; [reflexivity|reflexivity|vm_compute; reflexivity|].
  apply H2. left. reflexivity.
Defined.

Lemma copies_agree_witness :
  exists r1 r2,
    settles (Filmoteca.fetchCompleteMovieData sample_net year_of_iso_date (int 680)) r1 /\
    settles (API.fetchCompleteMovieData sample_net year_of_iso_date (int 680)) r2 /\
    match r1, r2 with
    | None, None => True
    | Some m1, Some m2 =>
        (forall k, In k common_fields -> k <> "director" ->
                   obj_get k m1 = obj_get k m2) /\
        obj_get "director" m1
        = or_else (obj_get "director" m2) (VStr "Diretor não informado")
    | _, _ => False
    end.
Proof.
  apply (copies_agree sample_net year_of_iso_date (int 680)
           {| ok := true; status := 200;
              body := to_string (Json.stringify (sample_details (int 680))) |}
           {| ok := true; status := 200;
              body := to_string (Json.stringify sample_credits) |}
           match sample_details (int 680) with VObj d => d | _ => [] end
           match sample_credits with VObj c => c | _ => [] end);
    vm_compute; reflexivity.
Defined.

(** ** Rendering: the stars, a card, the list *)

Section RenderingMore.

Import UI.



Lemma createMovieHTML_renders (movie : object) :
  (renders movie = true -> exists html, createMovieHTML movie = Ok html) /\
  (renders movie = false -> createMovieHTML movie = Throw TypeError).
Proof.
  unfold renders, createMovieHTML, scoreText.
  destruct (truthy (obj_get "rating" movie)); [split; [by eexists|done]|].
  destruct (truthy (obj_get "voteAverage" movie)) eqn:Tv; [|split; [by eexists|done]].
  destruct (obj_get "voteAverage" movie); simpl; split; try done; by eexists.
Qed.

Lemma movies_html_renders (L : list object) :
  (forallb renders L = true ->
   exists htmls, Page.movies_html L = Ok htmls /\
     Forall2 (fun movie html => createMovieHTML movie = Ok html) L htmls) /\
  (forallb renders L = false -> Page.movies_html L = Throw TypeError).
Proof.
  induction L as [|m L [IH1 IH2]]; cbn [forallb Page.movies_html].
  - split; [|done]. exists []. by split; [|constructor].
  - destruct (createMovieHTML_renders m) as [H1 H2].
    destruct (renders m); cbn [andb].
    + destruct (H1 eq_refl) as [h Eh]. rewrite Eh. split.
      * intros HL. destruct (IH1 HL) as (hs & -> & HF). exists (h :: hs).
        split; [done|]. by constructor.
      * intros HL. by rewrite (IH2 HL).
    + split; [done|]. intros _. by rewrite (H2 eq_refl).
Qed.

(** X17. [createMovieHTML] raises a TypeError exactly on a record that has
    no user rating and a truthy vote average that is not a number, and
    renders every other record.  [displayMoviesWithImages] shows the
    placeholder for the empty list; for a list whose records all render it
    shows their cards, one after the other; and when a single record of the
    list does not render it raises, and the page stays as it was. *)
Theorem display_all_or_nothing (L : list object) (p : Page.page) :
  (forall movie, renders movie = true <-> exists html, createMovieHTML movie = Ok html) /\
  (forall movie, renders movie = false <-> createMovieHTML movie = Throw TypeError) /\
  (L = [] ->
   Page.displayMoviesWithImages L p = (shown "<p>Nenhum filme encontrado.</p>" p, Ok tt)) /\
  (L <> [] -> forallb renders L = true ->
   exists htmls,
     Forall2 (fun movie html => createMovieHTML movie = Ok html) L htmls /\
     Page.displayMoviesWithImages L p
     = (shown ("<div style=" +:+ dq +:+ "white-space: normal;" +:+ dq +:+ ">"
               +:+ join "" htmls +:+ "</div>") p, Ok tt)) /\
  (forallb renders L = false ->
   Page.displayMoviesWithImages L p = (p, Throw TypeError)).
Proof.
  split; [|split; [|split; [|split]]].
  - intros movie. destruct (createMovieHTML_renders movie) as [H1 H2].
    split; [exact H1|]. intros [html E]. destruct (renders movie); [done|].
    rewrite (H2 eq_refl) in E. discriminate E.
  - intros movie. destruct (createMovieHTML_renders movie) as [H1 H2].
    split; [exact H2|]. intros E. destruct (renders movie); [|done].
    destruct (H1 eq_refl) as [html E']. rewrite E in E'. discriminate E'.
  - by intros ->.
  - intros Hne HL. destruct (proj1 (movies_html_renders L) HL) as (htmls & E & HF).
    exists htmls. split; [exact HF|]. unfold Page.displayMoviesWithImages.
    destruct L; [done|]. cbn [length Nat.eqb]. by rewrite E.
  - intros HL. unfold Page.displayMoviesWithImages.
    destruct L; [discriminate HL|]. cbn [length Nat.eqb].
    by rewrite (proj2 (movies_html_renders _) HL).
Qed.

End RenderingMore.


Lemma display_all_or_nothing_witness :
  let L := [[("id", int 680); ("title", VStr "Pulp Fiction"); ("voteAverage", VStr "8.4")]] in
  let p := {| Page.movies := L; Page.forms := Page.Markup "";
              Page.output := Page.Text ""; Page.outputDisplay := "none" |} in
  forallb renders L = false /\
  Page.displayMoviesWithImages L p = (p, Throw TypeError).
Proof.
  intros L p. split; [reflexivity|].
  destruct (display_all_or_nothing L p) as (_ & _ & _ & _ & H).
  apply H. reflexivity.
Defined.

(** ** The handlers of the page *)

Section HandlersMore.

Context (net : string -> fetch_result) (getFullYear : value -> value)
        (encodeURIComponent : string -> string) (Number : string -> value).

Import Filmoteca.

Lemma form_updates_keys (title director year overview k : string) :
  has_key k (Page.form_updates Number title director year overview) = true ->
  In k form_fields.
Proof.
  unfold Page.form_updates, has_key, form_fields.
  destruct (String.eqb title ""), (String.eqb director ""),
           (String.eqb year ""), (String.eqb overview "");
    cbn [negb obj_set String.eqb Ascii.eqb Bool.eqb map fst existsb In orb];
    rewrite ?orb_false_r;
    intros H; repeat (apply orb_true_iff in H as [H|H]);
    try discriminate H; apply String.eqb_eq in H; subst k; cbn [In];
    repeat (first [left; reflexivity|right]).
Qed.

Lemma form_updates_distinct (title director year overview : string) :
  distinct (map fst (Page.form_updates Number title director year overview)) = true.
Proof.
  unfold Page.form_updates.
  by destruct (String.eqb title ""), (String.eqb director ""),
              (String.eqb year ""), (String.eqb overview "").
Qed.

Lemma form_updates_id (title director year overview : string) :
  has_key "id" (Page.form_updates Number title director year overview) = false.
Proof.
  unfold Page.form_updates.
  by destruct (String.eqb title ""), (String.eqb director ""),
              (String.eqb year ""), (String.eqb overview "").
Qed.

(** X18. The submit handler of the update form.  It always reports
    "Filme atualizado!", clears the form and saves, whether or not a movie
    has the id.  No movie changes its id, so [movieExists] answers as
    before.  A movie with another id is left as it is; in a movie with the
    id, a field of the form that was filled in is written and every other
    property is kept.  With an id that no movie has, or with every field
    left blank, the collection is unchanged. *)
Theorem update_form_writes_filled_fields
    (updateId title director year overview : string) (p : Page.page) (w : world) :
  let id := Number updateId in
  let updates := Page.form_updates Number title director year overview in
  let L' := updateMovie (Page.movies p) id updates in
  Page.updateSubmit Number updateId title director year overview p w
  = (Ok (told "Filme atualizado!" (submitted (holding L' p))), saved L' w) /\
  map (obj_get "id") L' = map (obj_get "id") (Page.movies p) /\
  (forall x, movieExists L' x = movieExists (Page.movies p) x) /\
  (forall (i : nat) m, Page.movies p !! i = Some m ->
     exists m', L' !! i = Some m' /\
       (has_id id m = false -> m' = m) /\
       (forall k, ~ In k form_fields -> obj_get k m' = obj_get k m) /\
       (has_id id m = true ->
        obj_get "title" m'
          = (if String.eqb title "" then obj_get "title" m else VStr title) /\
        obj_get "director" m'
          = (if String.eqb director "" then obj_get "director" m else VStr director) /\
        obj_get "year" m'
          = (if String.eqb year "" then obj_get "year" m else Number year) /\
        obj_get "overview" m'
          = (if String.eqb overview "" then obj_get "overview" m else VStr overview))) /\
  (movieExists (Page.movies p) id = false -> L' = Page.movies p) /\
  (title = "" -> director = "" -> year = "" -> overview = "" -> L' = Page.movies p).
Proof.
  intros id updates L'.
  split; [reflexivity|].
  split; [apply updateMovie_ids, form_updates_id|].
  split.
  { intros x. rewrite !movieExists_ids. unfold L', updates.
    by rewrite (updateMovie_ids _ _ _ (form_updates_id _ _ _ _)). }
  split.
  { intros i m Hi. eexists. split; [apply (updateMovie_lookup _ _ _ _ _ Hi)|].
    destruct (has_id id m) eqn:E; (split; [done|]).
    - split.
      + intros k Hk. rewrite spread_get by apply form_updates_distinct.
        destruct (has_key k updates) eqn:Ek; [|done].
        destruct Hk. by apply (form_updates_keys title director year overview).
      + intros _. rewrite !spread_get by apply form_updates_distinct.
        unfold updates, Page.form_updates.
        by destruct (String.eqb title ""), (String.eqb director ""),
                    (String.eqb year ""), (String.eqb overview "").
    - split; done. }
  split.
  { intros H. unfold L', updateMovie. rewrite <- (map_id (Page.movies p)) at 2.
    apply map_ext_in. intros m Hm.
    pose proof (proj1 (movieExists_false _ _) H m Hm) as E. unfold has_id in E.
    by rewrite E. }
  intros -> -> -> ->. unfold L', updates, updateMovie. cbn.
  rewrite <- (map_id (Page.movies p)) at 2. apply map_ext. intros m.
  by destruct (strict_eq _ _).
Qed.

Lemma strict_eq_same_target (x m id : value) :
  strict_eq x id = true -> strict_eq m id = true -> strict_eq x m = true.
Proof.
  destruct x as [| |b1|n1|s1|l1|o1], id as [| |b2|n2|s2|l2|o2]; try discriminate;
    destruct m as [| |b3|n3|s3|l3|o3]; try discriminate; try done; simpl.
  - intros H1 H2. apply Bool.eqb_prop in H1, H2. subst. by destruct b2.
  - unfold num_eqb. intros H1 H2. apply Z.eqb_eq in H1, H2. apply Z.eqb_eq.
    assert (0 < 10 ^ Z.of_nat (scale n2))%Z by (apply Z.pow_pos_nonneg; lia).
    apply (Z.mul_cancel_r _ _ (10 ^ Z.of_nat (scale n2))%Z); [lia|].
    transitivity (mant n2 * 10 ^ Z.of_nat (scale n1) * 10 ^ Z.of_nat (scale n3))%Z.
    + rewrite <- H1. ring.
    + rewrite (Z.mul_shuffle0 (mant n3)), H2. ring.
  - intros H1 H2. apply String.eqb_eq in H1, H2. subst. apply String.eqb_refl.
Qed.

Lemma deleteMovie_unique_length (L : list object) (id : value) :
  unique_ids L = true -> movieExists L id = true ->
  S (length (deleteMovie L id)) = length L.
Proof.
  unfold unique_ids, movieExists, deleteMovie.
  induction L as [|m L IH]; [done|].
  cbn [map distinct_ids existsb List.filter length].
  intros Hu He. apply andb_true_iff in Hu as [Hm Hu]. apply negb_true_iff in Hm.
  destruct (strict_eq (obj_get "id" m) id) eqn:E; cbn [negb length].
  - f_equal. f_equal. apply filter_all. intros x Hx. apply negb_true_iff.
    destruct (strict_eq (obj_get "id" x) id) eqn:Ex; [|done].
    assert (existsb (fun y => strict_eq y (obj_get "id" m)) (map (obj_get "id") L) = true);
      [|congruence].
    apply existsb_exists. exists (obj_get "id" x). split; [by apply in_map|].
    by apply (strict_eq_same_target _ _ id).
  - f_equal. apply IH; [done|]. by rewrite orb_false_l in He.
Qed.

(** X19. The submit handler of the delete form.  It always reports
    "Filme removido!", clears the form and saves.  Afterwards no movie has
    the id, the movies kept are exactly those with another id, in their
    order, and no id is found that was not found before.  With an id that no
    movie has the collection is unchanged; in a collection without
    repeated ids, deleting an id that is present removes one movie. *)
Theorem delete_form_removes_every_match (deleteId : string) (p : Page.page) (w : world) :
  let id := Number deleteId in
  let L' := deleteMovie (Page.movies p) id in
  Page.deleteSubmit Number deleteId p w
  = (Ok (told "Filme removido!" (submitted (holding L' p))), saved L' w) /\
  movieExists L' id = false /\
  sublist L' (Page.movies p) /\
  (forall m, In m L' <-> In m (Page.movies p) /\ has_id id m = false) /\
  (forall x, movieExists L' x = true -> movieExists (Page.movies p) x = true) /\
  (movieExists (Page.movies p) id = false -> L' = Page.movies p) /\
  (unique_ids (Page.movies p) = true -> movieExists (Page.movies p) id = true ->
   S (length L') = length (Page.movies p)).
Proof.
  intros id L'. split; [reflexivity|].
  assert (Hin : forall m, In m L' <-> In m (Page.movies p) /\ has_id id m = false).
  { intros m. unfold L', deleteMovie, has_id. rewrite List.filter_In.
    by rewrite negb_true_iff. }
  split.
  { apply movieExists_false. intros m Hm. by apply Hin in Hm as [_ Hm]. }
  split; [apply filter_sublist|]. split; [exact Hin|]. split.
  { intros x Hx. apply movieExists_true in Hx as (m & Hm & Hx).
    apply movieExists_true. exists m. split; [by apply Hin in Hm as [Hm _]|done]. }
  split; [by apply deleteMovie_unknown|].
  apply deleteMovie_unique_length.
Qed.

Ltac in_text := repeat first [ apply is_substring_here | apply is_substring_later ].

Lemma append_empty_r (s : string) : s +:+ "" = s.
Proof.
  induction s as [|c s IH]; [done|]. change (String c (s +:+ "") = String c s). by rewrite IH.
Qed.

Lemma is_substring_refl (s : string) : is_substring s s.
Proof. exists "", "". by rewrite append_empty_r. Qed.

Lemma is_substring_trans (a b c : string) :
  is_substring a b -> is_substring b c -> is_substring a c.
Proof.
  intros (x & y & ->) (x' & y' & ->). exists (x' +:+ x), (y +:+ y').
  by rewrite !append_assoc.
Qed.

Lemma is_substring_join (h : string) (hs : list string) :
  In h hs -> is_substring h (join "" hs).
Proof.
  induction hs as [|x hs IH]; [done|]. intros [->|Hin].
  - destruct hs; [apply is_substring_refl|]. cbn [join]. apply is_substring_here.
  - destruct hs as [|y hs]; [done|]. 
    change (join "" (x :: y :: hs)) with (x +:+ "" +:+ join "" (y :: hs)).
    in_text. by apply IH.
Qed.

Lemma display_keeps_movies (L : list object) (q : Page.page) :
  Page.movies (fst (Page.displayMoviesWithImages L q)) = Page.movies q.
Proof.
  unfold Page.displayMoviesWithImages. destruct (length L =? 0)%nat; [done|].
  by destruct (Page.movies_html L).
Qed.

Lemma display_rendered (L : list object) (q : Page.page) :
  L <> [] -> forallb renders L = true ->
  exists htmls,
    Forall2 (fun movie html => UI.createMovieHTML movie = Ok html) L htmls /\
    Page.displayMoviesWithImages L q
    = (shown ("<div style=" +:+ UI.dq +:+ "white-space: normal;" +:+ UI.dq +:+ ">"
              +:+ join "" htmls +:+ "</div>") q, Ok tt).
Proof.
  intros Hne HL. destruct (proj1 (movies_html_renders L) HL) as (htmls & E & HF).
  exists htmls. split; [exact HF|]. unfold Page.displayMoviesWithImages.
  destruct L; [done|]. cbn [length Nat.eqb]. by rewrite E.
Qed.

Lemma rated_card (m : object) (k : Z) :
  (1 <= k <= 10)%Z ->
  renders (spread m [("rating", int k)]) = true /\
  exists card, UI.createMovieHTML (spread m [("rating", int k)]) = Ok card /\
    is_substring (UI.scoreSpan (to_string (int k) +:+ "/10")) card /\
    is_substring (UI.createStarsHTML (int k) 1 10) card.
Proof.
  intros Hk. set (m' := spread m [("rating", int k)]).
  assert (Hr : obj_get "rating" m' = int k) by apply obj_get_set_eq.
  assert (Ht : truthy (int k) = true).
  { simpl. apply negb_true_iff, Z.eqb_neq. lia. }
  split; [unfold renders; by rewrite Hr, Ht|].
  assert (Hs : UI.scoreText m' = Ok (to_string (int k) +:+ "/10")).
  { unfold UI.scoreText. by rewrite Hr, Ht. }
  assert (Hrat : UI.rating m' = int k).
  { unfold UI.rating, or_else. by rewrite Hr, Ht, Ht. }
  unfold UI.createMovieHTML. rewrite Hs, Hrat. eexists. split; [reflexivity|].
  split; in_text.
Qed.

(** X20. The click on a star.  The rating is written to the movies of the
    row and the collection is saved in every case, also when the redrawing
    of the list then raises.  When the star stands for a whole number from
    1 to 10 and every movie of the collection can be rendered, the list is
    redrawn, and the card of each movie that was rated shows "k/10" and
    the stars of [k]. *)
Theorem star_click_rates_and_redraws (dataValue dataMovieId : string)
    (p : Page.page) (w : world) :
  let id := Number dataMovieId in
  let L' := rateMovie (Page.movies p) id (Number dataValue) in
  (exists page' o,
     Page.starClick Number dataValue dataMovieId p w = (Ok (page', o), saved L' w) /\
     Page.movies page' = L' /\
     (o = Ok tt \/ (o = Throw TypeError /\ page' = holding L' p))) /\
  (forall k : Z,
     Number dataValue = int k -> (1 <= k <= 10)%Z ->
     Page.movies p <> [] -> forallb renders (Page.movies p) = true ->
     exists html,
       Page.starClick Number dataValue dataMovieId p w
       = (Ok (shown html (holding L' p), Ok tt), saved L' w) /\
       forall m, In m (Page.movies p) -> has_id id m = true ->
         exists card,
           UI.createMovieHTML (spread m [("rating", int k)]) = Ok card /\
           is_substring card html /\
           is_substring (UI.scoreSpan (to_string (int k) +:+ "/10")) card /\
           is_substring (UI.createStarsHTML (int k) 1 10) card).
Proof.
  intros id L'. split.
  - change (Page.starClick Number dataValue dataMovieId p w) with
      (Ok (Page.displayMoviesWithImages L' (holding L' p)), saved L' w).
    destruct (Page.displayMoviesWithImages L' (holding L' p)) as [page' o] eqn:E.
    exists page', o. split; [done|].
    pose proof (display_keeps_movies L' (holding L' p)) as Hk. rewrite E in Hk.
    split; [exact Hk|].
    unfold Page.displayMoviesWithImages in E.
    destruct (length L' =? 0)%nat; [injection E as <- <-; by left|].
    destruct (forallb renders L') eqn:HL.
    + destruct (proj1 (movies_html_renders L') HL) as (htmls & Eh & _).
      rewrite Eh in E. injection E as <- <-. by left.
    + rewrite (proj2 (movies_html_renders L') HL) in E. injection E as <- <-.
      by right.
  - intros k Hv Hk Hne HL.
    assert (HL' : forallb renders L' = true).
    { unfold L', rateMovie, updateMovie. rewrite Hv.
      apply forallb_forall. intros x Hx. apply in_map_iff in Hx as (m & <- & Hm).
      destruct (strict_eq _ _); [by apply rated_card|].
      by apply (proj1 (forallb_forall _ _) HL). }
    assert (Hne' : L' <> []).
    { unfold L', rateMovie, updateMovie. by destruct (Page.movies p). }
    destruct (display_rendered L' (holding L' p) Hne' HL') as (htmls & HF & E).
    eexists. split.
    { change (Page.starClick Number dataValue dataMovieId p w) with
        (Ok (Page.displayMoviesWithImages L' (holding L' p)), saved L' w).
      rewrite E. reflexivity. }
    intros m Hm Hid.
    destruct (rated_card m k Hk) as (_ & card & Ec & H1 & H2).
    exists card. split; [exact Ec|]. split; [|by split].
    assert (Hin : In (spread m [("rating", int k)]) L').
    { unfold L', rateMovie, updateMovie. rewrite Hv. apply in_map_iff. exists m.
      unfold has_id in Hid. fold id. by rewrite Hid. }
    assert (Hc : In card htmls).
    { clear -HF Hin Ec. induction HF as [|x h xs hs Hx _ IH]; [done|].
      destruct Hin as [->|Hin]; [left; congruence|right; by apply IH]. }
    do 5 apply is_substring_later.
    eapply is_substring_trans; [apply is_substring_join, Hc|apply is_substring_here].
Qed.

Lemma results_html_non_null (l : list value) :
  (forallb non_null l = true ->
   exists htmls, Page.results_html getFullYear l = Ok htmls /\ length htmls = length l) /\
  (forallb non_null l = false -> Page.results_html getFullYear l = Throw TypeError).
Proof.
  induction l as [|x l [IH1 IH2]]; cbn [forallb Page.results_html].
  - split; [|done]. by exists [].
  - destruct x as [| |b|n|s|a|o]; cbn [non_null andb]; try (split; [done|by intros _]);
      (split; [intros H; destruct (IH1 H) as (hs & E & Hl)|intros H; specialize (IH2 H)]);
      unfold Page.resultHTML; cbn [get_prop];
      rewrite ?E, ?IH2; try done; eexists; (split; [reflexivity|]); simpl; by rewrite Hl.
Qed.

Lemma search_submit_runs (query : string) :
  settles (Page.searchSubmit net getFullYear encodeURIComponent query)
    match Page.resultsMarkup getFullYear
            (search_result (payload net (search_url encodeURIComponent query))) with
    | Ok markup => markup
    | Throw _ => "<p>Erro ao buscar filmes. Tente novamente.</p>"
    end.
Proof.
  intros w. destruct (search_settles net encodeURIComponent query w) as (w1 & E & Hs & Ha).
  unfold Page.searchSubmit, try_catch, bind. rewrite E. unfold lift.
  destruct (Page.resultsMarkup _ _); simpl; by eexists.
Qed.

(** X21. The submit handler of the search form never raises.  A search
    whose request fails shows "Nenhum filme encontrado.", as an empty result
    does; results without a [null] among the first ten are shown, ten at
    most; a [null] among the first ten shows the error message; and what
    comes after the tenth result plays no part. *)
Theorem search_form_outcomes (query : string) :
  let url := search_url encodeURIComponent query in
  let found := search_result (payload net url) in
  (exists markup,
     settles (Page.searchSubmit net getFullYear encodeURIComponent query) markup) /\
  (request_failed net url ->
   settles (Page.searchSubmit net getFullYear encodeURIComponent query)
     "<p>Nenhum filme encontrado.</p>") /\
  (forall l, found = VArr l -> l <> [] -> forallb non_null (firstn 10 l) = true ->
   exists htmls,
     Page.results_html getFullYear (firstn 10 l) = Ok htmls /\
     length htmls = Nat.min 10 (length l) /\
     settles (Page.searchSubmit net getFullYear encodeURIComponent query)
       (results_markup htmls)) /\
  (forall l, found = VArr l -> forallb non_null (firstn 10 l) = false ->
   settles (Page.searchSubmit net getFullYear encodeURIComponent query)
     "<p>Erro ao buscar filmes. Tente novamente.</p>") /\
  (forall l, Page.resultsMarkup getFullYear (VArr l)
             = Page.resultsMarkup getFullYear (VArr (firstn 10 l))).
Proof.
  intros url found. pose proof (search_submit_runs query) as Hrun. fold url found in Hrun.
  split; [by eexists|]. split; [|split; [|split]].
  - intros Hf. unfold found in Hrun. rewrite (request_failed_payload net url Hf) in Hrun.
    exact Hrun.
  - intros l E Hne Hl. rewrite E in Hrun.
    destruct (proj1 (results_html_non_null _) Hl) as (htmls & Eh & Hlen).
    exists htmls. split; [exact Eh|]. split; [by rewrite Hlen, length_firstn|].
    unfold Page.resultsMarkup in Hrun. destruct l; [done|].
    cbn [length Nat.eqb] in Hrun. by rewrite Eh in Hrun.
  - intros l E Hl. rewrite E in Hrun. unfold Page.resultsMarkup in Hrun.
    destruct l; [discriminate Hl|]. cbn [length Nat.eqb] in Hrun.
    by rewrite (proj2 (results_html_non_null _) Hl) in Hrun.
  - intros l. unfold Page.resultsMarkup. rewrite firstn_firstn.
    by destruct l.
Qed.


(** X23. The action [init]: the collection becomes the result of the
    bootstrap, which is also what the storage holds, and no alert is
    raised.  The start message is overwritten by the list whenever the list
    can be rendered, and stays only when the rendering raises.  On a
    network where every details request is rejected the collection is empty
    and the page shows the placeholder. *)
Theorem init_shows_the_bootstrap (p : Page.page) (w : world) :
  let result := somes (map (fetched net getFullYear) DEFAULT_MOVIE_IDS) in
  let p0 := told "🎬 Cine Map iniciado com lista de filmes padrão!"
              (submitted (holding result p)) in
  (exists w',
     Page.init net getFullYear p w = (Ok (Page.displayMoviesWithImages result p0), w') /\
     in_sync result w' /\ alerts w' = alerts w) /\
  (result <> [] -> forallb renders result = true ->
   exists html, Page.displayMoviesWithImages result p0 = (shown html p0, Ok tt)) /\
  (forallb renders result = false ->
   Page.displayMoviesWithImages result p0 = (p0, Throw TypeError)) /\
  ((forall id, In id DEFAULT_MOVIE_IDS -> net (details_url id) = Rejected) ->
   result = [] /\
   Page.displayMoviesWithImages result p0
   = (shown "<p>Nenhum filme encontrado.</p>" p0, Ok tt)).
Proof.
  intros result p0. split; [|split; [|split]].
  - eexists. unfold Page.init, bind. rewrite (resetMovies_runs net getFullYear w).
    fold result. split; [reflexivity|]. split; [apply lookup_insert_eq|done].
  - intros Hne HL. destruct (display_rendered result p0 Hne HL) as (htmls & _ & E).
    by eexists.
  - intros HL. unfold Page.displayMoviesWithImages.
    destruct result; [discriminate HL|]. cbn [length Nat.eqb].
    by rewrite (proj2 (movies_html_renders _) HL).
  - intros Hdown.
    assert (E : result = []).
    { unfold result. generalize Hdown. generalize DEFAULT_MOVIE_IDS.
      intros l Hl. induction l as [|id l IH]; [done|]. simpl.
      rewrite (fetched_none_details net getFullYear id); [|left; apply Hl; by left].
      apply IH. intros x Hx. apply Hl. by right. }
    split; [exact E|]. unfold Page.displayMoviesWithImages. by rewrite E.
Qed.

Lemma persisted_reload (L : list object) (w : world) :
  persisted L w -> json_safe (movies_value L) = true ->
  loadMovies w = (Ok (movies_value L), w).
Proof.
  intros [H|[-> H]] Hj; [by apply in_sync_reload|].
  pose proof (loadMovies_absent w H) as Hl. pose proof (loadMovies_world w) as Hw.
  destruct (loadMovies w) as [o w1]. simpl in *. by subst.
Qed.

(** X24. After every handler that changes the collection (the update
    form, the delete form, a click on a star, [init], [clear], the add
    handler of [ui.js]) the storage holds the collection that is in memory,
    or nothing when [clear] has emptied it; the search form leaves both
    alone.  A collection that the storage holds in this way, and that is a
    well-formed value, is what a reload of the page finds. *)
Theorem storage_follows_memory (p : Page.page) (w : world) :
  (forall updateId title director year overview, exists p' w',
     Page.updateSubmit Number updateId title director year overview p w = (Ok p', w') /\
     persisted (Page.movies p') w') /\
  (forall deleteId, exists p' w',
     Page.deleteSubmit Number deleteId p w = (Ok p', w') /\
     persisted (Page.movies p') w') /\
  (forall dataValue dataMovieId, exists p' o w',
     Page.starClick Number dataValue dataMovieId p w = (Ok (p', o), w') /\
     persisted (Page.movies p') w') /\
  (exists p' o w',
     Page.init net getFullYear p w = (Ok (p', o), w') /\
     persisted (Page.movies p') w') /\
  (exists p' w',
     Page.clear p w = (Ok p', w') /\ persisted (Page.movies p') w') /\
  (forall (u : UI.ui) movieId, persisted (UI.movies u) w -> exists u' w',
     UI.addMovieFromTMDB net getFullYear movieId u w = (Ok u', w') /\
     persisted (UI.movies u') w') /\
  (forall query, persisted (Page.movies p) w -> exists markup w',
     Page.searchSubmit net getFullYear encodeURIComponent query w = (Ok markup, w') /\
     persisted (Page.movies p) w') /\
  (forall L w0, persisted L w0 -> json_safe (movies_value L) = true ->
     loadMovies w0 = (Ok (movies_value L), w0)).
Proof.
  split; [|split; [|split; [|split; [|split; [|split; [|split]]]]]].
  - intros. do 2 eexists. split; [reflexivity|]. left. apply in_sync_saved.
  - intros. do 2 eexists. split; [reflexivity|]. left. apply in_sync_saved.
  - intros dataValue dataMovieId.
    set (L' := rateMovie (Page.movies p) (Number dataMovieId) (Number dataValue)).
    change (Page.starClick Number dataValue dataMovieId p w) with
      (Ok (Page.displayMoviesWithImages L' (holding L' p)), saved L' w).
    pose proof (display_keeps_movies L' (holding L' p)) as Hk.
    destruct (Page.displayMoviesWithImages L' (holding L' p)) as [p' o].
    exists p', o, (saved L' w). split; [done|]. simpl in Hk. rewrite Hk.
    left. apply in_sync_saved.
  - unfold Page.init, bind. rewrite (resetMovies_runs net getFullYear w).
    match goal with |- context [Page.displayMoviesWithImages ?L ?q] =>
      pose proof (display_keeps_movies L q) as Hk;
      destruct (Page.displayMoviesWithImages L q) as [p' o] end.
    do 3 eexists. split; [reflexivity|]. simpl in Hk. rewrite Hk.
    left. apply lookup_insert_eq.
  - do 2 eexists. split; [reflexivity|]. right. split; [done|]. apply lookup_delete_eq.
  - intros u movieId Hp.
    destruct (movieExists (UI.movies u) movieId) eqn:Ex.
    + do 2 eexists. unfold UI.addMovieFromTMDB, try_catch, bind. rewrite Ex.
      split; [reflexivity|]. exact Hp.
    + destruct (api_fetch_never_raises net getFullYear movieId) as [r Hr].
      destruct (Hr w) as (w1 & E & Hs & Ha).
      unfold UI.addMovieFromTMDB, try_catch, bind. rewrite Ex, E.
      destruct r as [movieData|].
      * do 2 eexists. split; [reflexivity|]. left. apply in_sync_saved.
      * do 2 eexists. split; [reflexivity|]. unfold persisted, in_sync in *.
        cbn [alert snd storage]. by rewrite Hs.
  - intros query Hp. destruct (search_submit_runs query w) as (w' & E & Hs & _).
    do 2 eexists. split; [exact E|]. unfold persisted, in_sync in *. by rewrite Hs.
  - apply persisted_reload.
Qed.

End HandlersMore.

Lemma update_form_writes_filled_fields_witness :
  let p := {| Page.movies := two_movies; Page.forms := Page.Markup "";
              Page.output := Page.Text ""; Page.outputDisplay := "block" |} in
  let L' := Filmoteca.updateMovie two_movies (int 13)
              (Page.form_updates decimal_of_string "" "" "1995" "") in
  two_movies !! 1%nat
  = Some [("id", int 13); ("title", VStr "Forrest Gump");
          ("director", VStr "Robert Zemeckis"); ("year", int 1994);
          ("genres", VStr ""); ("voteAverage", VNum (Num 85 1))] /\
  exists m', L' !! 1%nat = Some m' /\
    obj_get "year" m' = int 1995 /\ obj_get "title" m' = VStr "Forrest Gump".
Proof.
  intros p L'. split; [reflexivity|].
  destruct (update_form_writes_filled_fields decimal_of_string "13" "" "" "1995" ""
              p empty_world) as (_ & _ & _ & H & _).
  destruct (H 1%nat _ eq_refl) as (m' & E & _ & _ & Hf).
  destruct (Hf eq_refl) as (Ht & _ & Hy & _).
  exists m'. split; [exact E|]. split; [exact Hy|exact Ht].
Defined.

Lemma delete_form_removes_every_match_witness :
  let p := {| Page.movies := two_movies; Page.forms := Page.Markup "";
              Page.output := Page.Text ""; Page.outputDisplay := "block" |} in
  unique_ids two_movies = true /\
  Filmoteca.movieExists two_movies (decimal_of_string "680") = true /\
  S (length (Filmoteca.deleteMovie two_movies (decimal_of_string "680"))) = 2%nat.
Proof.
  intros p. split; [reflexivity|]. split; [reflexivity|].
  destruct (delete_form_removes_every_match decimal_of_string "680" p empty_world)
    as (_ & _ & _ & _ & _ & _ & H).
  apply H; reflexivity.
Defined.

Lemma star_click_rates_and_redraws_witness :
  let p := {| Page.movies := two_movies; Page.forms := Page.Markup "";
              Page.output := Page.Text ""; Page.outputDisplay := "block" |} in
  decimal_of_string "7" = int 7 /\ (1 <= 7 <= 10)%Z /\
  forallb renders two_movies = true /\
  exists html,
    fst (Page.starClick decimal_of_string "7" "13" p empty_world)
    = Ok (shown html
            (holding (Filmoteca.rateMovie two_movies (int 13) (int 7)) p), Ok tt).
Proof.
  intros p. split; [reflexivity|]. split; [lia|]. split; [reflexivity|].
  destruct (star_click_rates_and_redraws decimal_of_string "7" "13" p empty_world)
    as [_ H].
  destruct (H 7%Z) as (html & E & _); [reflexivity|lia|discriminate|reflexivity|].
  exists html. by rewrite E.
Defined.

Lemma search_form_outcomes_witness :
  request_failed net_down (search_url (fun query => query) "pulp fiction") /\
  settles (Page.searchSubmit net_down year_of_iso_date (fun query => query)
             "pulp fiction")
          "<p>Nenhum filme encontrado.</p>".
Proof.
  assert (Hf : request_failed net_down (search_url (fun query => query) "pulp fiction"))
    by (left; reflexivity).
  split; [exact Hf|].
  destruct (search_form_outcomes net_down year_of_iso_date (fun query => query)
              "pulp fiction") as (_ & H & _).
  exact (H Hf).
Defined.


Lemma init_shows_the_bootstrap_witness :
  let p := {| Page.movies := two_movies; Page.forms := Page.Markup "";
              Page.output := Page.Text ""; Page.outputDisplay := "none" |} in
  (forall id, In id Filmoteca.DEFAULT_MOVIE_IDS ->
     net_down (Filmoteca.details_url id) = Rejected) /\
  somes (map (fetched net_down year_of_iso_date) Filmoteca.DEFAULT_MOVIE_IDS) = [].
Proof.
  intros p.
  assert (Hdown : forall id, In id Filmoteca.DEFAULT_MOVIE_IDS ->
                    net_down (Filmoteca.details_url id) = Rejected) by reflexivity.
  split; [exact Hdown|].
  destruct (init_shows_the_bootstrap net_down year_of_iso_date p empty_world)
    as (_ & _ & _ & H).
  exact (proj1 (H Hdown)).
Defined.

Lemma storage_follows_memory_witness :
  let p := {| Page.movies := two_movies; Page.forms := Page.Markup "";
              Page.output := Page.Text ""; Page.outputDisplay := "block" |} in
  persisted two_movies (saved two_movies empty_world) /\
  json_safe (movies_value two_movies) = true /\
  Filmoteca.loadMovies (saved two_movies empty_world)
  = (Ok (movies_value two_movies), saved two_movies empty_world).
Proof.
  intros p.
  assert (Hp : persisted two_movies (saved two_movies empty_world))
    by (left; reflexivity).
  split; [exact Hp|]. split; [reflexivity|].
  destruct (storage_follows_memory net_down year_of_iso_date (fun query => query)
              decimal_of_string p empty_world) as (_ & _ & _ & _ & _ & _ & _ & H).
  apply H; [exact Hp|reflexivity].
Defined.

(** ** Ratings *)

Section EngineRatings.

Import Filmoteca.

Lemma obj_set_overwrite k v1 v2 (o : object) :
  obj_set k v2 (obj_set k v1 o) = obj_set k v2 o.
Proof.
  induction o as [|[k' v'] o IH]; simpl.
  - by rewrite String.eqb_refl.
  - destruct (String.eqb k k') eqn:E; simpl; rewrite ?String.eqb_refl, ?E, ?IH; done.
Qed.

(** X25. Of two ratings of the same id the second is the one that
    stays; after a rating every movie with the id has that rating, written
    in place; ratings of two ids that no movie shares commute; a rating
    never changes the number of movies. *)
Theorem ratings_compose (L : list object) (id r1 r2 : value) :
  rateMovie (rateMovie L id r1) id r2 = rateMovie L id r2 /\
  (forall m, In m (rateMovie L id r1) -> has_id id m = true -> obj_get "rating" m = r1) /\
  (forall (i : nat) m, L !! i = Some m -> has_id id m = true ->
     rateMovie L id r1 !! i = Some (obj_set "rating" r1 m)) /\
  (forall id', (forall m, In m L -> has_id id m && has_id id' m = false) ->
     rateMovie (rateMovie L id r1) id' r2 = rateMovie (rateMovie L id' r2) id r1) /\
  length (rateMovie L id r1) = length L.
Proof.
  split; [|split; [|split; [|split]]].
  - unfold rateMovie, updateMovie. rewrite map_map. apply map_ext. intros m.
    fold (has_id id m). destruct (has_id id m) eqn:E.
    + fold (has_id id (spread m [("rating", r1)])). rewrite has_id_rated, E.
      unfold spread. cbn [fold_left fst snd]. apply obj_set_overwrite.
    + fold (has_id id m). by rewrite E.
  - intros m Hm Hid. unfold rateMovie, updateMovie in Hm.
    apply in_map_iff in Hm as (m0 & <- & _). fold (has_id id m0) in *.
    destruct (has_id id m0) eqn:E.
    + apply obj_get_set_eq.
    + congruence.
  - intros i m Hi Hid. unfold rateMovie. rewrite (updateMovie_lookup _ _ _ _ _ Hi).
    by rewrite Hid.
  - intros id' Hd. unfold rateMovie, updateMovie. rewrite !map_map.
    apply map_ext_in. intros m Hm. specialize (Hd m Hm).
    fold (has_id id m) (has_id id' m).
    destruct (has_id id m) eqn:E1, (has_id id' m) eqn:E2; try discriminate Hd.
    + fold (has_id id' (spread m [("rating", r1)])). rewrite has_id_rated, E2.
      fold (has_id id m). by rewrite E1.
    + fold (has_id id' m). rewrite E2.
      fold (has_id id (spread m [("rating", r2)])). by rewrite has_id_rated, E1.
    + fold (has_id id' m) (has_id id m). by rewrite E1, E2.
  - unfold rateMovie, updateMovie. apply length_map.
Qed.

End EngineRatings.

Lemma ratings_compose_witness :
  let m := [("id", int 13); ("title", VStr "Forrest Gump");
            ("director", VStr "Robert Zemeckis"); ("year", int 1994);
            ("genres", VStr ""); ("voteAverage", VNum (Num 85 1)); ("rating", int 8)] in
  In m (Filmoteca.rateMovie two_movies (int 13) (int 8)) /\
  has_id (int 13) m = true /\ obj_get "rating" m = int 8.
Proof.
  intros m.
  assert (Hin : In m (Filmoteca.rateMovie two_movies (int 13) (int 8)))
    by (right; left; reflexivity).
  split; [exact Hin|]. split; [reflexivity|].
  destruct (ratings_compose two_movies (int 13) (int 8) (int 9)) as (_ & H & _).
  apply H; [exact Hin|reflexivity].
Defined.

(** ** The shape of the records of the catalog *)

Section CatalogRecords.

Context (net : string -> fetch_result) (getFullYear : value -> value).

Lemma ensures_ret {A} (a : A) (P : A -> Prop) : P a -> ensures (ret a) P.
Proof. intros H w a' w' [= <- _]. exact H. Qed.

Lemma ensures_bind_post {A B} (m : io A) (k : A -> io B) (Q : A -> Prop) (P : B -> Prop) :
  ensures m Q -> (forall a, Q a -> ensures (k a) P) -> ensures (bind m k) P.
Proof.
  intros Hm Hk w b w'. unfold bind. destruct (m w) as [[a|e] w1] eqn:E; [|done].
  intros H. exact (Hk a (Hm _ _ _ E) _ _ _ H).
Qed.

Lemma ensures_bind {A B} (m : io A) (k : A -> io B) (P : B -> Prop) :
  (forall a, ensures (k a) P) -> ensures (bind m k) P.
Proof. intros Hk. apply (ensures_bind_post m k (fun _ => True)); [done|auto]. Qed.

Lemma ensures_try_catch {A} (m : io A) (h : error -> io A) (P : A -> Prop) :
  ensures m P -> (forall e, ensures (h e) P) -> ensures (try_catch m h) P.
Proof.
  intros Hm Hh w a w'. unfold try_catch. destruct (m w) as [[a0|e] w1] eqn:E.
  - intros [= <- _]. exact (Hm _ _ _ E).
  - apply Hh.
Qed.

Lemma ensures_genres (genres : value) :
  ensures (if truthy genres then lift (Filmoteca.join_genres genres) else ret (VStr ""))
          (fun g => is_string g = true).
Proof.
  destruct (truthy genres); [|by apply ensures_ret].
  intros w a w'. unfold lift, Filmoteca.join_genres.
  destruct genres; try done. destruct (Filmoteca.genre_names _); [|done].
  by intros [= <- _].
Qed.

Lemma or_else_truthy (a b : value) : truthy b = true -> truthy (or_else a b) = true.
Proof. intros H. unfold or_else. by destruct (truthy a) eqn:E. Qed.

Lemma image_url_shape (path : value) :
  image_url_or_null (API.createImageUrl path) = true.
Proof.
  unfold API.createImageUrl. destruct (truthy path); [|done].
  apply starts_with_spec. by eexists.
Qed.

Lemma ensures_filmoteca_record (id : value) :
  ensures (Filmoteca.fetchCompleteMovieData net getFullYear id)
    (fun r => forall movie, r = Some movie ->
       catalog_record common_fields movie /\
       truthy (obj_get "director" movie) = true).
Proof.
  unfold Filmoteca.fetchCompleteMovieData. apply ensures_try_catch;
    [|intros e; apply ensures_bind; intros _; by apply ensures_ret].
  do 6 (apply ensures_bind; intros ?).
  apply (ensures_bind_post _ _ (fun d => truthy d = true)).
  { destruct (truthy _); [|by apply ensures_ret].
    do 2 (apply ensures_bind; intros ?). apply ensures_ret. by apply or_else_truthy. }
  intros director Hd. do 6 (apply ensures_bind; intros ?).
  apply (ensures_bind_post _ _ _ _ (ensures_genres _)). intros g Hg.
  do 2 (apply ensures_bind; intros ?). apply ensures_ret.
  intros movie [= <-]. split; [|exact Hd].
  split; [reflexivity|]. split; [exact Hg|]. split; [by apply or_else_truthy|].
  apply (image_url_shape _).
Qed.

Lemma ensures_api_record (id : value) :
  ensures (API.fetchCompleteMovieData net getFullYear id)
    (fun r => forall movie, r = Some movie ->
       catalog_record api_fields movie /\
       image_url_or_null (obj_get "backdropUrl" movie) = true /\
       truthy (obj_get "tmdbData" movie) = true).
Proof.
  unfold API.fetchCompleteMovieData. apply ensures_try_catch;
    [|intros e; apply ensures_bind; intros _; by apply ensures_ret].
  apply ensures_bind. intros both.
  destruct (truthy (nth 0 both VUndef)) eqn:Ht; cbn [negb]; [|by apply ensures_ret].
  do 9 (apply ensures_bind; intros ?).
  apply (ensures_bind_post _ _ _ _ (ensures_genres _)). intros g Hg.
  do 3 (apply ensures_bind; intros ?). apply ensures_ret.
  intros movie [= <-].
  split; [|split; [apply image_url_shape|exact Ht]].
  split; [reflexivity|]. split; [exact Hg|]. split; [by apply or_else_truthy|].
  apply image_url_shape.
Qed.

Lemma fetched_typed (id : value) (movie : object) :
  fetched net getFullYear id = Some movie -> genres_typed movie = true.
Proof.
  intros H. destruct (filmoteca_fetch_settles net getFullYear id empty_world)
    as (w' & E & _).
  rewrite H in E. destruct (ensures_filmoteca_record id _ _ _ E movie eq_refl)
    as [(_ & Hg & _) _].
  unfold genres_typed. by destruct (obj_get "genres" movie).
Qed.

(** X26. Both copies of [fetchCompleteMovieData] settle, and a record
    that either returns has exactly the fields of its copy, in their order,
    a string for [genres], a truthy [overview], and for [posterUrl] either
    [null] or an address under the image base of the catalog, which is all
    [createImageUrl] ever returns.  The copy in [filmoteca.js] always names
    a truthy director.  The records of the bootstrap therefore all have a
    string for [genres], and the genre filter never raises on them. *)
Theorem catalog_records_shape (id : value) :
  (exists r, settles (Filmoteca.fetchCompleteMovieData net getFullYear id) r /\
     forall movie, r = Some movie ->
       catalog_record common_fields movie /\
       truthy (obj_get "director" movie) = true) /\
  (exists r, settles (API.fetchCompleteMovieData net getFullYear id) r /\
     forall movie, r = Some movie ->
       catalog_record api_fields movie /\
       image_url_or_null (obj_get "backdropUrl" movie) = true /\
       truthy (obj_get "tmdbData" movie) = true) /\
  (forall path, image_url_or_null (API.createImageUrl path) = true /\
     (truthy path = false -> API.createImageUrl path = VNull)) /\
  (let result := somes (map (fetched net getFullYear) Filmoteca.DEFAULT_MOVIE_IDS) in
   forallb genres_typed result = true /\
   forall name, Filmoteca.listMoviesByGenre result name
                = Ok (List.filter (genre_selected name) result)).
Proof.
  split; [|split; [|split]].
  - exists (fetched net getFullYear id).
    pose proof (filmoteca_fetch_settles net getFullYear id) as Hs.
    split; [exact Hs|]. destruct (Hs empty_world) as (w' & E & _).
    exact (ensures_filmoteca_record id _ _ _ E).
  - destruct (api_fetch_never_raises net getFullYear id) as [r Hr]. exists r.
    split; [exact Hr|]. destruct (Hr empty_world) as (w' & E & _).
    exact (ensures_api_record id _ _ _ E).
  - intros path. split; [apply image_url_shape|].
    intros H. unfold API.createImageUrl. by rewrite H.
  - intros result.
    assert (Ht : forallb genres_typed result = true).
    { unfold result. generalize Filmoteca.DEFAULT_MOVIE_IDS. intros l.
      induction l as [|x l IH]; [done|]. cbn [map somes].
      destruct (fetched net getFullYear x) as [m|] eqn:E; [|exact IH].
      cbn [forallb]. by rewrite (fetched_typed x m E). }
    split; [exact Ht|]. intros name. by apply listMoviesByGenre_typed.
Qed.

End CatalogRecords.

Lemma catalog_records_shape_witness :
  truthy (VStr "") = false /\ API.createImageUrl (VStr "") = VNull.
Proof.
  split; [reflexivity|].
  destruct (catalog_records_shape net_down year_of_iso_date (int 680))
    as (_ & _ & H & _).
  apply (H (VStr "")). reflexivity.
Defined.

(** ** The copy of [fetchCompleteMovieData] in [api.js], on sample networks *)

Lemma api_fetch_as_specified_witness :
  request_failed net_down (api_details_url (int 680)) /\
  settles (API.fetchCompleteMovieData net_down year_of_iso_date (int 680)) None.
Proof.
  assert (Hf : request_failed net_down (api_details_url (int 680)))
    by (left; reflexivity).
  split; [exact Hf|].
  destruct (api_fetch_as_specified net_down year_of_iso_date (int 680))
    as (_ & _ & H & _).
  exact (H Hf).
Defined.

Lemma api_fetch_null_iff_no_details_witness :
  details_shaped (payload sample_net (api_details_url (int 680))) = true /\
  credits_shaped (payload sample_net (api_credits_url (int 680))) = true /\
  exists r,
    settles (API.fetchCompleteMovieData sample_net year_of_iso_date (int 680)) r /\
    (r = None <-> truthy (payload sample_net (api_details_url (int 680))) = false).
Proof.
  split; [vm_compute; reflexivity|]. split; [vm_compute; reflexivity|].
  apply api_fetch_null_iff_no_details; vm_compute; reflexivity.
Defined.
